(** * LazyCopy: a model of [app.py] and the properties of its copy engine

    The program copies files and directory trees.  This development embeds
    [is_binary] and the [Worker] methods [init_bar], [close_bar],
    [link_file] and [copy_file] over an explicit model of what they touch:
    the file system, the console, the logger, the [tqdm] progress bar and
    Python's file objects.

    Layout:
    - bytes, characters and the strict UTF-8 decoder;
    - Python's text layer ([io.TextIOWrapper]) and byte layer;
    - the file system and the [os] / [os.path] calls in use;
    - the state-and-exception monad of the program;
    - the program itself, in source order;
    - the vocabulary of the properties: example file systems and the
      predicates the statements use;
    - the properties, with their proofs.

    The host is a POSIX one with a UTF-8 locale: [os.linesep] is a line
    feed and [open(..., encoding=None)] decodes and encodes UTF-8. *)

From Stdlib Require Import ZArith NArith List Lia Bool Ascii String.
From Stdlib Require Import Strings.Byte.
From stdpp Require Import base option gmap strings list.
Import ListNotations.

Open Scope string_scope.
Open Scope list_scope.

(** ** Bytes and characters *)

(** A Python [str] is a sequence of Unicode scalar values.  Each scalar
    value is named here by its UTF-8 code unit sequence, which determines
    it and is determined by it; [len] of a [str] is the number of
    sequences, and encoding to UTF-8 is concatenation. *)
#[global] Instance byte_eq_decision : EqDecision byte := Byte.byte_eq_dec.

Definition char := list byte.
Definition str := list char.

Definition LF : char := [x0a].
Definition CR : char := [x0d].

Definition char_eqb (a b : char) : bool :=
  bool_decide (a = b).

Definition encode_utf8 (s : str) : list byte := concat s.

Definition in_range (lo hi : N) (b : byte) : bool :=
  ((lo <=? Byte.to_N b) && (Byte.to_N b <=? hi))%N.

Definition continuation : byte -> bool := in_range 128 191.

(** The well-formed byte sequences of the Unicode standard (table 3-7):
    for a lead byte, how many bytes follow and the range the first of them
    must lie in.  Overlong forms, surrogates and values above U+10FFFF have
    no entry, as in CPython's strict decoder. *)
Definition lead (b0 : byte) : option (nat * N * N) :=
  let n := Byte.to_N b0 in
  if (n <=? 127)%N then Some (0%nat, 0%N, 0%N)
  else if (n <? 194)%N then None
  else if (n <=? 223)%N then Some (1%nat, 128%N, 191%N)
  else if (n =? 224)%N then Some (2%nat, 160%N, 191%N)
  else if (n <=? 236)%N then Some (2%nat, 128%N, 191%N)
  else if (n =? 237)%N then Some (2%nat, 128%N, 159%N)
  else if (n <=? 239)%N then Some (2%nat, 128%N, 191%N)
  else if (n =? 240)%N then Some (3%nat, 144%N, 191%N)
  else if (n <=? 243)%N then Some (3%nat, 128%N, 191%N)
  else if (n =? 244)%N then Some (3%nat, 128%N, 143%N)
  else None.

Inductive shape := Complete | Partial | Bad.

(** [classify g]: [g] is a whole well-formed sequence, a proper prefix of
    one, or neither. *)
Definition classify (g : list byte) : shape :=
  match g with
  | [] => Partial
  | b0 :: t =>
      match lead b0 with
      | None => Bad
      | Some (k, lo, hi) =>
          match t with
          | [] => if (k =? 0)%nat then Complete else Partial
          | b1 :: t' =>
              if in_range lo hi b1 && forallb continuation t'
                 && (length t <=? k)%nat
              then if (length t =? k)%nat then Complete else Partial
              else Bad
          end
      end
  end.

(** One pass of the decoder over [bs], [cur] being the bytes of the
    sequence under way: the characters found and the bytes of the
    unfinished sequence at the end, or [None] at the first ill-formed
    sequence. *)
Fixpoint utf8_scan (cur bs : list byte) : option (str * list byte) :=
  match bs with
  | [] => Some ([], cur)
  | b :: bs' =>
      match classify (cur ++ [b]) with
      | Complete =>
          match utf8_scan [] bs' with
          | Some (cs, p) => Some ((cur ++ [b]) :: cs, p)
          | None => None
          end
      | Partial => utf8_scan (cur ++ [b]) bs'
      | Bad => None
      end
  end.

(** [codecs]' incremental UTF-8 decoder: [decode(input, final)] decodes the
    bytes kept from the last call followed by [input], keeps an unfinished
    sequence for the next call, and raises when a sequence is ill-formed or
    when [final] is set and a sequence is unfinished. *)
Definition utf8_decode (pending input : list byte) (final : bool)
  : option (str * list byte) :=
  match utf8_scan [] (pending ++ input) with
  | Some (cs, p) =>
      if final && negb (bool_decide (p = [])) then None else Some (cs, p)
  | None => None
  end.

(** A whole byte string is well-formed UTF-8. *)
Definition utf8_valid (bs : list byte) : bool :=
  match utf8_decode [] bs true with Some _ => true | None => false end.

Definition decode_utf8 (bs : list byte) : option str :=
  match utf8_decode [] bs true with Some (cs, _) => Some cs | None => None end.

Definition bytes_of (s : string) : list byte := list_byte_of_string s.

(** ** Exceptions *)

Inductive errno := ENOENT | EACCES | EEXIST | EISDIR | EINVAL | ELOOP.

(** The exceptions the modelled calls raise.  [OSError] stands for its
    subclasses ([FileNotFoundError], [PermissionError], [FileExistsError],
    [IsADirectoryError]) told apart by the error number. *)
Inductive exn :=
| OSError (e : errno) (filename : string)
| UnicodeDecodeError
| ValueError (msg : string)
| TypeError (msg : string)
| AttributeError (msg : string)
| EOFError
| OverflowError (msg : string)
| SystemExit (code : Z).

Inductive res (A : Type) :=
| Ret (a : A)
| Raise (e : exn).
Arguments Ret {A} a.
Arguments Raise {A} e.

(** [except Exception] takes everything but [SystemExit], which derives
    from [BaseException] only. *)
Definition is_Exception (e : exn) : bool :=
  match e with SystemExit _ => false | _ => true end.

Definition is_OSError (e : exn) : bool :=
  match e with OSError _ _ => true | _ => false end.

Definition is_UnicodeDecodeError (e : exn) : bool :=
  match e with UnicodeDecodeError => true | _ => false end.

Definition strerror (e : errno) : string :=
  match e with
  | ENOENT => "[Errno 2] No such file or directory"
  | EACCES => "[Errno 13] Permission denied"
  | EEXIST => "[Errno 17] File exists"
  | EISDIR => "[Errno 21] Is a directory"
  | EINVAL => "[Errno 22] Invalid argument"
  | ELOOP => "[Errno 40] Too many levels of symbolic links"
  end.

(** [str(e)].  For a decoding error Python also names the offending byte
    and its offset; that part of the text is left out. *)
Definition exn_str (e : exn) : string :=
  match e with
  | OSError n f => strerror n +:+ ": '" +:+ f +:+ "'"
  | UnicodeDecodeError => "'utf-8' codec can't decode bytes"
  | ValueError m => m
  | TypeError m => m
  | AttributeError m => m
  | EOFError => "EOF when reading a line"
  | OverflowError m => m
  | SystemExit _ => ""
  end.

(** ** Python's text layer: [io.TextIOWrapper] over a file opened for reading *)

(** [str.replace("\r\n", "\n").replace("\r", "\n")]. *)
Fixpoint universal_newlines (s : str) : str :=
  match s with
  | [] => []
  | c :: s' =>
      if char_eqb c CR then
        match s' with
        | c' :: s'' =>
            if char_eqb c' LF then LF :: universal_newlines s''
            else LF :: universal_newlines s'
        | [] => [LF]
        end
      else c :: universal_newlines s'
  end.

Definition is_nil {A} (l : list A) : bool :=
  match l with [] => true | _ => false end.

Definition ends_with_CR (s : str) : bool :=
  match last s with Some c => char_eqb c CR | None => false end.

(** [io.IncrementalNewlineDecoder.decode] in translating mode, applied to
    the characters [output] the UTF-8 decoder gave: a carriage return at
    the end of a block is held back until the next block shows whether a
    line feed follows it. *)
Definition newline_decode (pendingcr : bool) (output : str) (final : bool)
  : str * bool :=
  let '(output, pendingcr) :=
    if pendingcr && (negb (is_nil output) || final)
    then (CR :: output, false) else (output, pendingcr) in
  let '(output, pendingcr) :=
    if ends_with_CR output && negb final
    then (removelast output, true) else (output, pendingcr) in
  (universal_newlines output, pendingcr).

(** [TextIOWrapper._CHUNK_SIZE]: the text layer takes the file in blocks of
    this many bytes and decodes a whole block at a time. *)
Definition TEXT_CHUNK_SIZE : nat := Z.to_nat 8192.

Record TextIOWrapper := {
  t_pos : nat;              (* bytes taken from the file so far *)
  t_pending : list byte;    (* decoder state: an unfinished sequence *)
  t_pendingcr : bool;       (* newline decoder state *)
  t_decoded : str           (* characters decoded and not yet returned *)
}.

Definition set_decoded (f : TextIOWrapper) (s : str) : TextIOWrapper :=
  {| t_pos := t_pos f; t_pending := t_pending f;
     t_pendingcr := t_pendingcr f; t_decoded := s |}.

(** [_read_chunk]: take the next block of the file [data], decode it, and
    make the result the pending characters.  The block is empty exactly at
    the end of the file, and the decoder is then told so.  Returns whether
    the end was not reached. *)
Definition read_chunk (data : list byte) (f : TextIOWrapper)
  : res (bool * TextIOWrapper) :=
  let input := take TEXT_CHUNK_SIZE (drop (t_pos f) data) in
  let eof := is_nil input in
  match utf8_decode (t_pending f) input eof with
  | None => Raise UnicodeDecodeError
  | Some (cs, p) =>
      let '(out, cr) := newline_decode (t_pendingcr f) cs eof in
      Ret (negb eof,
           {| t_pos := t_pos f + length input; t_pending := p;
              t_pendingcr := cr; t_decoded := out |})
  end.

(** The loop of [read(size)]:
    [while len(result) < size and not eof: ...].  [fuel] bounds the number
    of blocks; [None] when it runs out. *)
Fixpoint read_loop (fuel : nat) (data : list byte) (size : nat)
    (result : str) (f : TextIOWrapper) : option (res (str * TextIOWrapper)) :=
  if (size <=? length result)%nat then Some (Ret (result, f))
  else
    match fuel with
    | O => None
    | S fuel' =>
        match read_chunk data f with
        | Raise e => Some (Raise e)
        | Ret (more, f') =>
            let k := (size - length result)%nat in
            let result' := result ++ take k (t_decoded f') in
            let f'' := set_decoded f' (drop k (t_decoded f')) in
            if more then read_loop fuel' data size result' f''
            else Some (Ret (result', f''))
        end
    end.

(** [TextIOWrapper.read(size)] on a file whose bytes are [data].  A
    negative [size] reads to the end in one go. *)
Definition text_read (data : list byte) (size : Z) (f : TextIOWrapper)
  : option (res (str * TextIOWrapper)) :=
  if (size <? 0)%Z then
    let input := drop (t_pos f) data in
    match utf8_decode (t_pending f) input true with
    | None => Some (Raise UnicodeDecodeError)
    | Some (cs, p) =>
        let '(out, cr) := newline_decode (t_pendingcr f) cs true in
        Some (Ret (t_decoded f ++ out,
                   {| t_pos := t_pos f + length input; t_pending := p;
                      t_pendingcr := cr; t_decoded := [] |}))
    end
  else
    let size := Z.to_nat size in
    let result := take size (t_decoded f) in
    let f := set_decoded f (drop size (t_decoded f)) in
    read_loop (S (length data - t_pos f)) data size result f.

(** The text layer over a file just opened. *)
Definition text_open : TextIOWrapper :=
  {| t_pos := 0; t_pending := []; t_pendingcr := false; t_decoded := [] |}.

(** ** Python's byte layer: [io.BufferedReader.read] *)

(** [read(size)] at offset [pos] of a file whose bytes are [data]:
    [size] bytes or what is left of the file, everything for [-1], and a
    [ValueError] below [-1]. *)
Definition bytes_read (data : list byte) (size : Z) (pos : nat)
  : res (list byte * nat) :=
  if (size <? -1)%Z then
    Raise (ValueError "read length must be non-negative or -1")
  else
    let rest := drop pos data in
    let got := if (size =? -1)%Z then rest else take (Z.to_nat size) rest in
    Ret (got, (pos + length got)%nat).

(** ** The file system *)

(** A path names a regular file with its permission bits and bytes, a
    directory, or a symbolic link with the target string it stores.  Paths
    are the keys of the map as the program writes them: the model neither
    normalises a path nor resolves a relative link target against the
    directory of its link. *)
Inductive node :=
| File (readable writable : bool) (content : list byte)
| Dir
| Symlink (target : string).

Abbreviation filesystem := (gmap string node).

(** The kernel gives up after this many links in a row. *)
Definition MAXSYMLINKS : nat := 40.

(** Where a path leads once the links on it are followed; [None] when there
    are too many. *)
Fixpoint follow (fs : filesystem) (hops : nat) (p : string) : option string :=
  match fs !! p with
  | Some (Symlink t) =>
      match hops with
      | O => None
      | S h => follow fs h t
      end
  | _ => Some p
  end.

(** [os.stat]: the node a path leads to, with the key it has. *)
Definition stat (fs : filesystem) (p : string) : res (string * node) :=
  match follow fs MAXSYMLINKS p with
  | None => Raise (OSError ELOOP p)
  | Some k =>
      match fs !! k with
      | Some nd => Ret (k, nd)
      | None => Raise (OSError ENOENT p)
      end
  end.

(** [os.path.exists]: [os.stat] succeeds. *)
Definition exists_ (fs : filesystem) (p : string) : bool :=
  match stat fs p with Ret _ => true | Raise _ => false end.

(** Position after the last ["/"] of a path, read from the left. *)
Fixpoint last_slash (p : string) : option string :=
  match p with
  | EmptyString => None
  | String c p' =>
      match last_slash p' with
      | Some t => Some t
      | None => if Ascii.eqb c "/" then Some p' else None
      end
  end.

(** [os.path.basename]. *)
Definition basename (p : string) : string :=
  match last_slash p with Some t => t | None => p end.

(** The directory part of a path, without the final ["/"]
    ([""] for a bare name, ["/"] for an entry of the root). *)
Definition dirname (p : string) : string :=
  match last_slash p with
  | Some t =>
      let d := substring 0 (String.length p - String.length t - 1) p in
      if String.eqb d "" then "/" else d
  | None => ""
  end.

(** The directory a new entry [p] goes into is there.  The working
    directory and the root always are. *)
Definition parent_is_dir (fs : filesystem) (p : string) : bool :=
  let d := dirname p in
  if String.eqb d "" || String.eqb d "/" then true
  else match stat fs d with Ret (_, Dir) => true | _ => false end.

(** [os.path.getsize]: the size [os.stat] reports.  For a directory the
    number is the host's business; the model says 0. *)
Definition getsize (fs : filesystem) (p : string) : res Z :=
  match stat fs p with
  | Ret (_, File _ _ c) => Ret (Z.of_nat (length c))
  | Ret (_, _) => Ret 0%Z
  | Raise e => Raise e
  end.

(** Opening for reading: the key of the file, if it is a readable regular
    file. *)
Definition open_for_read (fs : filesystem) (p : string) : res string :=
  match stat fs p with
  | Ret (k, File true _ _) => Ret k
  | Ret (_, File false _ _) => Raise (OSError EACCES p)
  | Ret (_, _) => Raise (OSError EISDIR p)
  | Raise e => Raise e
  end.

(** Opening for writing truncates a writable regular file, and creates the
    file when the path leads nowhere and its directory is there. *)
Definition open_for_write (fs : filesystem) (p : string)
  : res (string * filesystem) :=
  match follow fs MAXSYMLINKS p with
  | None => Raise (OSError ELOOP p)
  | Some k =>
      match fs !! k with
      | Some (File r true _) => Ret (k, <[k := File r true []]> fs)
      | Some (File _ false _) => Raise (OSError EACCES p)
      | Some _ => Raise (OSError EISDIR p)
      | None =>
          if parent_is_dir fs k then Ret (k, <[k := File true true []]> fs)
          else Raise (OSError ENOENT p)
      end
  end.

(** Bytes of the open file [k].  An open file stays a file, the other
    case is only there to make the function total. *)
Definition content_of (fs : filesystem) (k : string) : list byte :=
  match fs !! k with Some (File _ _ c) => c | _ => [] end.

Definition append_to (fs : filesystem) (k : string) (bs : list byte)
  : filesystem :=
  match fs !! k with
  | Some (File r w c) => <[k := File r w (c ++ bs)]> fs
  | _ => fs
  end.

(** [os.symlink(src, dst)]: a new link at [dst] storing the string [src].
    It fails when [dst] names anything already, link or not. *)
Definition symlink (fs : filesystem) (src dst : string) : res filesystem :=
  match fs !! dst with
  | Some _ => Raise (OSError EEXIST dst)
  | None =>
      if parent_is_dir fs dst then Ret (<[dst := Symlink src]> fs)
      else Raise (OSError ENOENT dst)
  end.

(** [os.readlink]. *)
Definition readlink (fs : filesystem) (p : string) : res string :=
  match fs !! p with
  | Some (Symlink t) => Ret t
  | Some _ => Raise (OSError EINVAL p)
  | None => Raise (OSError ENOENT p)
  end.

(** [os.path.islink]. *)
Definition islink (fs : filesystem) (p : string) : bool :=
  match fs !! p with Some (Symlink _) => true | _ => false end.

(** [os.path.isdir] and [os.path.isfile]: what [os.stat] finds at the end
    of the links. *)
Definition isdir (fs : filesystem) (p : string) : bool :=
  match stat fs p with Ret (_, Dir) => true | _ => false end.

Definition isfile (fs : filesystem) (p : string) : bool :=
  match stat fs p with Ret (_, File _ _ _) => true | _ => false end.

(** [os.mkdir]: a new directory at [p].  It fails when [p] names anything
    already, when [p] is empty and when the directory [p] goes into is not
    there. *)
Definition mkdir (fs : filesystem) (p : string) : res filesystem :=
  match fs !! p with
  | Some _ => Raise (OSError EEXIST p)
  | None =>
      if String.eqb p "" then Raise (OSError ENOENT p)
      else if parent_is_dir fs p then Ret (<[p := Dir]> fs)
      else Raise (OSError ENOENT p)
  end.

(** ** Path names: [posixpath] *)

Definition starts_with_slash (p : string) : bool :=
  match p with
  | String c _ => Ascii.eqb c "/"
  | EmptyString => false
  end.

Fixpoint ends_with_slash (p : string) : bool :=
  match p with
  | EmptyString => false
  | String c p' =>
      match p' with
      | EmptyString => Ascii.eqb c "/"
      | String _ _ => ends_with_slash p'
      end
  end.

(** [os.path.join(a, b)]: [b] alone when it is absolute, else [b] after
    [a] and a ["/"], which is left out when [a] is empty or ends in one. *)
Definition os_path_join (a b : string) : string :=
  if starts_with_slash b then b
  else if String.eqb a "" || ends_with_slash a then a +:+ b
  else a +:+ "/" +:+ b.

(** [str.rstrip("/")]. *)
Fixpoint rstrip_slash (p : string) : string :=
  match p with
  | EmptyString => EmptyString
  | String c p' =>
      let r := rstrip_slash p' in
      if String.eqb r "" && Ascii.eqb c "/" then EmptyString else String c r
  end.

(** [os.path.split]: the text up to the last ["/"], without the slashes at
    its end unless it is made of slashes only, and the text after it. *)
Definition os_path_split (p : string) : string * string :=
  let tail := basename p in
  let head := substring 0 (String.length p - String.length tail) p in
  (if negb (String.eqb head "") && negb (String.eqb (rstrip_slash head) "")
   then rstrip_slash head else head,
   tail).

(** Position after the last ["."] of a name, read from the left. *)
Fixpoint last_dot (p : string) : option string :=
  match p with
  | EmptyString => None
  | String c p' =>
      match last_dot p' with
      | Some t => Some t
      | None => if Ascii.eqb c "." then Some p' else None
      end
  end.

Fixpoint all_dots (p : string) : bool :=
  match p with
  | EmptyString => true
  | String c p' => Ascii.eqb c "." && all_dots p'
  end.

(** [os.path.splitext]: the extension starts at the last ["."] of the last
    component, when a character that is not a dot stands before it in that
    component; else there is none. *)
Definition os_path_splitext (p : string) : string * string :=
  let name := basename p in
  match last_dot name with
  | Some e =>
      let stem :=
        substring 0 (String.length name - String.length e - 1) name in
      if all_dots stem then (p, "")
      else (substring 0 (String.length p - String.length e - 1) p, "." +:+ e)
  | None => (p, "")
  end.

(** ** Directories: [os.scandir] *)

(** An [os.DirEntry]: the name of the entry, the path [os.scandir] makes
    of it, and what the directory says the entry is. *)
Record DirEntry := {
  entry_name : string;
  entry_path : string;
  entry_node : node
}.

(** A name a directory lists: not empty, and not one of the two entries
    [os.scandir] leaves out. *)
Definition listed (name : string) : bool :=
  negb (String.eqb name "" || String.eqb name "." || String.eqb name "..").

(** The entry of the directory with key [d] that the key [k] stands for,
    if it is one. *)
Definition entry_of (d p : string) (kn : string * node) : option DirEntry :=
  if bool_decide (dirname (fst kn) = d) && listed (basename (fst kn))
  then Some {| entry_name := basename (fst kn);
               entry_path := os_path_join p (basename (fst kn));
               entry_node := snd kn |}
  else None.

(** [os.scandir(p)]: the entries of the directory [p] leads to, in the
    order the map lists its keys; [os.scandir] promises no order.  The
    error numbers of the model have none for a path that leads to something
    else than a directory, and [EINVAL] stands in for it: [Worker.run] only
    scans a path that is neither a link nor a regular file. *)
Definition scandir (fs : filesystem) (p : string) : res (list DirEntry) :=
  match stat fs p with
  | Ret (k, Dir) => Ret (omap (entry_of k p) (map_to_list fs))
  | Ret (_, _) => Raise (OSError EINVAL p)
  | Raise e => Raise e
  end.

(** [DirEntry.is_symlink], [is_file] and [is_dir]: the kind the directory
    gave, and for a link what [os.stat] finds behind it at the time of the
    call. *)
Definition is_symlink (item : DirEntry) : bool :=
  match entry_node item with Symlink _ => true | _ => false end.

Definition is_file (fs : filesystem) (item : DirEntry) : bool :=
  match entry_node item with
  | File _ _ _ => true
  | Dir => false
  | Symlink _ => isfile fs (entry_path item)
  end.

Definition is_dir (fs : filesystem) (item : DirEntry) : bool :=
  match entry_node item with
  | Dir => true
  | File _ _ _ => false
  | Symlink _ => isdir fs (entry_path item)
  end.

(** ** The state of a run and the monad of the program *)

(** A [tqdm] bar: the total it was given, the count so far, its label. *)
Record tqdm := { bar_total : Z; bar_n : Z; bar_desc : string }.

(** [tqdm.__bool__]: a bar with a total is true when the total is
    positive. *)
Definition tqdm_bool (b : tqdm) : bool := (0 <? bar_total b)%Z.

Record Worker := {
  _bar : option tqdm;
  _curr_path : option string;
  chunk_size : Z
}.

(** [Worker.__init__]. *)
Definition Worker_init (chunk_size : Z) : Worker :=
  {| _bar := None; _curr_path := None; chunk_size := chunk_size |}.

Inductive level := INFO | ERROR.

(** What a run does that can be seen from outside, in order. *)
Inductive event :=
| Print (text : string)                 (* [print] *)
| Input (prompt : string)               (* [input] *)
| Log (lvl : level) (msg : string)      (* [logger.info], [logger.error] *)
| BarOpen (total : Z) (desc : string)   (* [tqdm(...)] *)
| BarUpdate (k : Z)                     (* [tqdm.update] *)
| BarDescribe (desc : string)           (* [tqdm.set_description] *)
| BarClose                              (* [tqdm.close] *)
| FileWrite (name : string) (data : list byte).  (* [write] on a file *)

Record state := {
  st_fs : filesystem;
  st_stdin : list string;     (* the lines [input] is still to return *)
  st_trace : list event;
  st_self : Worker
}.

(** A computation runs from a state to a value or an exception, and a new
    state; [None] when a loop of the model ran out of fuel. *)
Definition M (A : Type) : Type := state -> option (res A * state).

Definition ret {A} (a : A) : M A := fun s => Some (Ret a, s).
Definition raise {A} (e : exn) : M A := fun s => Some (Raise e, s).
Definition out_of_fuel {A} : M A := fun _ => None.

Definition bind {A B} (m : M A) (k : A -> M B) : M B :=
  fun s =>
    match m s with
    | Some (Ret a, s') => k a s'
    | Some (Raise e, s') => Some (Raise e, s')
    | None => None
    end.

(** [try: body / except <class> as e: handler e]. *)
Definition try_except {A} (body : M A) (class : exn -> bool)
    (handler : exn -> M A) : M A :=
  fun s =>
    match body s with
    | Some (Raise e, s') =>
        if class e then handler e s' else Some (Raise e, s')
    | r => r
    end.

Declare Scope py_scope.
Delimit Scope py_scope with py.
Notation "x <- m ;; k" := (bind m (fun x => k))
  (at level 100, m at next level, k at level 200, right associativity)
  : py_scope.
Notation "m ;; k" := (bind m (fun _ => k))
  (at level 100, k at level 200, right associativity) : py_scope.
Open Scope py_scope.

Definition gets {A} (f : state -> A) : M A := fun s => Some (Ret (f s), s).
Definition modify (f : state -> state) : M unit := fun s => Some (Ret tt, f s).
Definition lift {A} (r : res A) : M A := fun s => Some (r, s).

Definition set_fs (fs : filesystem) (s : state) : state :=
  {| st_fs := fs; st_stdin := st_stdin s; st_trace := st_trace s;
     st_self := st_self s |}.
Definition set_stdin (l : list string) (s : state) : state :=
  {| st_fs := st_fs s; st_stdin := l; st_trace := st_trace s;
     st_self := st_self s |}.
Definition add_event (e : event) (s : state) : state :=
  {| st_fs := st_fs s; st_stdin := st_stdin s; st_trace := st_trace s ++ [e];
     st_self := st_self s |}.
Definition set_self (w : Worker) (s : state) : state :=
  {| st_fs := st_fs s; st_stdin := st_stdin s; st_trace := st_trace s;
     st_self := w |}.
Definition with_bar (b : option tqdm) (w : Worker) : Worker :=
  {| _bar := b; _curr_path := _curr_path w; chunk_size := chunk_size w |}.
Definition with_curr_path (p : string) (w : Worker) : Worker :=
  {| _bar := _bar w; _curr_path := Some p; chunk_size := chunk_size w |}.

Definition emit (e : event) : M unit := modify (add_event e).

(** ** The calls the program makes *)

Definition print (text : string) : M unit := emit (Print text).

(** [input(prompt)]: the next line of the input, [EOFError] when there is
    none. *)
Definition input (prompt : string) : M string :=
  emit (Input prompt) ;;
  lines <- gets st_stdin ;;
  match lines with
  | [] => raise EOFError
  | l :: rest => modify (set_stdin rest) ;; ret l
  end.

(** [sys.exit(code)] raises [SystemExit]. *)
Definition sys_exit {A} (code : Z) : M A := raise (SystemExit code).

(** The logger is set to level INFO, so both calls write their record. *)
Definition logger_info (msg : string) : M unit := emit (Log INFO msg).
Definition logger_error (msg : string) : M unit := emit (Log ERROR msg).

Definition os_path_exists (p : string) : M bool :=
  gets (fun s => exists_ (st_fs s) p).

Definition os_path_getsize (p : string) : M Z :=
  fs <- gets st_fs ;; lift (getsize fs p).

Definition os_symlink (src dst : string) : M unit :=
  fs <- gets st_fs ;;
  fs' <- lift (symlink fs src dst) ;;
  modify (set_fs fs').

(** [str.lower], on the letters A to Z. *)
Definition lower_ascii (c : ascii) : ascii :=
  let n := nat_of_ascii c in
  if ((65 <=? n) && (n <=? 90))%nat then ascii_of_nat (n + 32) else c.

Fixpoint lower (s : string) : string :=
  match s with
  | EmptyString => EmptyString
  | String c s' => String (lower_ascii c) (lower s')
  end.

(** File objects, each with the key of the file it was opened on.  A
    reader is the text layer or the byte layer with its offset; a writer
    only needs the file. *)
Inductive reader :=
| TextReader (name : string) (f : TextIOWrapper)
| BufferedReader (name : string) (pos : nat).

Inductive writer :=
| TextWriter (name : string)
| BufferedWriter (name : string).

(** What [read] gives and [write] takes: a [str] or a [bytes]. *)
Inductive buffer :=
| Str (s : str)
| Bytes (b : list byte).

Definition len (b : buffer) : Z :=
  match b with
  | Str s => Z.of_nat (length s)
  | Bytes b => Z.of_nat (length b)
  end.

(** Truth value of a [str] or [bytes]: it is not empty. *)
Definition truthy (b : buffer) : bool :=
  match b with
  | Str s => negb (is_nil s)
  | Bytes b => negb (is_nil b)
  end.

(** [open(path, "rb" if binary else "r")].  In text mode the encoding is
    UTF-8 in both uses: [is_binary] asks for it and [copy_file] takes the
    one of the locale. *)
Definition open_read (path : string) (binary : bool) : M reader :=
  fs <- gets st_fs ;;
  k <- lift (open_for_read fs path) ;;
  ret (if binary then BufferedReader k 0 else TextReader k text_open).

(** [open(path, "wb" if binary else "w")]. *)
Definition open_write (path : string) (binary : bool) : M writer :=
  fs <- gets st_fs ;;
  r <- lift (open_for_write fs path) ;;
  modify (set_fs (snd r)) ;;
  ret (if binary then BufferedWriter (fst r) else TextWriter (fst r)).

(** The sizes that fit the [Py_ssize_t] of the host, 64 bits wide. *)
Definition fits_ssize_t (n : Z) : bool :=
  (- 2 ^ 63 <=? n)%Z && (n <? 2 ^ 63)%Z.

(** [f.read(size)], on the bytes the file has at the time of the call.  A
    size that does not fit the host's index type is refused.  Both layers
    get a buffer for a size that is large before they read, and the host
    may refuse it with [MemoryError]; that is not modelled, and the
    properties in which a read has to succeed keep the size [modest]. *)
Definition read (f : reader) (size : Z) : M (buffer * reader) :=
  if fits_ssize_t size then
    fs <- gets st_fs ;;
    match f with
    | BufferedReader k pos =>
        r <- lift (bytes_read (content_of fs k) size pos) ;;
        ret (Bytes (fst r), BufferedReader k (snd r))
    | TextReader k t =>
        match text_read (content_of fs k) size t with
        | None => out_of_fuel
        | Some r =>
            r <- lift r ;;
            ret (Str (fst r), TextReader k (snd r))
        end
    end
  else raise (OverflowError "cannot fit 'int' into an index-sized integer").

Definition os_linesep : str := [LF].

(** The text layer writes [os.linesep] for each line feed when the two
    differ. *)
Definition write_translate (s : str) : str :=
  if bool_decide (os_linesep = [LF]) then s
  else flat_map (fun c => if char_eqb c LF then os_linesep else [c]) s.

Definition write_bytes (k : string) (bs : list byte) : M unit :=
  fs <- gets st_fs ;;
  modify (set_fs (append_to fs k bs)) ;;
  emit (FileWrite k bs).

(** [f.write(buffer)]. *)
Definition write (f : writer) (b : buffer) : M unit :=
  match f, b with
  | BufferedWriter k, Bytes bs => write_bytes k bs
  | TextWriter k, Str s => write_bytes k (encode_utf8 (write_translate s))
  | BufferedWriter _, Str _ =>
      raise (TypeError "a bytes-like object is required, not 'str'")
  | TextWriter _, Bytes _ =>
      raise (TypeError "write() argument must be str, not bytes")
  end.

Definition set_bar (b : option tqdm) : M unit :=
  modify (fun s => set_self (with_bar b (st_self s)) s).

(** [tqdm(total=..., unit="B", unit_scale=True, desc=...)]. *)
Definition tqdm_new (total : Z) (desc : string) : M tqdm :=
  emit (BarOpen total desc) ;;
  ret {| bar_total := total; bar_n := 0; bar_desc := desc |}.

Definition no_attribute {A} (name : string) : M A :=
  raise (AttributeError
           ("'NoneType' object has no attribute '" +:+ name +:+ "'")).

(** [self._bar.update(k)]. *)
Definition bar_update (k : Z) : M unit :=
  self <- gets st_self ;;
  match _bar self with
  | None => no_attribute "update"
  | Some b =>
      set_bar (Some {| bar_total := bar_total b; bar_n := (bar_n b + k)%Z;
                       bar_desc := bar_desc b |}) ;;
      emit (BarUpdate k)
  end.

(** [self._bar.set_description(desc)]. *)
Definition bar_set_description (desc : string) : M unit :=
  self <- gets st_self ;;
  match _bar self with
  | None => no_attribute "set_description"
  | Some b =>
      set_bar (Some {| bar_total := bar_total b; bar_n := bar_n b;
                       bar_desc := desc |}) ;;
      emit (BarDescribe desc)
  end.

Definition os_path_islink (p : string) : M bool :=
  gets (fun s => islink (st_fs s) p).

Definition os_path_isdir (p : string) : M bool :=
  gets (fun s => isdir (st_fs s) p).

Definition os_path_isfile (p : string) : M bool :=
  gets (fun s => isfile (st_fs s) p).

Definition os_mkdir (p : string) : M unit :=
  fs <- gets st_fs ;;
  fs' <- lift (mkdir fs p) ;;
  modify (set_fs fs').

Definition os_scandir (p : string) : M (list DirEntry) :=
  fs <- gets st_fs ;; lift (scandir fs p).

Definition is_FileExistsError (e : exn) : bool :=
  match e with OSError EEXIST _ => true | _ => false end.

(** [os.makedirs(name, exist_ok=True)]: the directories above [name] that
    are missing, then [name]; an error of [os.mkdir] is let through unless
    [name] is a directory by then.  Each call inside is on a shorter path,
    so [fuel], the length of the path, is never used up. *)
Fixpoint makedirs (fuel : nat) (name : string) : M unit :=
  let ht := os_path_split name in
  let ht := if String.eqb (snd ht) "" then os_path_split (fst ht) else ht in
  let head := fst ht in
  let tail := snd ht in
  let mkdir_name :=
    try_except (os_mkdir name) is_OSError
      (fun e =>
         d <- os_path_isdir name ;;
         if d : bool then ret tt else raise e) in
  if negb (String.eqb head "") && negb (String.eqb tail "") then
    found <- os_path_exists head ;;
    if found : bool then mkdir_name
    else
      match fuel with
      | O => out_of_fuel
      | S fuel' =>
          try_except (makedirs fuel' head) is_FileExistsError
            (fun _ => ret tt) ;;
          if String.eqb tail "." then ret tt else mkdir_name
      end
  else mkdir_name.

Definition os_makedirs (name : string) : M unit :=
  makedirs (String.length name) name.

(** A [for] statement over a list that is there when it starts. *)
Fixpoint for_each {A} (items : list A) (body : A -> M unit) : M unit :=
  match items with
  | [] => ret tt
  | item :: items' => body item ;; for_each items' body
  end.

(** ** The program *)

(** The texts of the f-strings. *)
Definition NL : string := String (ascii_of_nat 10) "".

Definition success_linking (src dest : string) : string :=
  "Success linking " +:+ src +:+ " to " +:+ dest +:+ NL.

Definition failed_to_link (src dest : string) : string :=
  "Failed to link " +:+ src +:+ " to " +:+ dest +:+ NL.

Definition duplicate_file_found (dest : string) : string :=
  "Duplicate file found at " +:+ dest
  +:+ " - Overwrite (O), Skip (S), Exit (E)?".

Definition success_copying (src dest : string) : string :=
  "Success copying " +:+ src +:+ " to " +:+ dest +:+ NL.

Definition error_copying (src dest : string) (e : exn) : string :=
  "Error copying " +:+ src +:+ " to " +:+ dest +:+ ": " +:+ exn_str e
  +:+ NL.

(** [is_binary], lines 22-40. *)
Definition is_binary (file_path : string) : M bool :=
  try_except
    (fp <- open_read file_path false ;;
     _ <- read fp 16 ;;
     ret false)
    is_UnicodeDecodeError
    (fun _ => ret true).

(** [Worker.init_bar], lines 53-61. *)
Definition init_bar : M unit :=
  self <- gets st_self ;;
  match _curr_path self with
  | None => raise (TypeError "stat: path should be string, not NoneType")
  | Some curr_path =>
      file_size <- os_path_getsize curr_path ;;
      bar <- tqdm_new file_size (basename curr_path) ;;
      set_bar (Some bar)
  end.

(** [Worker.close_bar], lines 63-69. *)
Definition close_bar : M unit :=
  self <- gets st_self ;;
  match _bar self with
  | Some bar =>
      if tqdm_bool bar then emit BarClose ;; set_bar None else ret tt
  | None => ret tt
  end.

(** [Worker.link_file], lines 71-85. *)
Definition link_file (src dest : string) : M unit :=
  try_except
    (os_symlink src dest ;;
     logger_error (success_linking src dest))
    is_OSError
    (fun _ => logger_error (failed_to_link src dest)).

(** How the loop over the answers is left: [break] or [return]. *)
Inductive loop_exit := Break | Return.

(** The [while True] of [copy_file], lines 98-110.  Every round takes a
    line of the input or ends in [EOFError], so [fuel], the number of
    lines there are, is never used up. *)
Fixpoint conflict_loop (fuel : nat) (dest : string) : M loop_exit :=
  print (duplicate_file_found dest) ;;
  resp <- input "> " ;;
  let resp := lower resp in
  if String.eqb resp "s" then ret Return
  else if String.eqb resp "e" then sys_exit 1
  else if String.eqb resp "o" then ret Break
  else
    match fuel with
    | O => out_of_fuel
    | S fuel' => conflict_loop fuel' dest
    end.

(** The [while buffer := src_file.read(self.chunk_size)] of [copy_file],
    lines 122-130.  The latency shown in the label comes from the wall
    clock and is left out of the label. *)
Fixpoint copy_loop (fuel : nat) (src_file : reader) (target_file : writer)
  : M unit :=
  match fuel with
  | O => out_of_fuel
  | S fuel' =>
      self <- gets st_self ;;
      r <- read src_file (chunk_size self) ;;
      let '(buffer, src_file) := r in
      if truthy buffer then
        write target_file buffer ;;
        bar_update (len buffer) ;;
        bar_set_description
          (match _curr_path self with
           | Some p => basename p
           | None => ""
           end) ;;
        copy_loop fuel' src_file target_file
      else ret tt
  end.

(** [Worker.copy_file], lines 87-136.  [fuel] bounds the rounds of the
    copy loop. *)
Definition copy_file (fuel : nat) (src dest : string) : M unit :=
  found <- os_path_exists dest ;;
  how <- (if found : bool then
            lines <- gets st_stdin ;;
            conflict_loop (length lines) dest
          else ret Break) ;;
  match how with
  | Return => ret tt
  | Break =>
      modify (fun s => set_self (with_curr_path src (st_self s)) s) ;;
      init_bar ;;
      check_is_binary <- is_binary src ;;
      try_except
        (src_file <- open_read src check_is_binary ;;
         target_file <- open_write dest check_is_binary ;;
         copy_loop fuel src_file target_file ;;
         close_bar ;;
         logger_info (success_copying src dest))
        is_Exception
        (fun e =>
           close_bar ;;
           logger_error (error_copying src dest e))
  end.

(** The destination of a single link or file, lines 149-150 and 155-156:
    inside [dest_path] when that is a directory. *)
Definition into_directory (src_path dest_path : string) : M string :=
  d <- os_path_isdir dest_path ;;
  ret (if d : bool then os_path_join dest_path (basename src_path)
       else dest_path).

(** [Worker.run], lines 138-173.  [depth] bounds the calls of [run] inside
    one another, [fuel] the rounds of each copy loop. *)
Fixpoint run (depth fuel : nat) (src_path dest_path : string) : M unit :=
  match depth with
  | O => out_of_fuel
  | S depth' =>
      link <- os_path_islink src_path ;;
      if link : bool then
        dest_path <- into_directory src_path dest_path ;;
        link_file src_path dest_path
      else
        file <- os_path_isfile src_path ;;
        if file : bool then
          dest_path <- into_directory src_path dest_path ;;
          copy_file fuel src_path dest_path
        else
          items <- os_scandir src_path ;;
          for_each items
            (fun item =>
               let src := entry_path item in
               let target := os_path_join dest_path (entry_name item) in
               if is_symlink item then link_file src target
               else
                 f <- gets (fun s => is_file (st_fs s) item) ;;
                 if f : bool then copy_file fuel src target
                 else
                   d <- gets (fun s => is_dir (st_fs s) item) ;;
                   if d : bool then
                     os_makedirs target ;;
                     run depth' fuel src target
                   else ret tt)
  end.

(** What [parser.parse_args()] returns. *)
Record Namespace := {
  args_chunk_size : Z;
  args_max_latency : Z;
  args_priority : string;
  args_source : string;
  args_destination : string
}.

Definition starting_file_copy (source destination : string) : string :=
  "Starting file copy from " +:+ source +:+ " to " +:+ destination.

(** None of the exceptions of the model is a [KeyboardInterrupt]: the
    model has no signals. *)
Definition is_KeyboardInterrupt (e : exn) : bool := false.

(** [main], lines 206-219, from the parsed arguments on. *)
Definition main (depth fuel : nat) (args : Namespace) : M unit :=
  (if String.eqb (snd (os_path_splitext (basename (args_destination args))))
        ""
   then
     d <- os_path_isdir (args_destination args) ;;
     if d : bool then ret tt else os_mkdir (args_destination args)
   else ret tt) ;;
  logger_info
    (starting_file_copy (args_source args) (args_destination args)) ;;
  modify (set_self (Worker_init (args_chunk_size args))) ;;
  try_except
    (run depth fuel (args_source args) (args_destination args))
    is_KeyboardInterrupt
    (fun _ => logger_info "Keyboard interrupt received") ;;
  logger_info "File copy operation finished".

(** The exit status of the interpreter when a run ends this way: no
    handler between [copy_file] and the top level takes [SystemExit], whose
    code becomes the status; any other exception left ends the run with
    status 1. *)
Definition exit_status {A} (r : res A) : Z :=
  match r with
  | Ret _ => 0
  | Raise (SystemExit code) => code
  | Raise _ => 1
  end.

(** A state at the start of a run. *)
Definition init_state (fs : filesystem) (lines : list string) (cs : Z)
  : state :=
  {| st_fs := fs; st_stdin := lines; st_trace := [];
     st_self := Worker_init cs |}.

(** * The vocabulary of the properties *)

(** ** File systems of the examples *)

(** The tree of the running example: a file, an empty directory and a link
    inside [A], next to an empty [dest]. *)
Definition tree_A : filesystem :=
  <["A" := Dir]>
    (<["A/a.txt" := File true true (bytes_of "hello")]>
       (<["A/B" := Dir]>
          (<["A/c" := Symlink "/tmp/target"]>
             (<["dest" := Dir]> ∅)))).

(** A binary source next to a destination that is there already. *)
Definition two_files : filesystem :=
  <["src.bin" := File true true [xff; x00; x01; xfe]]>
    (<["dest.bin" := File true true (bytes_of "old")]> ∅).

(** A source the user may not read. *)
Definition locked : filesystem :=
  <["secret.txt" := File false true (bytes_of "data")]> ∅.

(** An empty source. *)
Definition with_empty : filesystem :=
  <["empty.txt" := File true true []]> ∅.

(** Eight times the two bytes of U+00E9, then a byte no sequence starts
    with: 17 bytes, 8 characters and an error before the 16th. *)
Definition eight_then_ff : list byte :=
  concat (repeat [xc3; xa9] 8) ++ [xff].

(** Fifteen letters and U+00E9: the 16th byte is the first half of the
    last character. *)
Definition fifteen_then_e : list byte :=
  bytes_of "aaaaaaaaaaaaaaa" ++ [xc3; xa9].

Definition probes : filesystem :=
  <["f.bin" := File true true eight_then_ff]>
    (<["g.txt" := File true true fifteen_then_e]> ∅).

(** A text of three bytes with a bare carriage return. *)
Definition with_cr : filesystem :=
  <["src.txt" := File true true [x61; x0d; x62]]> ∅.

(** The ten digits. *)
Definition digits : filesystem :=
  <["src.txt" := File true true (bytes_of "0123456789")]> ∅.

(** Four times the two bytes of U+00E9: eight bytes, four characters. *)
Definition accents : filesystem :=
  <["src.txt" := File true true (concat (repeat [xc3; xa9] 4))]> ∅.

(** ** The prompt *)

(** An answer the loop acts on. *)
Definition recognised (resp : string) : bool :=
  let r := lower resp in
  String.eqb r "s" || String.eqb r "e" || String.eqb r "o".

(** The two events of one round of the prompt, and of [k] rounds. *)
Definition prompt_round (dest : string) : list event :=
  [Print (duplicate_file_found dest); Input "> "].

Fixpoint prompt_rounds (k : nat) (dest : string) : list event :=
  match k with
  | O => []
  | S k' => prompt_round dest ++ prompt_rounds k' dest
  end.

(** The state after [k] rounds of the prompt that left [rest] unread. *)
Definition prompted (k : nat) (dest : string) (rest : list string)
    (s : state) : state :=
  {| st_fs := st_fs s; st_stdin := rest;
     st_trace := st_trace s ++ prompt_rounds k dest;
     st_self := st_self s |}.

(** What the loop makes of the first answer it acts on. *)
Definition answer (r : string) : res loop_exit :=
  if String.eqb (lower r) "s" then Ret Return
  else if String.eqb (lower r) "e" then Raise (SystemExit 1)
  else Ret Break.

(** The prompt lets the copy go on: the destination is not there, or the
    answer is ["o"]. *)
Inductive proceeds (dest : string) (s : state) : state -> Prop :=
| proceeds_free :
    exists_ (st_fs s) dest = false -> proceeds dest s s
| proceeds_overwrite junk r rest :
    exists_ (st_fs s) dest = true ->
    st_stdin s = junk ++ r :: rest ->
    Forall (fun l => recognised l = false) junk ->
    lower r = "o" ->
    proceeds dest s (prompted (S (length junk)) dest rest s).

(** ** What a computation adds to the trace and what it raises *)

(** Whatever [m] does, the trace grows at its end, by events in [P]. *)
Definition emits (P : event -> Prop) {A} (m : M A) : Prop :=
  forall s r s',
    m s = Some (r, s') ->
    exists evs, st_trace s' = st_trace s ++ evs /\ Forall P evs.

(** An event of the conflict prompt, and one that is not. *)
Definition is_prompt (e : event) : bool :=
  match e with Print _ | Input _ => true | _ => false end.

Definition quiet (e : event) : Prop := is_prompt e = false.

(** Whatever [m] raises is in [Q]. *)
Definition raises (Q : exn -> Prop) {A} (m : M A) : Prop :=
  forall s e s', m s = Some (Raise e, s') -> Q e.

(** An exception that [except Exception] takes. *)
Definition ordinary (e : exn) : Prop := is_Exception e = true.

(** The bar's count after the events, from [k]. *)
Fixpoint progress (k : Z) (evs : list event) : Z :=
  match evs with
  | [] => k
  | BarUpdate d :: evs' => progress (k + d) evs'
  | _ :: evs' => progress k evs'
  end.

(** ** The parts of [copy_file] *)

(** The [try] statement, lines 116-136, for a source found binary or
    not. *)
Definition copy_file_try (fuel : nat) (src dest : string)
    (check_is_binary : bool) : M unit :=
  try_except
    (src_file <- open_read src check_is_binary ;;
     target_file <- open_write dest check_is_binary ;;
     copy_loop fuel src_file target_file ;;
     close_bar ;;
     logger_info (success_copying src dest))
    is_Exception
    (fun e =>
       close_bar ;;
       logger_error (error_copying src dest e)).

(** What comes after the prompt, lines 112-136. *)
Definition copy_file_body (fuel : nat) (src dest : string) : M unit :=
  modify (fun s => set_self (with_curr_path src (st_self s)) s) ;;
  init_bar ;;
  check_is_binary <- is_binary src ;;
  copy_file_try fuel src dest check_is_binary.

(** The state with a new bar for the file [p] of size [z]. *)
Definition with_new_bar (z : Z) (p : string) (s : state) : state :=
  set_self
    (with_bar (Some {| bar_total := z; bar_n := 0; bar_desc := basename p |})
       (st_self s))
    (add_event (BarOpen z (basename p)) s).

(** The state after [close_bar] on the bar [bar]. *)
Definition with_closed_bar (bar : tqdm) (s : state) : state :=
  if tqdm_bool bar
  then set_self (with_bar None (st_self s)) (add_event BarClose s)
  else s.

(** After [close_bar] there is no bar, or one whose total is zero. *)
Definition bar_put_away (s : state) : Prop :=
  match _bar (st_self s) with
  | None => True
  | Some bar => tqdm_bool bar = false
  end.

(** The state after one round of the loop: [bytes] written to [kd], the
    bar moved by [units] and labelled [desc]. *)
Definition after_round (kd : string) (bytes : list byte) (units : Z)
    (desc : string) (bar : tqdm) (s : state) : state :=
  {| st_fs := append_to (st_fs s) kd bytes;
     st_stdin := st_stdin s;
     st_trace :=
       st_trace s ++ [FileWrite kd bytes; BarUpdate units; BarDescribe desc];
     st_self :=
       with_bar (Some {| bar_total := bar_total bar;
                         bar_n := (bar_n bar + units)%Z;
                         bar_desc := desc |}) (st_self s) |}.

(** The events of a copy of the units [R] in chunks of at most [n]: for
    each chunk, not empty, its bytes written, the bar moved by its length
    and labelled. *)
Inductive rounds {U} (enc : list U -> list byte) (n : nat)
    (name desc : string) : list U -> list event -> Prop :=
| rounds_done : rounds enc n name desc [] []
| rounds_more chunk rest evs :
    chunk <> [] ->
    (length chunk <= n)%nat ->
    rounds enc n name desc rest evs ->
    rounds enc n name desc (chunk ++ rest)
      (FileWrite name (enc chunk)
       :: BarUpdate (Z.of_nat (length chunk))
       :: BarDescribe desc :: evs).

(** What the text layer writes for a [str]: its UTF-8 bytes. *)
Definition text_bytes (s : str) : list byte :=
  encode_utf8 (write_translate s).

(** ** The states of the decoder and of the text layer *)

(** [held a b]: scanning [b] after [a] finishes no sequence and meets no
    error, so [a ++ b] is the sequence under way afterwards. *)
Definition held (a b : list byte) : Prop :=
  forall y, utf8_scan a (b ++ y) = utf8_scan (a ++ b) y.

(** The characters the decoder is still to give for the rest of the
    file, and the text [read] is still to return. *)
Definition rest_chars (data : list byte) (f : TextIOWrapper) : str :=
  match utf8_scan (t_pending f) (drop (t_pos f) data) with
  | Some (cs, _) => cs
  | None => []
  end.

Definition rest_text (data : list byte) (f : TextIOWrapper) : str :=
  t_decoded f
  ++ fst (newline_decode (t_pendingcr f) (rest_chars data f) true).

(** The state of a text layer that will meet no decoding error. *)
Definition sound (data : list byte) (f : TextIOWrapper) : Prop :=
  held [] (t_pending f)
  /\ exists cs, utf8_scan (t_pending f) (drop (t_pos f) data) = Some (cs, []).

(** The state of a text layer that met no decoding error so far: the
    bytes taken decode, up to the sequence under way. *)
Definition consumed (c : list byte) (f : TextIOWrapper) : Prop :=
  held [] (t_pending f)
  /\ (t_pos f <= length c)%nat
  /\ exists cs, utf8_scan [] (take (t_pos f) c) = Some (cs, t_pending f).

(** The first [size] elements, all of them for a negative [size], and
    what is left. *)
Definition take_z {A} (size : Z) (l : list A) : list A :=
  if (size <? 0)%Z then l else take (Z.to_nat size) l.

Definition drop_z {A} (size : Z) (l : list A) : list A :=
  if (size <? 0)%Z then [] else drop (Z.to_nat size) l.

(** Reading 16 characters from the start of a file with bytes [data]
    meets a decoding error. *)
Definition decoding_fails (data : list byte) : bool :=
  match text_read data 16 text_open with
  | Some (Raise _) => true
  | _ => false
  end.

(** A reader of bytes at offset [pos] of the file [ks] has the bytes from
    there on before it. *)
Definition bytes_left (ks : string) (c : list byte) (rd : reader)
    (R : list byte) : Prop :=
  exists pos, rd = BufferedReader ks pos /\ R = drop pos c.

(** A reader of text on the file [ks], well-formed, has the text to come
    before it. *)
Definition text_left (ks : string) (c : list byte) (rd : reader)
    (R : str) : Prop :=
  exists f, rd = TextReader ks f /\ sound c f /\ rest_text c f = R.

(** ** File systems before and after *)

(** Whatever [m] does, it takes the file system to one that [R] relates
    to it. *)
Definition changes_by (R : filesystem -> filesystem -> Prop) {A} (m : M A)
  : Prop :=
  forall s r s', m s = Some (r, s') -> R (st_fs s) (st_fs s').

(** Every path of [fs] is there in [fs'] with the same kind: a directory
    and a link as they are, a regular file with its permission bits. *)
Definition kept (fs fs' : filesystem) : Prop :=
  forall k nd,
    fs !! k = Some nd ->
    match nd with
    | File r w _ => exists c, fs' !! k = Some (File r w c)
    | _ => fs' !! k = Some nd
    end.

(** The two file systems agree outside [K]. *)
Definition only_at (K : string -> Prop) (fs fs' : filesystem) : Prop :=
  forall k, ~ K k -> fs' !! k = fs !! k.

(** ** More examples *)

(** Sixteen letters and the first byte of a two-byte sequence: the probe
    gets its 16 characters, and the end of the file finds the sequence
    unfinished. *)
Definition sixteen_then_half : list byte :=
  bytes_of "aaaaaaaaaaaaaaaa" ++ [xc3].

Definition cut_short : filesystem :=
  <["t.txt" := File true true sixteen_then_half]> ∅.

(** The tree of the running example next to a file with no extension. *)
Definition with_notes : filesystem :=
  <["notes" := File true true (bytes_of "old")]> tree_A.

(** The arguments of a run with the default options. *)
Definition arguments (source destination : string) : Namespace :=
  {| args_chunk_size := 4096; args_max_latency := 100;
     args_priority := "latency"; args_source := source;
     args_destination := destination |}.

(** ** The entry point *)

(** The state when [main] calls [run]: the start of the copy is in the
    log and the worker is new. *)
Definition started (args : Namespace) (s : state) : state :=
  set_self (Worker_init (args_chunk_size args))
    (add_event
       (Log INFO
          (starting_file_copy (args_source args) (args_destination args)))
       s).

(** ** Paths that the model names as the host does *)

(** The components of a path: the texts between its slashes. *)
Fixpoint components (p : string) : list string :=
  match p with
  | EmptyString => [EmptyString]
  | String c p' =>
      if Ascii.eqb c "/" then EmptyString :: components p'
      else
        match components p' with
        | x :: xs => String c x :: xs
        | [] => [String c EmptyString]
        end
  end.

(** The components [cs] below the directory written [above]: each is a
    name, and each but the last is a directory of the file system, there
    as such and not behind a link. *)
Fixpoint plain_from (fs : filesystem) (above : string) (cs : list string)
  : bool :=
  match cs with
  | [] => true
  | c :: cs' =>
      listed c
      && match cs' with
         | [] => true
         | _ :: _ =>
             match fs !! (above +:+ c) with
             | Some Dir => plain_from fs (above +:+ c +:+ "/") cs'
             | _ => false
             end
         end
  end.

(** A path written plainly: from the working directory, with no empty
    component, no ["."] and no [".."], and through directories that are
    there as directories.  The file system of the model keeps a file
    under the path it was given and gives every file one name; for a
    plain path that is also the file the host finds, and two plain paths
    that differ are two files, on a host that tells names apart byte by
    byte and where no file has a second name by a hard link. *)
Definition plain (fs : filesystem) (p : string) : bool :=
  plain_from fs "" (components p).

(** ** How much a copy has before it *)

Definition reader_name (rd : reader) : string :=
  match rd with TextReader k _ | BufferedReader k _ => k end.

Definition writer_name (wr : writer) : string :=
  match wr with TextWriter k | BufferedWriter k => k end.

(** What is left of a file of bytes [c] for a text layer: the characters
    decoded and not returned, the bytes not taken, those of a sequence
    under way and a carriage return held back. *)
Definition text_left_to_read (c : list byte) (f : TextIOWrapper) : nat :=
  length (t_decoded f) + (length c - t_pos f) + length (t_pending f)
  + (if t_pendingcr f then 1 else 0).

Definition left_to_read (c : list byte) (rd : reader) : nat :=
  match rd with
  | BufferedReader _ pos => length c - pos
  | TextReader _ f => text_left_to_read c f
  end.

(** The size of the file the source leads to, when it can be read. *)
Definition source_size (fs : filesystem) (src : string) : nat :=
  match open_for_read fs src with
  | Ret ks => length (content_of fs ks)
  | Raise _ => 0
  end.

(** A chunk size the host gives a buffer for without question: up to
    1 MiB.  The byte layer gets its buffer of [size] bytes before it
    reads. *)
Definition modest (size : Z) : Prop := (0 < size <= 2 ^ 20)%Z.

(** ** A computation that ends *)

(** [m] ends from [s], with a result and a state in [Q]. *)
Definition ends_in {A} (m : M A) (s : state)
    (Q : res A -> state -> Prop) : Prop :=
  exists r s', m s = Some (r, s') /\ Q r s'.

(** The file system is as it was in [s]. *)
Definition same_files {A} (s : state) : res A -> state -> Prop :=
  fun _ s' => st_fs s' = st_fs s.

(** * Properties *)

(** ** Symbolic links *)

Lemma symlink_raises_OSError fs src dst e :
  symlink fs src dst = Raise e -> is_OSError e = true.
Proof.
  unfold symlink. destruct (fs !! dst).
  - intros [= <-]. reflexivity.
  - destruct (parent_is_dir fs dst); [discriminate|].
    intros [= <-]. reflexivity.
Qed.

(** What a call of [link_file] does, by the outcome of [os.symlink]. *)
Lemma link_file_run s src dest :
  link_file src dest s =
  Some (Ret tt,
        match symlink (st_fs s) src dest with
        | Ret fs' =>
            add_event (Log ERROR (success_linking src dest)) (set_fs fs' s)
        | Raise _ => add_event (Log ERROR (failed_to_link src dest)) s
        end).
Proof.
  unfold link_file, try_except, os_symlink, bind, gets, lift, modify,
    logger_error, emit.
  destruct (symlink (st_fs s) src dest) as [fs'|e] eqn:E; [reflexivity|].
  rewrite (symlink_raises_OSError _ _ _ _ E). reflexivity.
Qed.

(** C1, as the code has it: when [link_file] reports success, the
    destination is a symbolic link and the string it stores is the source
    path handed to [link_file], whatever the source link itself stores. *)
Theorem link_file_stores_source_path s src dest s' :
  link_file src dest s = Some (Ret tt, s') ->
  last (st_trace s') = Some (Log ERROR (success_linking src dest)) ->
  islink (st_fs s') dest = true /\ readlink (st_fs s') dest = Ret src.
Proof.
  rewrite link_file_run. intros [= <-].
  unfold symlink.
  destruct (st_fs s !! dest) eqn:Hd; simpl.
  - rewrite last_snoc. intros H. discriminate H.
  - destruct (parent_is_dir (st_fs s) dest); simpl.
    + intros _. unfold islink, readlink. now rewrite lookup_insert_eq.
    + rewrite last_snoc. intros H. discriminate H.
Qed.

Lemma link_file_stores_source_path_witness :
  exists s',
    link_file "A/c" "dest/c" (init_state tree_A [] 4096) = Some (Ret tt, s')
    /\ islink (st_fs s') "dest/c" = true
    /\ readlink (st_fs s') "dest/c" = Ret "A/c".
Proof.
  eexists. split; [vm_compute; reflexivity|].
  apply (link_file_stores_source_path (init_state tree_A [] 4096));
    vm_compute; reflexivity.
Defined.

(** C1 fails as stated: the link [A/c] stores ["/tmp/target"], and the link
    made for it at [dest/c] stores ["A/c"]. *)
Lemma link_file_target_counterexample :
  let s := init_state tree_A [] 4096 in
  islink (st_fs s) "A/c" = true /\
  exists s',
    link_file "A/c" "dest/c" s = Some (Ret tt, s')
    /\ last (st_trace s') = Some (Log ERROR (success_linking "A/c" "dest/c"))
    /\ readlink (st_fs s) "A/c" = Ret "/tmp/target"
    /\ readlink (st_fs s') "dest/c" = Ret "A/c"
    /\ readlink (st_fs s') "dest/c" <> readlink (st_fs s) "A/c".
Proof.
  split; [reflexivity|]. eexists.
  split; [vm_compute; reflexivity|].
  repeat split; try (vm_compute; reflexivity).
  vm_compute. discriminate.
Qed.

(** C10: [link_file] writes one log record, at level ERROR, and it is the
    success message when [os.symlink] made the link and the failure message
    when it raised. *)
Theorem link_file_logs_at_error_level s src dest :
  exists s',
    link_file src dest s = Some (Ret tt, s')
    /\ st_trace s' =
       st_trace s ++
       [Log ERROR
          (match symlink (st_fs s) src dest with
           | Ret _ => success_linking src dest
           | Raise _ => failed_to_link src dest
           end)].
Proof.
  rewrite link_file_run. eexists. split; [reflexivity|].
  destruct (symlink (st_fs s) src dest); reflexivity.
Qed.

Example link_file_success_is_logged_as_error :
  option_map (fun r => st_trace (snd r))
    (link_file "A/c" "dest/c" (init_state tree_A [] 4096))
  = Some [Log ERROR (success_linking "A/c" "dest/c")].
Proof. vm_compute. reflexivity. Qed.

(** ** The conflict prompt *)

(** One round of the loop, on the line [l]. *)
Lemma conflict_loop_round fuel dest s l rest :
  st_stdin s = l :: rest ->
  conflict_loop fuel dest s =
  let s1 := set_stdin rest
              (add_event (Input "> ")
                 (add_event (Print (duplicate_file_found dest)) s)) in
  if String.eqb (lower l) "s" then Some (Ret Return, s1)
  else if String.eqb (lower l) "e" then Some (Raise (SystemExit 1), s1)
  else if String.eqb (lower l) "o" then Some (Ret Break, s1)
  else match fuel with
       | O => None
       | S fuel' => conflict_loop fuel' dest s1
       end.
Proof.
  intros Hin.
  destruct fuel; simpl;
    unfold bind, print, input, emit, modify, gets, bind; simpl;
    rewrite Hin; simpl;
    destruct (String.eqb (lower l) "s"); try reflexivity;
    destruct (String.eqb (lower l) "e"); try reflexivity;
    destruct (String.eqb (lower l) "o"); reflexivity.
Qed.

Lemma unrecognised_inv l :
  recognised l = false ->
  String.eqb (lower l) "s" = false /\ String.eqb (lower l) "e" = false
  /\ String.eqb (lower l) "o" = false.
Proof.
  unfold recognised. cbv zeta.
  destruct (String.eqb (lower l) "s"), (String.eqb (lower l) "e"),
    (String.eqb (lower l) "o"); simpl; intros; try discriminate; auto.
Qed.

(** Answers the loop does not act on are asked again, one round each. *)
Lemma conflict_loop_junk junk : forall fuel dest s rest,
  Forall (fun l => recognised l = false) junk ->
  st_stdin s = junk ++ rest ->
  conflict_loop (length junk + fuel) dest s =
  conflict_loop fuel dest
    {| st_fs := st_fs s; st_stdin := rest;
       st_trace := st_trace s ++ prompt_rounds (length junk) dest;
       st_self := st_self s |}.
Proof.
  induction junk as [|l junk IH]; intros fuel dest s rest Hj Hin.
  - simpl in *. rewrite app_nil_r. destruct s; simpl in *. now subst.
  - inversion Hj as [|? ? Hl Hj']; subst.
    destruct (unrecognised_inv _ Hl) as (Hs & He & Ho).
    rewrite (conflict_loop_round _ dest s l (junk ++ rest) Hin).
    cbv zeta. rewrite Hs, He, Ho. cbn [length Nat.add].
    erewrite (IH fuel dest _ rest Hj') by reflexivity.
    f_equal. unfold set_stdin, add_event; simpl.
    now rewrite <- !app_assoc.
Qed.

Lemma prompt_rounds_snoc k dest :
  prompt_rounds k dest ++ prompt_round dest = prompt_rounds (S k) dest.
Proof.
  induction k as [|k IH]; [reflexivity|].
  change (prompt_rounds (S k) dest)
    with (prompt_round dest ++ prompt_rounds k dest) at 1.
  rewrite <- app_assoc, IH. reflexivity.
Qed.

(** The loop ends at the first answer it acts on, after one round for each
    line up to it, and touches nothing but the input and the console. *)
Lemma conflict_loop_answer dest s junk r rest :
  Forall (fun l => recognised l = false) junk ->
  recognised r = true ->
  st_stdin s = junk ++ r :: rest ->
  conflict_loop (length (st_stdin s)) dest s =
  Some (answer r, prompted (S (length junk)) dest rest s).
Proof.
  intros Hj Hr Hin.
  rewrite Hin at 1. rewrite length_app.
  rewrite (conflict_loop_junk junk _ dest s (r :: rest) Hj Hin).
  erewrite conflict_loop_round by reflexivity.
  cbv zeta. unfold answer, prompted.
  rewrite <- prompt_rounds_snoc. unfold prompt_round, set_stdin, add_event.
  cbn [st_fs st_stdin st_trace st_self].
  rewrite <- !app_assoc. cbn [app].
  unfold recognised in Hr. cbv zeta in Hr.
  destruct (String.eqb (lower r) "s"); [reflexivity|].
  destruct (String.eqb (lower r) "e"); [reflexivity|].
  destruct (String.eqb (lower r) "o"); [reflexivity|discriminate].
Qed.

(** C5: [copy_file] onto a destination that exists, when the answer
    is ["e"] in either case: the call ends in [SystemExit(1)], which no
    [except Exception] takes and which makes the exit status 1, and the
    file system is as it was. *)
Theorem copy_file_exit fuel s src dest junk r rest :
  exists_ (st_fs s) dest = true ->
  st_stdin s = junk ++ r :: rest ->
  Forall (fun l => recognised l = false) junk ->
  lower r = "e" ->
  exists out s',
    copy_file fuel src dest s = Some (out, s')
    /\ out = Raise (SystemExit 1)
    /\ exit_status out = 1%Z
    /\ (forall e, out = Raise e -> is_Exception e = false)
    /\ st_fs s' = st_fs s
    /\ s' = prompted (S (length junk)) dest rest s.
Proof.
  intros Hex Hin Hj Hr.
  exists (Raise (SystemExit 1)), (prompted (S (length junk)) dest rest s).
  split.
  - unfold copy_file, bind, os_path_exists, gets. rewrite Hex.
    rewrite (conflict_loop_answer dest s junk r rest Hj); auto.
    + unfold answer. rewrite Hr. reflexivity.
    + unfold recognised. rewrite Hr. reflexivity.
  - repeat split; auto. intros e [= <-]. reflexivity.
Qed.

Lemma copy_file_exit_witness :
  exists out s',
    copy_file 10 "src.bin" "dest.bin" (init_state two_files ["x"; "E"] 4096)
    = Some (out, s')
    /\ exit_status out = 1%Z
    /\ content_of (st_fs s') "dest.bin" = bytes_of "old".
Proof.
  destruct (copy_file_exit 10 (init_state two_files ["x"; "E"] 4096)
              "src.bin" "dest.bin" ["x"] "E" [])
    as (out & s' & Hrun & _ & Hcode & _ & Hfs & _).
  - vm_compute. reflexivity.
  - reflexivity.
  - repeat constructor.
  - reflexivity.
  - exists out, s'. repeat split; auto. rewrite Hfs. reflexivity.
Defined.

(** C6: [copy_file] onto a destination that exists, when the answer
    is ["s"] in either case: the call returns at once, without an
    exception; nothing is written, nothing is logged, no bar is opened,
    and the file system is as it was. *)
Theorem copy_file_skip fuel s src dest junk r rest :
  exists_ (st_fs s) dest = true ->
  st_stdin s = junk ++ r :: rest ->
  Forall (fun l => recognised l = false) junk ->
  lower r = "s" ->
  exists s',
    copy_file fuel src dest s = Some (Ret tt, s')
    /\ st_fs s' = st_fs s
    /\ st_self s' = st_self s
    /\ st_trace s' = st_trace s ++ prompt_rounds (S (length junk)) dest.
Proof.
  intros Hex Hin Hj Hr.
  exists (prompted (S (length junk)) dest rest s). split.
  - unfold copy_file, bind, os_path_exists, gets. rewrite Hex.
    rewrite (conflict_loop_answer dest s junk r rest Hj); auto.
    + unfold answer. rewrite Hr. reflexivity.
    + unfold recognised. rewrite Hr. reflexivity.
  - repeat split.
Qed.

Lemma copy_file_skip_witness :
  exists s',
    copy_file 10 "src.bin" "dest.bin" (init_state two_files ["S"] 4096)
    = Some (Ret tt, s')
    /\ content_of (st_fs s') "dest.bin" = bytes_of "old".
Proof.
  destruct (copy_file_skip 10 (init_state two_files ["S"] 4096)
              "src.bin" "dest.bin" [] "S" [])
    as (s' & Hrun & Hfs & _).
  - vm_compute. reflexivity.
  - reflexivity.
  - constructor.
  - reflexivity.
  - exists s'. split; auto. rewrite Hfs. reflexivity.
Defined.

(** ** What a computation adds to the trace *)

Section Emits.
Variable P : event -> Prop.

Lemma emits_ret {A} (a : A) : emits P (ret a).
Proof.
  intros s r s' [= <- <-]. exists []. now rewrite app_nil_r.
Qed.

Lemma emits_raise {A} (e : exn) : emits P (@raise A e).
Proof.
  intros s r s' [= <- <-]. exists []. now rewrite app_nil_r.
Qed.

Lemma emits_out_of_fuel {A} : emits P (@out_of_fuel A).
Proof. intros s r s' [=]. Qed.

Lemma emits_gets {A} (f : state -> A) : emits P (gets f).
Proof.
  intros s r s' [= <- <-]. exists []. now rewrite app_nil_r.
Qed.

Lemma emits_lift {A} (x : res A) : emits P (lift x).
Proof.
  intros s r s' [= <- <-]. exists []. now rewrite app_nil_r.
Qed.

Lemma emits_modify (f : state -> state) :
  (forall s, st_trace (f s) = st_trace s) -> emits P (modify f).
Proof.
  intros Hf s r s' [= <- <-]. exists []. now rewrite app_nil_r, Hf.
Qed.

Lemma emits_emit (e : event) : P e -> emits P (emit e).
Proof.
  intros He s r s' [= <- <-]. exists [e]. split; [reflexivity|].
  now constructor.
Qed.

Lemma emits_bind {A B} (m : M A) (k : A -> M B) :
  emits P m -> (forall a, emits P (k a)) -> emits P (bind m k).
Proof.
  intros Hm Hk s r s'. unfold bind.
  destruct (m s) as [[[a|e] s1]|] eqn:E; [| |discriminate].
  - intros H. destruct (Hm _ _ _ E) as (e1 & T1 & F1).
    destruct (Hk a _ _ _ H) as (e2 & T2 & F2).
    exists (e1 ++ e2). split; [now rewrite T2, T1, app_assoc|].
    now apply Forall_app.
  - intros [= <- <-]. exact (Hm _ _ _ E).
Qed.

Lemma emits_try_except {A} (body : M A) class handler :
  emits P body -> (forall e, emits P (handler e)) ->
  emits P (try_except body class handler).
Proof.
  intros Hb Hh s r s'. unfold try_except.
  destruct (body s) as [[[a|e] s1]|] eqn:E; [| |discriminate].
  - intros [= <- <-]. exact (Hb _ _ _ E).
  - destruct (class e).
    + intros H. destruct (Hb _ _ _ E) as (e1 & T1 & F1).
      destruct (Hh e _ _ _ H) as (e2 & T2 & F2).
      exists (e1 ++ e2). split; [now rewrite T2, T1, app_assoc|].
      now apply Forall_app.
    + intros [= <- <-]. exact (Hb _ _ _ E).
Qed.
End Emits.

Create HintDb emits.
#[local] Hint Resolve emits_ret emits_raise emits_out_of_fuel emits_gets
  emits_lift emits_emit : emits.

(** Takes a computation apart along its binds and case distinctions. *)
Ltac emits_step :=
  match goal with
  | |- emits _ (bind _ _) => apply emits_bind; [|intros ?]
  | |- emits _ (try_except _ _ _) => apply emits_try_except; [|intros ?]
  | |- emits _ (modify _) => apply emits_modify; intros ?; reflexivity
  | |- emits _ (emit _) => apply emits_emit; reflexivity
  | |- emits _ (match ?x with _ => _ end) => destruct x
  | |- emits _ (if ?x then _ else _) => destruct x
  | |- emits _ (let '(_, _) := ?x in _) => destruct x
  | |- emits _ _ => solve [auto with emits]
  end.

Lemma emits_quiet_read f size : emits quiet (read f size).
Proof. unfold read. repeat emits_step. Qed.

Lemma emits_quiet_write f b : emits quiet (write f b).
Proof. unfold write, write_bytes. repeat emits_step. Qed.

Lemma emits_quiet_set_bar b : emits quiet (set_bar b).
Proof. unfold set_bar. emits_step. Qed.

#[local] Hint Resolve emits_quiet_read emits_quiet_write emits_quiet_set_bar
  : emits.

Lemma emits_quiet_bar_update k : emits quiet (bar_update k).
Proof. unfold bar_update, no_attribute. repeat emits_step. Qed.

Lemma emits_quiet_bar_set_description d :
  emits quiet (bar_set_description d).
Proof. unfold bar_set_description, no_attribute. repeat emits_step. Qed.

Lemma emits_quiet_close_bar : emits quiet close_bar.
Proof. unfold close_bar. repeat emits_step. Qed.

Lemma emits_quiet_init_bar : emits quiet init_bar.
Proof.
  unfold init_bar, os_path_getsize, tqdm_new. repeat emits_step.
Qed.

Lemma emits_quiet_open_read p b : emits quiet (open_read p b).
Proof. unfold open_read. repeat emits_step. Qed.

Lemma emits_quiet_open_write p b : emits quiet (open_write p b).
Proof. unfold open_write. repeat emits_step. Qed.

#[local] Hint Resolve emits_quiet_bar_update emits_quiet_bar_set_description
  emits_quiet_close_bar emits_quiet_init_bar emits_quiet_open_read
  emits_quiet_open_write : emits.

Lemma emits_quiet_is_binary p : emits quiet (is_binary p).
Proof. unfold is_binary. repeat emits_step. Qed.

Lemma emits_quiet_copy_loop fuel : forall src_file target_file,
  emits quiet (copy_loop fuel src_file target_file).
Proof.
  induction fuel as [|fuel IH]; intros src_file target_file; simpl;
    repeat emits_step.
Qed.

#[local] Hint Resolve emits_quiet_is_binary emits_quiet_copy_loop : emits.

Lemma copy_file_unfold fuel src dest :
  copy_file fuel src dest =
  (found <- os_path_exists dest ;;
   how <- (if found : bool then
             lines <- gets st_stdin ;;
             conflict_loop (length lines) dest
           else ret Break) ;;
   match how with
   | Return => ret tt
   | Break => copy_file_body fuel src dest
   end).
Proof. reflexivity. Qed.

Lemma emits_quiet_copy_file_body fuel src dest :
  emits quiet (copy_file_body fuel src dest).
Proof.
  unfold copy_file_body, copy_file_try, logger_info, logger_error.
  repeat emits_step.
Qed.

(** At the end of the input the round ends in [EOFError]. *)
Lemma conflict_loop_eof fuel dest s :
  st_stdin s = [] ->
  conflict_loop fuel dest s =
  Some (Raise EOFError,
        add_event (Input "> ")
          (add_event (Print (duplicate_file_found dest)) s)).
Proof.
  intros Hin.
  destruct fuel; simpl;
    unfold bind, print, input, emit, modify, gets, bind; simpl;
    rewrite Hin; reflexivity.
Qed.

(** The loop of the prompt adds its question first, and only events of
    the prompt. *)
Lemma conflict_loop_trace fuel : forall dest s r s',
  conflict_loop fuel dest s = Some (r, s') ->
  exists evs,
    st_trace s' = st_trace s ++ Print (duplicate_file_found dest) :: evs
    /\ Forall (fun e => is_prompt e = true) evs.
Proof.
  assert (Hone : forall dest s rest,
    st_trace (set_stdin rest (add_event (Input "> ")
       (add_event (Print (duplicate_file_found dest)) s)))
    = st_trace s ++ Print (duplicate_file_found dest) :: [Input "> "]).
  { intros. simpl. now rewrite <- app_assoc. }
  induction fuel as [|fuel IH]; intros dest s r s';
    (destruct (st_stdin s) as [|l rest] eqn:Hin;
     [rewrite (conflict_loop_eof _ _ _ Hin); intros [= <- <-];
      exists [Input "> "]; split;
      [exact (Hone dest s (st_stdin s))|repeat constructor]|]);
    rewrite (conflict_loop_round _ dest s l rest Hin); cbv zeta;
    (destruct (String.eqb (lower l) "s");
     [intros [= <- <-]; exists [Input "> "]; split;
      [apply Hone|repeat constructor]|]);
    (destruct (String.eqb (lower l) "e");
     [intros [= <- <-]; exists [Input "> "]; split;
      [apply Hone|repeat constructor]|]);
    (destruct (String.eqb (lower l) "o");
     [intros [= <- <-]; exists [Input "> "]; split;
      [apply Hone|repeat constructor]|]).
  - discriminate.
  - intros H. apply IH in H. destruct H as (evs & T & F).
    rewrite Hone in T. rewrite <- app_assoc in T. simpl in T.
    exists (Input "> " :: Print (duplicate_file_found dest) :: evs).
    split; [exact T|]. repeat constructor. exact F.
Qed.

(** The fuel [copy_file] gives the loop of the prompt is enough. *)
Lemma conflict_loop_total fuel : forall dest s,
  (length (st_stdin s) <= fuel)%nat ->
  exists r s', conflict_loop fuel dest s = Some (r, s').
Proof.
  induction fuel as [|fuel IH]; intros dest s Hf;
    (destruct (st_stdin s) as [|l rest] eqn:Hin;
     [rewrite (conflict_loop_eof _ _ _ Hin); eauto|]);
    [simpl in Hf; lia|].
  rewrite (conflict_loop_round _ dest s l rest Hin). cbv zeta.
  destruct (String.eqb (lower l) "s"); [eauto|].
  destruct (String.eqb (lower l) "e"); [eauto|].
  destruct (String.eqb (lower l) "o"); [eauto|].
  apply IH. simpl in *. lia.
Qed.

Lemma quiet_no_prompt evs :
  Forall quiet evs -> existsb is_prompt evs = false.
Proof.
  induction 1 as [|e evs He _ IH]; [reflexivity|].
  simpl. now rewrite He, IH.
Qed.

(** [copy_file] asks exactly when [os.path.exists] finds the
    destination. *)
Lemma copy_file_prompt_trace fuel s src dest r s' :
  copy_file fuel src dest s = Some (r, s') ->
  exists evs,
    st_trace s' = st_trace s ++ evs
    /\ existsb is_prompt evs = exists_ (st_fs s) dest.
Proof.
  rewrite copy_file_unfold.
  unfold bind at 1, os_path_exists, gets.
  destruct (exists_ (st_fs s) dest).
  - unfold bind at 1, bind at 1, gets.
    destruct (conflict_loop _ dest s) as [[[how|e] s1]|] eqn:E;
      [| |discriminate].
    + destruct (conflict_loop_trace _ _ _ _ _ E) as (e1 & T1 & _).
      destruct how.
      * intros H.
        destruct (emits_quiet_copy_file_body _ _ _ _ _ _ H)
          as (e2 & T2 & _).
        exists ((Print (duplicate_file_found dest) :: e1) ++ e2).
        split; [now rewrite T2, T1, <- app_assoc|reflexivity].
      * intros [= <- <-]. eexists. split; [exact T1|reflexivity].
    + destruct (conflict_loop_trace _ _ _ _ _ E) as (e1 & T1 & _).
      intros [= <- <-]. eexists. split; [exact T1|reflexivity].
  - unfold bind at 1, ret. intros H.
    destruct (emits_quiet_copy_file_body _ _ _ _ _ _ H) as (e2 & T2 & F2).
    exists e2. split; [exact T2|now apply quiet_no_prompt].
Qed.

(** ** The UTF-8 decoder *)

(** Scanning a string in two parts: the unfinished sequence of the first
    part is carried into the second. *)
Lemma utf8_scan_app x : forall cur y,
  utf8_scan cur (x ++ y) =
  match utf8_scan cur x with
  | Some (cs, p) =>
      match utf8_scan p y with
      | Some (cs', p') => Some (cs ++ cs', p')
      | None => None
      end
  | None => None
  end.
Proof.
  induction x as [|b x IH]; intros cur y; simpl.
  - destruct (utf8_scan cur y) as [[cs p]|]; reflexivity.
  - destruct (classify (cur ++ [b])).
    + rewrite IH. destruct (utf8_scan [] x) as [[cs p]|]; [|reflexivity].
      destruct (utf8_scan p y) as [[cs' p']|]; reflexivity.
    + apply IH.
    + reflexivity.
Qed.

Lemma held_nil a : held a [].
Proof. intros y. now rewrite app_nil_r. Qed.

Lemma held_snoc a b x :
  held a b -> classify ((a ++ b) ++ [x]) = Partial -> held a (b ++ [x]).
Proof.
  intros H Hc y. rewrite <- !app_assoc. simpl. rewrite H. simpl.
  rewrite Hc. now rewrite <- !app_assoc.
Qed.

(** The bytes a scan leaves unfinished are held from the start. *)
Lemma utf8_scan_held bs : forall cur cs p,
  held [] cur -> utf8_scan cur bs = Some (cs, p) -> held [] p.
Proof.
  induction bs as [|b bs IH]; intros cur cs p Hc; simpl.
  - intros [= <- <-]. exact Hc.
  - destruct (classify (cur ++ [b])) eqn:E; [| |discriminate].
    + destruct (utf8_scan [] bs) as [[cs' p']|] eqn:E'; [|discriminate].
      intros [= <- <-]. apply (IH [] cs' p' (held_nil [])). exact E'.
    + apply IH. apply held_snoc; assumption.
Qed.

(** The incremental decoder, on a state it can be in, is a scan that
    starts from the bytes it kept. *)
Lemma utf8_decode_held pending input final :
  held [] pending ->
  utf8_decode pending input final =
  match utf8_scan pending input with
  | Some (cs, p) =>
      if final && negb (bool_decide (p = [])) then None else Some (cs, p)
  | None => None
  end.
Proof. intros H. unfold utf8_decode. now rewrite H. Qed.

(** Encoding what was decoded gives the bytes back. *)
Lemma utf8_scan_concat bs : forall cur cs p,
  utf8_scan cur bs = Some (cs, p) -> concat cs ++ p = cur ++ bs.
Proof.
  induction bs as [|b bs IH]; intros cur cs p; simpl.
  - intros [= <- <-]. now rewrite app_nil_r.
  - destruct (classify (cur ++ [b])) eqn:E; [| |discriminate].
    + destruct (utf8_scan [] bs) as [[cs' p']|] eqn:E'; [|discriminate].
      intros [= <- <-]. simpl. rewrite <- !app_assoc.
      rewrite (IH [] cs' p' E'). reflexivity.
    + intros H. rewrite (IH _ _ _ H). now rewrite <- app_assoc.
Qed.

Lemma decode_encode bs cs :
  decode_utf8 bs = Some cs -> encode_utf8 cs = bs.
Proof.
  unfold decode_utf8, utf8_decode. simpl.
  destruct (utf8_scan [] bs) as [[cs' p]|] eqn:E; [|discriminate].
  simpl. case_bool_decide as Hp; simpl; [|discriminate].
  intros [= <-]. subst p.
  apply utf8_scan_concat in E. now rewrite app_nil_r in E.
Qed.

Lemma utf8_valid_scan bs :
  utf8_valid bs = true <-> exists cs, utf8_scan [] bs = Some (cs, []).
Proof.
  unfold utf8_valid, utf8_decode. simpl.
  destruct (utf8_scan [] bs) as [[cs p]|]; simpl.
  - case_bool_decide as Hp; simpl.
    + subst p. split; eauto.
    + split; [discriminate|]. intros (cs' & [= _ Hp']). contradiction.
  - split; [discriminate|]. intros (cs' & [=]).
Qed.

(** ** Universal newlines *)

Lemma char_eqb_true a b : char_eqb a b = true <-> a = b.
Proof. unfold char_eqb. apply bool_decide_eq_true. Qed.

Lemma char_eqb_false a b : char_eqb a b = false <-> a <> b.
Proof. unfold char_eqb. apply bool_decide_eq_false. Qed.

Lemma universal_newlines_CR_LF s :
  universal_newlines (CR :: LF :: s) = LF :: universal_newlines s.
Proof. reflexivity. Qed.

Lemma universal_newlines_CR c s :
  c <> LF ->
  universal_newlines (CR :: c :: s) = LF :: universal_newlines (c :: s).
Proof.
  intros H%char_eqb_false.
  change (universal_newlines (CR :: c :: s))
    with (if char_eqb c LF then LF :: universal_newlines s
          else LF :: universal_newlines (c :: s)).
  now rewrite H.
Qed.

Lemma universal_newlines_other c s :
  c <> CR -> universal_newlines (c :: s) = c :: universal_newlines s.
Proof.
  intros H%char_eqb_false.
  change (universal_newlines (c :: s))
    with (if char_eqb c CR
          then match s with
               | c' :: s'' =>
                   if char_eqb c' LF then LF :: universal_newlines s''
                   else LF :: universal_newlines s
               | [] => [LF]
               end
          else c :: universal_newlines s).
  now rewrite H.
Qed.

(** Induction that follows [universal_newlines], two characters at a
    time. *)
Lemma str_ind2 (P : list char -> Prop) :
  P [] -> (forall c, P [c]) ->
  (forall c c' s, P s -> P (c' :: s) -> P (c :: c' :: s)) ->
  forall s : list char, P s.
Proof.
  intros H0 H1 H2 s.
  assert (H : P s /\ forall c, P (c :: s)).
  { induction s as [|c' s [IHs IHc]]; [split; auto|].
    split; [apply IHc|]. intros c. apply H2; auto. }
  exact (proj1 H).
Qed.

Lemma CR_neq_LF : CR <> LF.
Proof. discriminate. Qed.

(** The translation of a text is the translation of its parts when the
    second part starts with a carriage return. *)
Lemma universal_newlines_app_CR u b :
  universal_newlines (u ++ CR :: b)
  = universal_newlines u ++ universal_newlines (CR :: b).
Proof.
  induction u as [| c | c c' s IHs IHc] using str_ind2.
  - reflexivity.
  - destruct (decide (c = CR)) as [->|Hc]; cbn [app].
    + rewrite universal_newlines_CR by apply CR_neq_LF. reflexivity.
    + rewrite !(universal_newlines_other c) by assumption. reflexivity.
  - destruct (decide (c = CR)) as [->|Hc].
    + destruct (decide (c' = LF)) as [->|Hc'].
      * cbn [app]. rewrite !universal_newlines_CR_LF, IHs. reflexivity.
      * change ((CR :: c' :: s) ++ CR :: b)
          with (CR :: c' :: (s ++ CR :: b)).
        rewrite !(universal_newlines_CR c') by assumption.
        change (c' :: s ++ CR :: b) with ((c' :: s) ++ CR :: b).
        rewrite IHc. reflexivity.
    + change ((c :: c' :: s) ++ CR :: b)
        with (c :: ((c' :: s) ++ CR :: b)).
      rewrite !(universal_newlines_other c) by assumption.
      rewrite IHc. reflexivity.
Qed.

Lemma ends_with_CR_cons c c' s :
  ends_with_CR (c :: c' :: s) = ends_with_CR (c' :: s).
Proof. unfold ends_with_CR. now rewrite last_cons_cons. Qed.

(** ... and when the first part does not end with one. *)
Lemma universal_newlines_app u b :
  ends_with_CR u = false ->
  universal_newlines (u ++ b) = universal_newlines u ++ universal_newlines b.
Proof.
  induction u as [| c | c c' s IHs IHc] using str_ind2; intros He.
  - reflexivity.
  - assert (Hc : c <> CR).
    { unfold ends_with_CR in He. cbn [last] in He.
      now apply char_eqb_false. }
    cbn [app]. rewrite !(universal_newlines_other c) by assumption.
    reflexivity.
  - rewrite ends_with_CR_cons in He.
    destruct (decide (c = CR)) as [->|Hc].
    + destruct (decide (c' = LF)) as [->|Hc'].
      * cbn [app]. rewrite !universal_newlines_CR_LF.
        rewrite IHs; [reflexivity|].
        destruct s as [|c s]; [reflexivity|].
        now rewrite ends_with_CR_cons in He.
      * change ((CR :: c' :: s) ++ b) with (CR :: c' :: (s ++ b)).
        rewrite !(universal_newlines_CR c') by assumption.
        change (c' :: s ++ b) with ((c' :: s) ++ b).
        rewrite IHc by assumption. reflexivity.
    + change ((c :: c' :: s) ++ b) with (c :: ((c' :: s) ++ b)).
      rewrite !(universal_newlines_other c) by assumption.
      rewrite IHc by assumption. reflexivity.
Qed.

Lemma ends_with_CR_snoc x :
  ends_with_CR x = true -> x = removelast x ++ [CR].
Proof.
  unfold ends_with_CR. destruct (last x) as [c|] eqn:E; [|discriminate].
  intros ->%char_eqb_true. apply last_Some in E as [l' ->].
  now rewrite removelast_last.
Qed.

(** The newline decoder at the end of the input. *)
Lemma newline_decode_final cr x :
  newline_decode cr x true
  = (universal_newlines (if cr then CR :: x else x), false).
Proof.
  unfold newline_decode. rewrite orb_true_r, andb_true_r.
  destruct cr; cbn [negb]; rewrite andb_false_r; reflexivity.
Qed.

(** The newline decoder in the middle of the input. *)
Lemma newline_decode_more cr a :
  newline_decode cr a false =
  let x := if cr && negb (is_nil a) then CR :: a else a in
  if ends_with_CR x then (universal_newlines (removelast x), true)
  else (universal_newlines x, cr && is_nil a).
Proof.
  unfold newline_decode. rewrite orb_false_r.
  destruct cr, a as [|c a]; cbn [negb andb is_nil];
    rewrite ?andb_true_r; cbv zeta;
    match goal with |- context [ends_with_CR ?x] =>
      destruct (ends_with_CR x) end; reflexivity.
Qed.

Lemma newline_decode_split cr a b :
  fst (newline_decode cr (a ++ b) true)
  = fst (newline_decode cr a false)
    ++ fst (newline_decode (snd (newline_decode cr a false)) b true).
Proof.
  rewrite newline_decode_more, newline_decode_final. cbv zeta.
  destruct cr, a as [|c a]; cbn [negb andb is_nil app].
  - change (ends_with_CR []) with false. cbn [fst snd].
    rewrite newline_decode_final. reflexivity.
  - destruct (ends_with_CR (CR :: c :: a)) eqn:E; cbn [fst snd];
      rewrite newline_decode_final; cbn [fst snd].
    + apply ends_with_CR_snoc in E.
      rewrite <- universal_newlines_app_CR.
      change (CR :: c :: a ++ b) with ((CR :: c :: a) ++ b).
      rewrite E at 1. now rewrite <- app_assoc.
    + change (CR :: c :: a ++ b) with ((CR :: c :: a) ++ b).
      now apply universal_newlines_app.
  - change (ends_with_CR []) with false. cbn [fst snd].
    rewrite newline_decode_final. reflexivity.
  - destruct (ends_with_CR (c :: a)) eqn:E; cbn [fst snd];
      rewrite newline_decode_final; cbn [fst snd].
    + apply ends_with_CR_snoc in E.
      rewrite <- universal_newlines_app_CR.
      change (c :: a ++ b) with ((c :: a) ++ b).
      rewrite E at 1. now rewrite <- app_assoc.
    + change (c :: a ++ b) with ((c :: a) ++ b).
      now apply universal_newlines_app.
Qed.

(** ** The text layer, on a file that is well-formed UTF-8 *)

Lemma TEXT_CHUNK_SIZE_pos : (0 < TEXT_CHUNK_SIZE)%nat.
Proof. unfold TEXT_CHUNK_SIZE. lia. Qed.

Lemma take_nil_inv {A} (n : nat) (l : list A) :
  (0 < n)%nat -> take n l = [] -> l = [].
Proof. destruct n, l; simpl; intros; try lia; congruence. Qed.

Lemma is_nil_true {A} (l : list A) : is_nil l = true <-> l = [].
Proof. destruct l; simpl; split; congruence. Qed.

(** One block more: no error, and the text to come is the same. *)
Lemma read_chunk_sound data f :
  sound data f -> t_decoded f = [] ->
  exists more f',
    read_chunk data f = Ret (more, f')
    /\ sound data f'
    /\ rest_text data f' = rest_text data f
    /\ (more = true -> (t_pos f < t_pos f' <= length data)%nat)
    /\ (more = false -> rest_text data f' = t_decoded f').
Proof.
  intros [Hheld (cs & Hscan)] Hdec.
  unfold read_chunk.
  set (input := take TEXT_CHUNK_SIZE (drop (t_pos f) data)).
  set (rest := drop TEXT_CHUNK_SIZE (drop (t_pos f) data)).
  assert (Hsplit : drop (t_pos f) data = input ++ rest)
    by (symmetry; apply take_drop).
  rewrite Hsplit, utf8_scan_app in Hscan.
  destruct (utf8_scan (t_pending f) input) as [[cs1 p1]|] eqn:E1;
    [|discriminate].
  destruct (utf8_scan p1 rest) as [[cs2 p2]|] eqn:E2; [|discriminate].
  injection Hscan as <- ->.
  assert (Hrest' : drop (t_pos f + length input) data = rest).
  { rewrite <- drop_drop, Hsplit. apply drop_app_length. }
  rewrite (utf8_decode_held _ _ _ Hheld), E1.
  destruct (is_nil input) eqn:Heof.
  - (* the end of the file *)
    apply is_nil_true in Heof.
    assert (Hnil : drop (t_pos f) data = [])
      by (apply (take_nil_inv _ _ TEXT_CHUNK_SIZE_pos Heof)).
    assert (rest = []) as Hr by (unfold rest; rewrite Hnil; apply drop_nil).
    rewrite Heof in E1. simpl in E1. injection E1 as <- <-.
    rewrite Hr in E2. simpl in E2. injection E2 as <- Hp.
    rewrite Hp. simpl andb. cbv iota.
    rewrite newline_decode_final.
    do 2 eexists. split; [reflexivity|].
    unfold sound, rest_text, rest_chars. cbn [t_pos t_pending t_pendingcr t_decoded].
    rewrite Heof, Nat.add_0_r, Hnil, Hdec. simpl utf8_scan. rewrite Hp. cbn iota.
    rewrite !newline_decode_final. cbn [fst].
    split; [split; [apply held_nil|eauto]|].
    split; [now rewrite app_nil_r|].
    split; [discriminate|]. intros _. now rewrite app_nil_r.
  - (* a block of the file *)
    simpl andb. cbv iota.
    destruct (newline_decode (t_pendingcr f) cs1 false) as [out cr] eqn:En.
    do 2 eexists. split; [reflexivity|].
    unfold sound, rest_text, rest_chars. cbn [t_pos t_pending t_pendingcr t_decoded].
    rewrite Hrest', Hsplit, utf8_scan_app, E1, E2, Hdec.
    split; [split; [exact (utf8_scan_held _ _ _ _ Hheld E1)|eauto]|].
    split.
    + rewrite newline_decode_split, En. reflexivity.
    + split; [|discriminate]. intros _.
      assert (input <> []) by (intros ->; discriminate).
      assert (length input <= length (drop (t_pos f) data))%nat
        by (rewrite Hsplit, length_app; lia).
      rewrite length_drop in *.
      destruct input; [congruence|]. simpl length in *. lia.
Qed.

Lemma take_buffered {A} (k : nat) (B R : list A) :
  take k (B ++ R) = take k B ++ take (k - length (take k B)) (drop k B ++ R).
Proof.
  rewrite take_app. f_equal. rewrite length_take.
  destruct (le_lt_dec k (length B)).
  - replace (k - k `min` length B)%nat with 0%nat by lia.
    replace (k - length B)%nat with 0%nat by lia. reflexivity.
  - rewrite (drop_ge B k) by lia. simpl. f_equal. lia.
Qed.

Lemma drop_buffered {A} (k : nat) (B R : list A) :
  drop k (B ++ R) = drop (k - length (take k B)) (drop k B ++ R).
Proof.
  rewrite drop_app, length_take.
  destruct (le_lt_dec k (length B)).
  - replace (k - k `min` length B)%nat with 0%nat by lia.
    replace (k - length B)%nat with 0%nat by lia. reflexivity.
  - rewrite (drop_ge B k) by lia. simpl. f_equal. lia.
Qed.

(** The loop of [read(size)] returns the next [size] characters of the
    text to come, fewer at the end of the file. *)
Lemma read_loop_sound fuel : forall data size result f,
  sound data f ->
  ((length result < size)%nat -> t_decoded f = []) ->
  (length data - t_pos f < fuel)%nat ->
  exists f',
    read_loop fuel data size result f
    = Some (Ret (result ++ take (size - length result) (rest_text data f),
                 f'))
    /\ sound data f'
    /\ rest_text data f' = drop (size - length result) (rest_text data f).
Proof.
  induction fuel as [|fuel IH]; intros data size result f Hs Hd Hf;
    [lia|].
  cbn [read_loop].
  destruct (size <=? length result)%nat eqn:Hle.
  - apply Nat.leb_le in Hle.
    replace (size - length result)%nat with 0%nat by lia.
    exists f. rewrite take_0, drop_0, app_nil_r. auto.
  - apply Nat.leb_gt in Hle.
    destruct (read_chunk_sound data f Hs (Hd Hle))
      as (more & f1 & -> & Hs1 & Hr1 & Hmore & Heof).
    set (k := (size - length result)%nat).
    rewrite <- Hr1.
    destruct more.
    + destruct (Hmore eq_refl) as [Hp1 Hp2].
      destruct (IH data size (result ++ take k (t_decoded f1))
                  (set_decoded f1 (drop k (t_decoded f1))))
        as (f' & -> & Hs' & Hr').
      * exact Hs1.
      * rewrite length_app, length_take. intros Hlt. cbn [t_decoded set_decoded].
        apply drop_ge. lia.
      * cbn [t_pos set_decoded]. lia.
      * exists f'. rewrite length_app in *.
        unfold rest_text in *. cbn [set_decoded t_decoded t_pendingcr] in *.
        change (rest_chars data (set_decoded f1 (drop k (t_decoded f1))))
          with (rest_chars data f1) in *.
        replace (size - (length result + length (take k (t_decoded f1))))%nat
          with (k - length (take k (t_decoded f1)))%nat in * by lia.
        rewrite <- app_assoc, <- take_buffered.
        rewrite <- drop_buffered in Hr'. auto.
    + rewrite (Heof eq_refl).
      eexists. split; [reflexivity|]. split; [exact Hs1|].
      unfold rest_text at 1. cbn [set_decoded t_decoded t_pendingcr].
      change (rest_chars data (set_decoded f1 (drop k (t_decoded f1))))
        with (rest_chars data f1).
      pose proof (Heof eq_refl) as H. unfold rest_text in H.
      apply (f_equal (drop k)) in H. rewrite drop_app in H.
      rewrite <- H at 2. 
      assert (Hn : fst (newline_decode (t_pendingcr f1) (rest_chars data f1) true) = []).
      { pose proof (Heof eq_refl) as H'. unfold rest_text in H'.
        apply (f_equal (@length _)) in H'. rewrite length_app in H'.
        destruct (fst (newline_decode _ _ _)); [reflexivity|simpl in H'; lia]. }
      rewrite Hn, drop_nil. reflexivity.
Qed.

(** [read(size)] on a well-formed file: the next [size] characters of the
    text to come, all of it for a negative [size]. *)
Lemma text_read_sound data size f :
  sound data f ->
  exists f',
    text_read data size f = Some (Ret (take_z size (rest_text data f), f'))
    /\ sound data f'
    /\ rest_text data f' = drop_z size (rest_text data f).
Proof.
  intros Hs. unfold text_read, take_z, drop_z.
  destruct (size <? 0)%Z.
  - destruct Hs as [Hheld (cs & Hscan)].
    rewrite (utf8_decode_held _ _ _ Hheld), Hscan. simpl.
    rewrite newline_decode_final.
    eexists. split; [|split].
    + unfold rest_text, rest_chars. rewrite Hscan, newline_decode_final.
      reflexivity.
    + split; [apply held_nil|]. cbn [t_pos t_pending].
      rewrite drop_ge by (rewrite length_drop; lia). simpl. eauto.
    + unfold rest_text, rest_chars. cbn [t_pos t_pending t_pendingcr t_decoded].
      rewrite drop_ge by (rewrite length_drop; lia). reflexivity.
  - set (n := Z.to_nat size).
    destruct (read_loop_sound (S (length data - t_pos (set_decoded f (drop n (t_decoded f)))))
                data n (take n (t_decoded f))
                (set_decoded f (drop n (t_decoded f))))
      as (f' & -> & Hs' & Hr').
    + exact Hs.
    + rewrite length_take. intros Hlt. cbn [t_decoded set_decoded].
      apply drop_ge. lia.
    + lia.
    + exists f'. unfold rest_text in *.
      cbn [set_decoded t_decoded t_pendingcr] in *.
      change (rest_chars data (set_decoded f (drop n (t_decoded f))))
        with (rest_chars data f) in *.
      rewrite <- take_buffered. rewrite <- drop_buffered in Hr'. auto.
Qed.

(** ** The probe of [is_binary] *)

Lemma read_chunk_raises data f e :
  read_chunk data f = Raise e -> e = UnicodeDecodeError.
Proof.
  unfold read_chunk.
  destruct (utf8_decode _ _ _) as [[cs p]|]; [|congruence].
  destruct (newline_decode _ _ _). discriminate.
Qed.

Lemma read_chunk_more data f f' :
  read_chunk data f = Ret (true, f') ->
  (t_pos f < t_pos f' <= length data)%nat.
Proof.
  unfold read_chunk.
  destruct (utf8_decode _ _ _) as [[cs p]|]; [|discriminate].
  destruct (newline_decode _ _ _) as [out cr].
  destruct (take TEXT_CHUNK_SIZE (drop (t_pos f) data)) as [|b input] eqn:E;
    [discriminate|].
  intros [= <-]. cbn [t_pos].
  assert (H : (length (b :: input) <= length (drop (t_pos f) data))%nat).
  { rewrite <- E, length_take. lia. }
  rewrite length_drop in H. simpl length in *. lia.
Qed.

(** The loop of [read] ends within its fuel, and a decoding error is all
    it raises. *)
Lemma read_loop_total fuel : forall data size result f,
  (length data - t_pos f < fuel)%nat ->
  exists r,
    read_loop fuel data size result f = Some r
    /\ forall e, r = Raise e -> e = UnicodeDecodeError.
Proof.
  induction fuel as [|fuel IH]; intros data size result f Hf; [lia|].
  cbn [read_loop]. destruct (size <=? length result)%nat.
  - eexists. split; [reflexivity|]. discriminate.
  - destruct (read_chunk data f) as [[more f']|e] eqn:E.
    + destruct more.
      * apply IH. apply read_chunk_more in E. cbn [t_pos set_decoded]. lia.
      * eexists. split; [reflexivity|]. discriminate.
    + eexists. split; [reflexivity|]. intros e' [= <-].
      exact (read_chunk_raises _ _ _ E).
Qed.

Lemma text_read_total data size f :
  exists r,
    text_read data size f = Some r
    /\ forall e, r = Raise e -> e = UnicodeDecodeError.
Proof.
  unfold text_read. destruct (size <? 0)%Z.
  - destruct (utf8_decode _ _ _) as [[cs p]|].
    + destruct (newline_decode _ _ _). eexists. split; [reflexivity|].
      discriminate.
    + eexists. split; [reflexivity|]. congruence.
  - apply read_loop_total. cbn [t_pos set_decoded]. lia.
Qed.

(** What [is_binary] does on a file it can open: the answer, and nothing
    else. *)
Lemma is_binary_run s path k :
  open_for_read (st_fs s) path = Ret k ->
  is_binary path s
  = Some (Ret (decoding_fails (content_of (st_fs s) k)), s).
Proof.
  intros Ho. unfold is_binary, try_except, open_read, read.
  change (fits_ssize_t 16) with true. cbv iota.
  unfold bind, gets, lift.
  rewrite Ho. unfold ret at 1. unfold decoding_fails.
  destruct (text_read_total (content_of (st_fs s) k) 16 text_open)
    as (r & -> & Hr).
  destruct r as [[got f']|e]; [reflexivity|].
  rewrite (Hr e eq_refl). reflexivity.
Qed.

(** A failure to open is not a decoding error and is raised to the
    caller. *)
Lemma is_binary_open_fails s path e :
  open_for_read (st_fs s) path = Raise e ->
  is_binary path s = Some (Raise e, s).
Proof.
  intros Ho. unfold is_binary, try_except, open_read, bind, gets, lift.
  rewrite Ho. 
  assert (He : is_UnicodeDecodeError e = false).
  { revert Ho. unfold open_for_read, stat.
    destruct (follow _ _ _); [|intros [= <-]; reflexivity].
    destruct (st_fs s !! s0) as [[[] ? ?| |]|]; try discriminate;
      intros [= <-]; reflexivity. }
  now rewrite He.
Qed.

Lemma sound_text_open data :
  utf8_valid data = true -> sound data text_open.
Proof.
  intros (cs & H)%utf8_valid_scan. split; [apply held_nil|].
  exists cs. exact H.
Qed.

(** A file that is well-formed UTF-8 passes the probe. *)
Lemma decoding_fails_valid data :
  utf8_valid data = true -> decoding_fails data = false.
Proof.
  intros H%sound_text_open. unfold decoding_fails.
  destruct (text_read_sound data 16 text_open H) as (f' & -> & _).
  reflexivity.
Qed.

Lemma read_loop_raise fuel data size result f e :
  (length result < size)%nat ->
  read_chunk data f = Raise e ->
  read_loop (S fuel) data size result f = Some (Raise e).
Proof.
  intros Hlt Hc. cbn [read_loop].
  rewrite (proj2 (Nat.leb_gt _ _) Hlt), Hc. reflexivity.
Qed.

Lemma text_read_open data :
  text_read data 16 text_open
  = read_loop (S (length data - 0)) data (Z.to_nat 16) [] text_open.
Proof. reflexivity. Qed.

(** A file with an ill-formed sequence in its first block fails it. *)
Lemma decoding_fails_first_block data :
  utf8_scan [] (take TEXT_CHUNK_SIZE data) = None ->
  decoding_fails data = true.
Proof.
  intros H. unfold decoding_fails.
  rewrite text_read_open.
  rewrite (read_loop_raise _ _ _ _ _ UnicodeDecodeError);
    [reflexivity|simpl; lia|].
  unfold read_chunk, utf8_decode.
  cbn [text_open t_pos t_pending app]. rewrite drop_0, H. reflexivity.
Qed.

(** C9, as the code has it: [is_binary] asks the UTF-8 text layer for 16
    characters and answers true exactly when that read meets a decoding
    error; the error is not raised to the caller and nothing else changes.
    A file that is well-formed UTF-8 as a whole is text, and a file with an
    ill-formed sequence in its first block of [TEXT_CHUNK_SIZE] bytes is
    binary. *)
Theorem is_binary_reads_16_characters s path k :
  open_for_read (st_fs s) path = Ret k ->
  exists b,
    is_binary path s = Some (Ret b, s)
    /\ (b = true <->
        text_read (content_of (st_fs s) k) 16 text_open
        = Some (Raise UnicodeDecodeError))
    /\ (utf8_valid (content_of (st_fs s) k) = true -> b = false)
    /\ (utf8_scan [] (take TEXT_CHUNK_SIZE (content_of (st_fs s) k)) = None ->
        b = true).
Proof.
  intros Ho. exists (decoding_fails (content_of (st_fs s) k)).
  split; [exact (is_binary_run s path k Ho)|].
  split; [|split].
  - unfold decoding_fails.
    destruct (text_read_total (content_of (st_fs s) k) 16 text_open)
      as (r & -> & Hr).
    destruct r as [[got f']|e].
    + split; discriminate.
    + rewrite (Hr e eq_refl). split; reflexivity.
  - apply decoding_fails_valid.
  - apply decoding_fails_first_block.
Qed.

Lemma is_binary_reads_16_characters_witness :
  exists b,
    is_binary "g.txt" (init_state probes [] 4096)
    = Some (Ret b, init_state probes [] 4096)
    /\ b = false.
Proof.
  destruct (is_binary_reads_16_characters (init_state probes [] 4096)
              "g.txt" "g.txt") as (b & Hrun & _ & Hvalid & _).
  - vm_compute. reflexivity.
  - exists b. split; [exact Hrun|]. apply Hvalid. vm_compute. reflexivity.
Defined.

(** C9 fails as stated, both ways.  The first 16 bytes of [f.bin] decode,
    and [is_binary] says binary; the first 16 bytes of [g.txt] do not, and
    [is_binary] says text. *)
Lemma is_binary_16_bytes_counterexample :
  let s := init_state probes [] 4096 in
  (utf8_valid (take 16 eight_then_ff) = true
   /\ is_binary "f.bin" s = Some (Ret true, s))
  /\
  (utf8_valid (take 16 fifteen_then_e) = false
   /\ is_binary "g.txt" s = Some (Ret false, s)).
Proof.
  repeat split; vm_compute; reflexivity.
Qed.

(** ** Failures and the progress bar *)

(** C3 at a source that cannot be opened: the size query passes, the
    bar is opened, and the probe of [is_binary], which stands before the
    [try] of [copy_file], raises [PermissionError].  The exception leaves
    [copy_file]: nothing is logged and the bar is not closed. *)
Theorem copy_file_unreadable_source_propagates fuel :
  exists s',
    copy_file fuel "secret.txt" "out.txt" (init_state locked [] 4096)
    = Some (Raise (OSError EACCES "secret.txt"), s')
    /\ is_Exception (OSError EACCES "secret.txt") = true
    /\ st_trace s' = [BarOpen 4 "secret.txt"].
Proof.
  eexists. split; [vm_compute; reflexivity|]. split; reflexivity.
Qed.

(** The size query stands before the [try] as well: a source that is
    gone by the time [copy_file] runs ends the call with
    [FileNotFoundError]. *)
Lemma copy_file_missing_source_propagates fuel :
  exists s',
    copy_file fuel "gone.txt" "out.txt" (init_state ∅ [] 4096)
    = Some (Raise (OSError ENOENT "gone.txt"), s')
    /\ st_trace s' = [].
Proof.
  eexists. split; [vm_compute; reflexivity|]. reflexivity.
Qed.

(** [close_bar] without a bar does nothing, so a second [close_bar]
    after a first does nothing either. *)
Lemma close_bar_without_bar s :
  _bar (st_self s) = None -> close_bar s = Some (Ret tt, s).
Proof.
  intros H. unfold close_bar, bind, gets. rewrite H. reflexivity.
Qed.

Lemma close_bar_idempotent s r s' :
  close_bar s = Some (r, s') -> (close_bar ;; close_bar) s = close_bar s.
Proof.
  unfold bind at 1. intros H. rewrite H.
  revert H. unfold close_bar, bind, gets.
  destruct (_bar (st_self s)) as [b|] eqn:Hb.
  - destruct (tqdm_bool b) eqn:Ht.
    + unfold emit, set_bar, modify, bind. simpl. intros [= <- <-]. reflexivity.
    + unfold ret. intros [= <- <-]. rewrite Hb, Ht. reflexivity.
  - unfold ret. intros [= <- <-]. rewrite Hb. reflexivity.
Qed.

(** C8 at a source that cannot be opened: [copy_file] is left with the
    bar that [init_bar] opened still in [self._bar], and [tqdm.close] was
    never called. *)
Theorem copy_file_leaves_bar_open fuel :
  exists e s' bar,
    copy_file fuel "secret.txt" "out.txt" (init_state locked [] 4096)
    = Some (Raise e, s')
    /\ _bar (st_self s') = Some bar
    /\ In (BarOpen 4 "secret.txt") (st_trace s')
    /\ ~ In BarClose (st_trace s').
Proof.
  do 3 eexists. split; [vm_compute; reflexivity|].
  split; [reflexivity|]. split; [left; reflexivity|].
  intros [H|[]]. discriminate H.
Qed.

(** A second way out with the bar open: the bar of an empty source has
    total 0, which makes it false in [if self._bar:], so [close_bar] skips
    it.  [copy_file] returns with the success message and the bar open. *)
Lemma copy_file_empty_source_leaves_bar_open :
  exists s' bar,
    copy_file 1 "empty.txt" "out.txt" (init_state with_empty [] 4096)
    = Some (Ret tt, s')
    /\ _bar (st_self s') = Some bar
    /\ st_trace s' =
       [BarOpen 0 "empty.txt";
        Log INFO (success_copying "empty.txt" "out.txt")].
Proof.
  do 2 eexists. split; [vm_compute; reflexivity|]. split; reflexivity.
Qed.

(** ** Failures inside the [try] of [copy_file] *)

Section Raises.
Variable Q : exn -> Prop.

Lemma raises_ret {A} (a : A) : raises Q (ret a).
Proof. intros s e s' [=]. Qed.

Lemma raises_raise {A} (e : exn) : Q e -> raises Q (@raise A e).
Proof. intros He s e' s' [= <- <-]. exact He. Qed.

Lemma raises_out_of_fuel {A} : raises Q (@out_of_fuel A).
Proof. intros s e s' [=]. Qed.

Lemma raises_gets {A} (f : state -> A) : raises Q (gets f).
Proof. intros s e s' [=]. Qed.

Lemma raises_modify (f : state -> state) : raises Q (modify f).
Proof. intros s e s' [=]. Qed.

Lemma raises_lift {A} (x : res A) :
  (forall e, x = Raise e -> Q e) -> raises Q (lift x).
Proof. intros H s e s' [= -> <-]. now apply H. Qed.

Lemma raises_bind {A B} (m : M A) (k : A -> M B) :
  raises Q m -> (forall a, raises Q (k a)) -> raises Q (bind m k).
Proof.
  intros Hm Hk s e s'. unfold bind.
  destruct (m s) as [[[a|e0] s1]|] eqn:E; [| |discriminate].
  - apply Hk.
  - intros [= <- <-]. exact (Hm _ _ _ E).
Qed.
End Raises.

Lemma stat_raises fs p e : stat fs p = Raise e -> ordinary e.
Proof.
  unfold stat. destruct (follow fs MAXSYMLINKS p) as [k|];
    [|intros [= <-]; reflexivity].
  destruct (fs !! k); [discriminate|intros [= <-]; reflexivity].
Qed.

Lemma open_for_read_raises fs p e :
  open_for_read fs p = Raise e -> ordinary e.
Proof.
  unfold open_for_read. destruct (stat fs p) as [[k nd]|e0] eqn:E.
  - destruct nd as [[] w c| |]; try discriminate;
      intros [= <-]; reflexivity.
  - intros [= <-]. exact (stat_raises _ _ _ E).
Qed.

Lemma open_for_write_raises fs p e :
  open_for_write fs p = Raise e -> ordinary e.
Proof.
  unfold open_for_write. destruct (follow fs MAXSYMLINKS p) as [k|];
    [|intros [= <-]; reflexivity].
  destruct (fs !! k) as [[r [] c| |]|]; try discriminate;
    try (intros [= <-]; reflexivity).
  destruct (parent_is_dir fs k); [discriminate|intros [= <-]; reflexivity].
Qed.

Lemma raises_open_read p b : raises ordinary (open_read p b).
Proof.
  unfold open_read. apply raises_bind; [apply raises_gets|]. intros fs.
  apply raises_bind; [|intros k; apply raises_ret].
  apply raises_lift. apply open_for_read_raises.
Qed.

Lemma raises_open_write p b : raises ordinary (open_write p b).
Proof.
  unfold open_write. apply raises_bind; [apply raises_gets|]. intros fs.
  apply raises_bind;
    [|intros k; apply raises_bind;
        [apply raises_modify|intros _; apply raises_ret]].
  apply raises_lift. apply open_for_write_raises.
Qed.

Lemma raises_read f size : raises ordinary (read f size).
Proof.
  unfold read.
  destruct (fits_ssize_t size); [|apply raises_raise; reflexivity].
  apply raises_bind; [apply raises_gets|]. intros fs.
  destruct f as [k t|k pos].
  - destruct (text_read_total (content_of fs k) size t) as (r & -> & Hr).
    apply raises_bind; [|intros x; apply raises_ret].
    apply raises_lift. intros e ->. now rewrite (Hr e eq_refl).
  - apply raises_bind; [|intros x; apply raises_ret].
    apply raises_lift. unfold bytes_read.
    destruct (size <? -1)%Z; [intros e [= <-]; reflexivity|discriminate].
Qed.

Lemma raises_write f b : raises ordinary (write f b).
Proof.
  unfold write, write_bytes, emit.
  destruct f, b;
    repeat first [apply raises_raise; reflexivity
                 |apply raises_bind; [|intros ?]
                 |apply raises_gets | apply raises_modify].
Qed.

Lemma raises_bar_update k : raises ordinary (bar_update k).
Proof.
  unfold bar_update, no_attribute, set_bar, emit.
  apply raises_bind; [apply raises_gets|]. intros self.
  destruct (_bar self);
    repeat first [apply raises_raise; reflexivity
                 |apply raises_bind; [|intros ?]
                 |apply raises_gets | apply raises_modify].
Qed.

Lemma raises_bar_set_description d :
  raises ordinary (bar_set_description d).
Proof.
  unfold bar_set_description, no_attribute, set_bar, emit.
  apply raises_bind; [apply raises_gets|]. intros self.
  destruct (_bar self);
    repeat first [apply raises_raise; reflexivity
                 |apply raises_bind; [|intros ?]
                 |apply raises_gets | apply raises_modify].
Qed.

Lemma raises_copy_loop fuel : forall src_file target_file,
  raises ordinary (copy_loop fuel src_file target_file).
Proof.
  induction fuel as [|fuel IH]; intros src_file target_file; simpl.
  - apply raises_out_of_fuel.
  - apply raises_bind; [apply raises_gets|]. intros self.
    apply raises_bind; [apply raises_read|]. intros [buffer rd].
    destruct (truthy buffer); [|apply raises_ret].
    apply raises_bind; [apply raises_write|]. intros _.
    apply raises_bind; [apply raises_bar_update|]. intros _.
    apply raises_bind; [apply raises_bar_set_description|]. intros _.
    apply IH.
Qed.

Lemma close_bar_then_log lvl msg s r s' :
  (close_bar ;; emit (Log lvl msg)) s = Some (r, s') ->
  r = Ret tt
  /\ last (st_trace s') = Some (Log lvl msg)
  /\ bar_put_away s'
  /\ st_fs s' = st_fs s.
Proof.
  unfold close_bar, set_bar, emit, modify, bind, gets, ret, bar_put_away.
  destruct (_bar (st_self s)) as [bar|] eqn:Hb.
  - destruct (tqdm_bool bar) eqn:Ht; intros [= <- <-]; cbn;
      rewrite ?Hb, ?Ht, last_snoc; auto.
  - intros [= <- <-]. cbn. rewrite Hb, last_snoc. auto.
Qed.

(** Every failure inside the [try] is contained: the statement ends
    without an exception, with the bar put away and a record in the log,
    the success message or the failure message with the source, the
    destination and the text of the exception. *)
Lemma copy_file_try_contained fuel src dest b s r s' :
  copy_file_try fuel src dest b s = Some (r, s') ->
  r = Ret tt
  /\ bar_put_away s'
  /\ (last (st_trace s') = Some (Log INFO (success_copying src dest))
      \/ exists e, last (st_trace s')
                   = Some (Log ERROR (error_copying src dest e))).
Proof.
  unfold copy_file_try, try_except.
  set (body := bind (open_read src b) _).
  destruct (body s) as [[[[]|e] s1]|] eqn:E; [| |discriminate].
  - (* no exception: the body ended with [close_bar] and the message *)
    intros [= <- <-]. split; [reflexivity|].
    unfold body, bind at 1 in E.
    destruct (open_read src b s) as [[[rd|] s2]|]; try discriminate.
    unfold bind at 1 in E.
    destruct (open_write dest b s2) as [[[wr|] s3]|]; try discriminate.
    unfold bind at 1 in E.
    destruct (copy_loop fuel rd wr s3) as [[[[]|] s4]|]; try discriminate.
    apply close_bar_then_log in E. destruct E as (_ & Hl & Hb & _). auto.
  - (* an exception, taken by the handler *)
    assert (He : ordinary e).
    { revert E. unfold body.
      apply (raises_bind ordinary); [apply raises_open_read|]. intros rd.
      apply raises_bind; [apply raises_open_write|]. intros wr.
      apply raises_bind; [apply raises_copy_loop|]. intros _.
      unfold close_bar, set_bar, logger_info, emit.
      apply raises_bind; [|intros _; apply raises_modify].
      apply raises_bind; [apply raises_gets|]. intros self.
      destruct (_bar self) as [bar|]; [|apply raises_ret].
      destruct (tqdm_bool bar); [|apply raises_ret].
      apply raises_bind; [apply raises_modify|intros _; apply raises_modify]. }
    rewrite He. intros H. apply close_bar_then_log in H.
    destruct H as (-> & Hl & Hb & _). eauto.
Qed.

(** ** The copy loop *)

Lemma round_run {A} kd bytes units desc bar (K : M A) s :
  _bar (st_self s) = Some bar ->
  (write_bytes kd bytes ;; bar_update units ;;
   bar_set_description desc ;; K) s
  = K (after_round kd bytes units desc bar s).
Proof.
  intros Hb.
  unfold write_bytes, bar_update, bar_set_description, set_bar, emit,
    modify, gets, bind. cbn. rewrite Hb. cbn.
  unfold after_round, add_event, set_self, set_fs, with_bar. cbn.
  rewrite <- !app_assoc. reflexivity.
Qed.

Lemma rounds_progress {U} (enc : list U -> list byte) n name desc R evs :
  rounds enc n name desc R evs ->
  forall k, progress k evs = (k + Z.of_nat (length R))%Z.
Proof.
  induction 1 as [|chunk rest evs Hne Hle Hr IH]; intros k; simpl.
  - lia.
  - rewrite IH, length_app. lia.
Qed.

Section CopyLoop.
Context {U : Type}.
Variable mk : list U -> buffer.
Variable enc : list U -> list byte.
Variables ks kd : string.
Variable c : list byte.
Variable n : Z.
Variable target : writer.
Variable Inv : reader -> list U -> Prop.

Hypothesis n_pos : (0 < n)%Z.
Hypothesis distinct : ks <> kd.
Hypothesis len_mk : forall l, len (mk l) = Z.of_nat (length l).
Hypothesis truthy_mk : forall l, truthy (mk l) = negb (is_nil l).
Hypothesis enc_app : forall a b, enc (a ++ b) = enc a ++ enc b.
Hypothesis read_spec : forall rd R s,
  Inv rd R -> content_of (st_fs s) ks = c ->
  exists rd',
    read rd n s = Some (Ret (mk (take (Z.to_nat n) R), rd'), s)
    /\ Inv rd' (drop (Z.to_nat n) R).
Hypothesis write_spec : forall l,
  write target (mk l) = write_bytes kd (enc l).

(** The loop copies all the units that are left, in rounds. *)
Lemma copy_loop_run fuel : forall rd R s r w d bar p,
  Inv rd R ->
  content_of (st_fs s) ks = c ->
  st_fs s !! kd = Some (File r w d) ->
  _bar (st_self s) = Some bar ->
  _curr_path (st_self s) = Some p ->
  chunk_size (st_self s) = n ->
  (length R < fuel)%nat ->
  exists s' evs,
    copy_loop fuel rd target s = Some (Ret tt, s')
    /\ rounds enc (Z.to_nat n) kd (basename p) R evs
    /\ st_trace s' = st_trace s ++ evs
    /\ st_fs s' !! kd = Some (File r w (d ++ enc R))
    /\ (forall k, k <> kd -> st_fs s' !! k = st_fs s !! k)
    /\ st_stdin s' = st_stdin s
    /\ (exists bar', _bar (st_self s') = Some bar'
                     /\ bar_total bar' = bar_total bar)
    /\ _curr_path (st_self s') = Some p
    /\ chunk_size (st_self s') = n.
Proof.
  induction fuel as [|fuel IH];
    intros rd R s r w d bar p HI Hc Hd Hb Hp Hn Hf; [lia|].
  cbn [copy_loop]. unfold bind at 1, gets at 1. rewrite Hn, Hp.
  destruct (read_spec rd R s HI Hc) as (rd' & Hread & HI').
  unfold bind at 1. rewrite Hread.
  rewrite truthy_mk.
  destruct (take (Z.to_nat n) R) as [|u chunk] eqn:Ht.
  - (* nothing left *)
    assert (R = []) as -> by (apply (take_nil_inv (Z.to_nat n)); [lia|auto]).
    cbn [is_nil negb].
    exists s, []. unfold ret.
    assert (He : enc [] = []).
    { pose proof (enc_app [] []) as H. simpl in H.
      apply (f_equal (@length _)) in H. rewrite length_app in H.
      destruct (enc []); [reflexivity|simpl in H; lia]. }
    rewrite He, !app_nil_r.
    repeat split; eauto. constructor.
  - cbn [is_nil negb]. rewrite <- Ht.
    rewrite write_spec, len_mk.
    rewrite (round_run kd _ _ _ bar _ s Hb).
    set (chunk' := take (Z.to_nat n) R) in *.
    set (s1 := after_round kd (enc chunk') (Z.of_nat (length chunk'))
                 (basename p) bar s).
    assert (Hfs1 : st_fs s1 = <[kd := File r w (d ++ enc chunk')]> (st_fs s)).
    { unfold s1, after_round, append_to. cbn [st_fs]. now rewrite Hd. }
    assert (Hlen : (0 < length chunk' <= Z.to_nat n)%nat
                   /\ (length chunk' <= length R)%nat).
    { split; [split|]; [rewrite Ht; simpl; lia| |];
        unfold chunk'; rewrite length_take; lia. }
    destruct Hlen as [Hlen HlenR].
    destruct (IH rd' (drop (Z.to_nat n) R) s1 r w (d ++ enc chunk')
                {| bar_total := bar_total bar;
                   bar_n := (bar_n bar + Z.of_nat (length chunk'))%Z;
                   bar_desc := basename p |} p)
      as (s' & evs & Hrun & Hr & Ht' & Hkd & Hother & Hin & Hbar & Hp' & Hn').
    + exact HI'.
    + unfold content_of. rewrite Hfs1, lookup_insert_ne by auto. exact Hc.
    + rewrite Hfs1. apply lookup_insert_eq.
    + reflexivity.
    + exact Hp.
    + exact Hn.
    + rewrite length_drop. lia.
    + exists s', (FileWrite kd (enc chunk')
                  :: BarUpdate (Z.of_nat (length chunk'))
                  :: BarDescribe (basename p) :: evs).
      split; [exact Hrun|].
      split.
      { rewrite <- (take_drop (Z.to_nat n) R) at 1.
        constructor; [rewrite Ht; discriminate|lia|exact Hr]. }
      split.
      { rewrite Ht'. unfold s1, after_round. cbn [st_trace].
        now rewrite <- app_assoc. }
      split.
      { rewrite Hkd, <- app_assoc, <- enc_app.
        unfold chunk'. now rewrite take_drop. }
      split.
      { intros k Hk. rewrite (Hother k Hk), Hfs1.
        apply lookup_insert_ne. auto. }
      split; [exact Hin|]. split; [exact Hbar|]. auto.
Qed.
End CopyLoop.

Lemma drop_length_take {A} (k : nat) (l : list A) :
  drop (length (take k l)) l = drop k l.
Proof.
  rewrite length_take. destruct (le_lt_dec k (length l)).
  - now rewrite Nat.min_l by lia.
  - rewrite Nat.min_r by lia. now rewrite !drop_ge by lia.
Qed.

Lemma fits_ssize_t_true n :
  (- 2 ^ 63 <= n < 2 ^ 63)%Z -> fits_ssize_t n = true.
Proof.
  intros H. unfold fits_ssize_t. apply andb_true_iff.
  split; [apply Z.leb_le|apply Z.ltb_lt]; lia.
Qed.

Lemma read_bytes_left ks c n rd R s :
  (0 < n < 2 ^ 63)%Z ->
  bytes_left ks c rd R -> content_of (st_fs s) ks = c ->
  exists rd',
    read rd n s = Some (Ret (Bytes (take (Z.to_nat n) R), rd'), s)
    /\ bytes_left ks c rd' (drop (Z.to_nat n) R).
Proof.
  intros Hn (pos & -> & ->) Hc.
  unfold read. rewrite fits_ssize_t_true by lia.
  unfold bind, gets, lift, ret. rewrite Hc. unfold bytes_read.
  replace (n <? -1)%Z with false by lia.
  replace (n =? -1)%Z with false by lia.
  eexists. split; [reflexivity|].
  eexists. split; [reflexivity|]. cbn [snd].
  now rewrite <- drop_drop, drop_length_take.
Qed.

Lemma read_text_left ks c n rd R s :
  (0 < n < 2 ^ 63)%Z ->
  text_left ks c rd R -> content_of (st_fs s) ks = c ->
  exists rd',
    read rd n s = Some (Ret (Str (take (Z.to_nat n) R), rd'), s)
    /\ text_left ks c rd' (drop (Z.to_nat n) R).
Proof.
  intros Hn (f & -> & Hs & <-) Hc.
  unfold read. rewrite fits_ssize_t_true by lia.
  unfold bind, gets, lift, ret. rewrite Hc.
  destruct (text_read_sound c n f Hs) as (f' & -> & Hs' & Hr').
  unfold take_z, drop_z in *.
  replace (n <? 0)%Z with false in * by lia.
  eexists. split; [reflexivity|].
  exists f'. auto.
Qed.

Lemma text_bytes_app a b : text_bytes (a ++ b) = text_bytes a ++ text_bytes b.
Proof. unfold text_bytes, write_translate, encode_utf8. apply concat_app. Qed.

(** The text of a well-formed file. *)
Lemma rest_text_open c text :
  decode_utf8 c = Some text ->
  rest_text c text_open = universal_newlines text.
Proof.
  unfold decode_utf8, utf8_decode, rest_text, rest_chars.
  cbn [text_open t_decoded t_pendingcr t_pending t_pos app]. rewrite drop_0.
  destruct (utf8_scan [] c) as [[cs p]|]; [|discriminate].
  destruct (true && negb (bool_decide (p = []))); [discriminate|].
  intros [= <-]. now rewrite newline_decode_final.
Qed.

Lemma utf8_valid_decode c :
  utf8_valid c = true -> exists text, decode_utf8 c = Some text.
Proof.
  unfold utf8_valid, decode_utf8.
  destruct (utf8_decode [] c true) as [[cs p]|]; [eauto|discriminate].
Qed.

(** ** A whole copy *)

Lemma copy_file_proceeds fuel src dest s s0 :
  proceeds dest s s0 ->
  copy_file fuel src dest s = copy_file_body fuel src dest s0.
Proof.
  intros [Hex|junk r rest Hex Hin Hj Hr]; rewrite copy_file_unfold;
    unfold bind at 1, os_path_exists, gets at 1; rewrite Hex.
  - reflexivity.
  - unfold bind at 1, bind at 1, gets.
    rewrite (conflict_loop_answer dest s junk r rest Hj); auto.
    + unfold answer. rewrite Hr. reflexivity.
    + unfold recognised. rewrite Hr. reflexivity.
Qed.

Lemma proceeds_fs dest s s0 : proceeds dest s s0 -> st_fs s0 = st_fs s.
Proof. now intros []. Qed.

Lemma proceeds_self dest s s0 : proceeds dest s s0 -> st_self s0 = st_self s.
Proof. now intros []. Qed.

Lemma open_for_read_inv fs p k :
  open_for_read fs p = Ret k ->
  exists w, stat fs p = Ret (k, File true w (content_of fs k)).
Proof.
  unfold open_for_read. destruct (stat fs p) as [[k' nd]|e] eqn:E;
    [|discriminate].
  destruct nd as [[] w c'| |]; try discriminate. intros [= ->].
  exists w. f_equal. f_equal.
  unfold stat in E. destruct (follow fs MAXSYMLINKS p); [|discriminate].
  destruct (fs !! s) eqn:E'; [|discriminate]. injection E as -> ->.
  unfold content_of. now rewrite E'.
Qed.

Lemma open_for_write_inv fs p k fs1 :
  open_for_write fs p = Ret (k, fs1) ->
  exists r, fs1 = <[k := File r true []]> fs.
Proof.
  unfold open_for_write. destruct (follow fs MAXSYMLINKS p); [|discriminate].
  destruct (fs !! s) as [[r [] c'| |]|]; try discriminate.
  - intros [= -> <-]. eauto.
  - destruct (parent_is_dir fs s); [|discriminate]. intros [= -> <-]. eauto.
Qed.

Lemma bind_run {A B} (m : M A) (k : A -> M B) s a s' :
  m s = Some (Ret a, s') -> bind m k s = k a s'.
Proof. intros H. unfold bind. now rewrite H. Qed.

Lemma try_except_ret {A} (body : M A) class handler s a s' :
  body s = Some (Ret a, s') ->
  try_except body class handler s = Some (Ret a, s').
Proof. intros H. unfold try_except. now rewrite H. Qed.

Lemma init_bar_run s p z :
  _curr_path (st_self s) = Some p ->
  getsize (st_fs s) p = Ret z ->
  init_bar s = Some (Ret tt, with_new_bar z p s).
Proof.
  intros Hp Hz.
  unfold init_bar, os_path_getsize, tqdm_new, set_bar, emit, modify, lift,
    bind, gets. rewrite Hp, Hz. reflexivity.
Qed.

Lemma close_bar_run s bar :
  _bar (st_self s) = Some bar ->
  close_bar s = Some (Ret tt, with_closed_bar bar s).
Proof.
  intros Hb. unfold close_bar, with_closed_bar, set_bar, emit, modify, bind,
    gets. rewrite Hb. destruct (tqdm_bool bar); reflexivity.
Qed.

Lemma utf8_scan_length bs : forall cur cs p,
  utf8_scan cur bs = Some (cs, p) -> (length cs <= length bs)%nat.
Proof.
  induction bs as [|b bs IH]; intros cur cs p; simpl.
  - intros [= <- <-]. simpl. lia.
  - destruct (classify (cur ++ [b])); [| |discriminate].
    + destruct (utf8_scan [] bs) as [[cs' p']|] eqn:E; [|discriminate].
      intros [= <- <-]. simpl. apply IH in E. lia.
    + intros H. apply IH in H. lia.
Qed.

Lemma decode_utf8_length c text :
  decode_utf8 c = Some text -> (length text <= length c)%nat.
Proof.
  unfold decode_utf8, utf8_decode. simpl.
  destruct (utf8_scan [] c) as [[cs p]|] eqn:E; [|discriminate].
  destruct (bool_decide (p = [])); simpl; [|discriminate].
  intros [= <-]. exact (utf8_scan_length _ _ _ _ E).
Qed.

Lemma universal_newlines_length s :
  (length (universal_newlines s) <= length s)%nat.
Proof.
  induction s as [| c | c c' s IHs IHc] using str_ind2.
  - simpl. lia.
  - destruct (decide (c = CR)) as [->|Hc].
    + simpl. lia.
    + rewrite universal_newlines_other by assumption. simpl. lia.
  - destruct (decide (c = CR)) as [->|Hc].
    + destruct (decide (c' = LF)) as [->|Hc'].
      * rewrite universal_newlines_CR_LF. simpl in *. lia.
      * rewrite universal_newlines_CR by assumption. simpl in *. lia.
    + rewrite universal_newlines_other by assumption. simpl in *. lia.
Qed.

(** A copy that goes through, from the prompt to the success message. *)
Lemma copy_file_run fuel s s0 src dest ks kd fs1 :
  proceeds dest s s0 ->
  open_for_read (st_fs s) src = Ret ks ->
  open_for_write (st_fs s) dest = Ret (kd, fs1) ->
  ks <> kd ->
  (0 < chunk_size (st_self s) < 2 ^ 63)%Z ->
  (length (content_of (st_fs s) ks) < fuel)%nat ->
  decoding_fails (content_of (st_fs s) ks) = true
  \/ utf8_valid (content_of (st_fs s) ks) = true ->
  let c := content_of (st_fs s) ks in
  let n := Z.to_nat (chunk_size (st_self s)) in
  exists s' evs,
    copy_file fuel src dest s = Some (Ret tt, s')
    /\ st_trace s' =
       st_trace s0
       ++ BarOpen (Z.of_nat (length c)) (basename src)
          :: evs
          ++ (if (0 <? Z.of_nat (length c))%Z then [BarClose] else [])
          ++ [Log INFO (success_copying src dest)]
    /\ (forall k, k <> kd -> st_fs s' !! k = st_fs s !! k)
    /\ if decoding_fails c
       then rounds (fun l => l) n kd (basename src) c evs
            /\ content_of (st_fs s') kd = c
       else exists text,
              decode_utf8 c = Some text
              /\ rounds text_bytes n kd (basename src)
                   (universal_newlines text) evs
              /\ content_of (st_fs s') kd
                 = encode_utf8 (universal_newlines text).
Proof.
  intros Hp Hr Hw Hne Hn Hf Hmode c n.
  rewrite (copy_file_proceeds _ _ _ _ _ Hp).
  pose proof (proceeds_fs _ _ _ Hp) as Hfs0.
  pose proof (proceeds_self _ _ _ Hp) as Hself0.
  destruct (open_for_read_inv _ _ _ Hr) as (w & Hstat).
  destruct (open_for_write_inv _ _ _ _ Hw) as (r & ->).
  set (s1 := set_self (with_curr_path src (st_self s0)) s0).
  set (s2 := with_new_bar (Z.of_nat (length c)) src s1).
  set (s3 := set_fs (<[kd := File r true []]> (st_fs s)) s2).
  assert (Hinit : init_bar s1 = Some (Ret tt, s2)).
  { apply init_bar_run; [reflexivity|].
    unfold getsize. cbn [st_fs s1 set_self]. now rewrite Hfs0, Hstat. }
  assert (Hfs2 : st_fs s2 = st_fs s) by exact Hfs0.
  assert (Hbin : is_binary src s2 = Some (Ret (decoding_fails c), s2)).
  { rewrite (is_binary_run s2 src ks) by (now rewrite Hfs2).
    now rewrite Hfs2. }
  assert (Hor : forall b, open_read src b s2
                = Some (Ret (if b then BufferedReader ks 0
                             else TextReader ks text_open), s2)).
  { intros b. unfold open_read, bind, gets, lift, ret.
    now rewrite Hfs2, Hr. }
  assert (How : forall b, open_write dest b s2
                = Some (Ret (if b then BufferedWriter kd
                             else TextWriter kd), s3)).
  { intros b. unfold open_write, bind, gets, lift, ret, modify.
    now rewrite Hfs2, Hw. }
  assert (Hc3 : content_of (st_fs s3) ks = c).
  { unfold content_of. cbn [st_fs s3 set_fs].
    now rewrite lookup_insert_ne by auto. }
  assert (Hkd3 : st_fs s3 !! kd = Some (File r true [])).
  { cbn [st_fs s3 set_fs]. apply lookup_insert_eq. }
  assert (Hn3 : chunk_size (st_self s3) = chunk_size (st_self s)).
  { cbn. now rewrite Hself0. }
  unfold copy_file_body.
  rewrite (bind_run _ _ s0 tt s1) by reflexivity.
  rewrite (bind_run _ _ s1 tt s2 Hinit).
  rewrite (bind_run _ _ s2 _ s2 Hbin).
  destruct (decoding_fails c) eqn:Hb.
  - (* binary mode *)
    destruct (copy_loop_run Bytes (fun l => l) ks kd c
                (chunk_size (st_self s)) (BufferedWriter kd)
                (bytes_left ks c) (proj1 Hn) Hne)
      with (fuel := fuel) (rd := BufferedReader ks 0) (R := c) (s := s3)
           (r := r) (w := true) (d := @nil byte)
           (bar := {| bar_total := Z.of_nat (length c); bar_n := 0;
                      bar_desc := basename src |}) (p := src)
      as (s4 & evs & Hloop & Hrounds & Ht4 & Hkd4 & Hother4 & Hin4
          & (bar' & Hbar4 & Htot) & Hp4 & Hn4); auto.
    + intros rd R s' HI. apply read_bytes_left; auto.
    + exists 0%nat. split; [reflexivity|]. now rewrite drop_0.
    + eexists _, evs. split.
      * apply try_except_ret.
        rewrite (bind_run _ _ s2 _ s2 (Hor true)).
        rewrite (bind_run _ _ s2 _ s3 (How true)).
        rewrite (bind_run _ _ s3 tt s4 Hloop).
        rewrite (bind_run _ _ s4 tt _ (close_bar_run s4 bar' Hbar4)).
        reflexivity.
      * unfold logger_info, emit, modify, with_closed_bar, tqdm_bool.
        rewrite Htot. cbn [bar_total].
        split; [|split; [|split]].
        -- destruct (0 <? Z.of_nat (length c))%Z; cbn; rewrite Ht4; cbn;
             rewrite <- !app_assoc; reflexivity.
        -- intros k Hk.
           destruct (0 <? Z.of_nat (length c))%Z; cbn;
             rewrite (Hother4 k Hk); cbn;
             now rewrite lookup_insert_ne by auto.
        -- exact Hrounds.
        -- unfold content_of.
           destruct (0 <? Z.of_nat (length c))%Z; cbn; now rewrite Hkd4.
  - (* text mode *)
    destruct Hmode as [Hmode|Hvalid];
      [change (decoding_fails c = true) in Hmode; congruence|].
    destruct (utf8_valid_decode _ Hvalid) as (text & Htext).
    pose proof (rest_text_open _ _ Htext) as Hrest.
    destruct (copy_loop_run Str text_bytes ks kd c
                (chunk_size (st_self s)) (TextWriter kd)
                (text_left ks c) (proj1 Hn) Hne)
      with (fuel := fuel) (rd := TextReader ks text_open)
           (R := universal_newlines text) (s := s3)
           (r := r) (w := true) (d := @nil byte)
           (bar := {| bar_total := Z.of_nat (length c); bar_n := 0;
                      bar_desc := basename src |}) (p := src)
      as (s4 & evs & Hloop & Hrounds & Ht4 & Hkd4 & Hother4 & Hin4
          & (bar' & Hbar4 & Htot) & Hp4 & Hn4); auto.
    + apply text_bytes_app.
    + intros rd R s' HI. apply read_text_left; auto.
    + exists text_open. split; [reflexivity|].
      split; [now apply sound_text_open|exact Hrest].
    + pose proof (universal_newlines_length text).
      pose proof (decode_utf8_length _ _ Htext). lia.
    + eexists _, evs. split.
      * apply try_except_ret.
        rewrite (bind_run _ _ s2 _ s2 (Hor false)).
        rewrite (bind_run _ _ s2 _ s3 (How false)).
        rewrite (bind_run _ _ s3 tt s4 Hloop).
        rewrite (bind_run _ _ s4 tt _ (close_bar_run s4 bar' Hbar4)).
        reflexivity.
      * unfold logger_info, emit, modify, with_closed_bar, tqdm_bool.
        rewrite Htot. cbn [bar_total].
        split; [|split].
        -- destruct (0 <? Z.of_nat (length c))%Z; cbn; rewrite Ht4; cbn;
             rewrite <- !app_assoc; reflexivity.
        -- intros k Hk.
           destruct (0 <? Z.of_nat (length c))%Z; cbn;
             rewrite (Hother4 k Hk); cbn;
             now rewrite lookup_insert_ne by auto.
        -- exists text. split; [exact Htext|]. split; [exact Hrounds|].
           unfold content_of.
           destruct (0 <? Z.of_nat (length c))%Z; cbn; now rewrite Hkd4.
Qed.

Lemma bind_raise {A B} (m : M A) (k : A -> M B) s e s' :
  m s = Some (Raise e, s') -> bind m k s = Some (Raise e, s').
Proof. intros H. unfold bind. now rewrite H. Qed.


(** ** A copy in text mode that goes through had a well-formed source *)

Lemma take_more {A} (pos k : nat) (l : list A) :
  take (pos + length (take k (drop pos l))) l
  = take pos l ++ take k (drop pos l).
Proof.
  rewrite <- take_take_drop. f_equal.
  rewrite length_take. destruct (le_lt_dec k (length (drop pos l))).
  - now rewrite Nat.min_l by lia.
  - rewrite Nat.min_r by lia. now rewrite !take_ge by lia.
Qed.

Lemma read_chunk_consumed c f more f' :
  consumed c f ->
  read_chunk c f = Ret (more, f') ->
  consumed c f' /\ (more = false -> utf8_valid c = true).
Proof.
  intros (Hheld & Hpos & cs & Hscan). unfold read_chunk.
  rewrite (utf8_decode_held _ _ _ Hheld).
  set (input := take TEXT_CHUNK_SIZE (drop (t_pos f) c)).
  destruct (utf8_scan (t_pending f) input) as [[cs1 p1]|] eqn:E1;
    [|discriminate].
  destruct (is_nil input && negb (bool_decide (p1 = []))) eqn:Hfin;
    [discriminate|].
  destruct (newline_decode _ _ _) as [out cr]. intros [= <- <-].
  assert (Hlen : (t_pos f + length input <= length c)%nat).
  { unfold input. rewrite length_take, length_drop. lia. }
  assert (Hscan' : utf8_scan [] (take (t_pos f + length input) c)
                   = Some (cs ++ cs1, p1)).
  { unfold input. rewrite take_more, utf8_scan_app, Hscan.
    fold input. now rewrite E1. }
  split.
  - split; [exact (utf8_scan_held _ _ _ _ Hheld E1)|].
    split; [exact Hlen|]. exists (cs ++ cs1). exact Hscan'.
  - intros Heof%negb_false_iff. rewrite Heof in Hfin. simpl in Hfin.
    apply negb_false_iff, bool_decide_eq_true in Hfin. subst p1.
    apply is_nil_true in Heof.
    assert (Hd : drop (t_pos f) c = [])
      by (apply (take_nil_inv _ _ TEXT_CHUNK_SIZE_pos Heof)).
    apply utf8_valid_scan. exists (cs ++ cs1).
    etransitivity; [|exact Hscan']. f_equal. symmetry. apply take_ge.
    apply (f_equal (@length _)) in Hd. rewrite length_drop in Hd.
    simpl in Hd. lia.
Qed.

Lemma read_loop_consumed c fuel : forall size result f res f',
  consumed c f ->
  read_loop fuel c size result f = Some (Ret (res, f')) ->
  consumed c f' /\ ((length res < size)%nat -> utf8_valid c = true).
Proof.
  induction fuel as [|fuel IH]; intros size result f res f' Hc;
    cbn [read_loop]; destruct (size <=? length result)%nat eqn:Hle.
  - intros [= <- <-]. apply Nat.leb_le in Hle. split; [exact Hc|lia].
  - discriminate.
  - intros [= <- <-]. apply Nat.leb_le in Hle. split; [exact Hc|lia].
  - destruct (read_chunk c f) as [[more f1]|e] eqn:E; [|discriminate].
    destruct (read_chunk_consumed _ _ _ _ Hc E) as [Hc1 Hv].
    destruct more.
    + apply IH. exact Hc1.
    + intros [= <- <-]. split; [exact Hc1|]. intros _. now apply Hv.
Qed.

Lemma text_read_consumed c size f res f' :
  (0 < size)%Z ->
  consumed c f ->
  text_read c size f = Some (Ret (res, f')) ->
  consumed c f' /\ (res = [] -> utf8_valid c = true).
Proof.
  intros Hn Hc. unfold text_read. replace (size <? 0)%Z with false by lia.
  intros H. apply read_loop_consumed in H; [|exact Hc].
  destruct H as [Hc' Hv]. split; [exact Hc'|].
  intros ->. apply Hv. simpl. lia.
Qed.

Lemma consumed_text_open c : consumed c text_open.
Proof.
  split; [apply held_nil|]. split; [simpl; lia|].
  exists []. reflexivity.
Qed.

Lemma content_of_append_to_ne fs k k' bs :
  k <> k' -> content_of (append_to fs k' bs) k = content_of fs k.
Proof.
  intros Hne. unfold content_of, append_to.
  destruct (fs !! k') as [[r w c'| |]|]; try reflexivity.
  now rewrite lookup_insert_ne by auto.
Qed.

(** The loop in text mode comes to its end only at the end of a
    well-formed file. *)
Lemma copy_loop_text_completes ks kd c fuel : forall f s s',
  ks <> kd ->
  consumed c f ->
  content_of (st_fs s) ks = c ->
  (0 < chunk_size (st_self s))%Z ->
  copy_loop fuel (TextReader ks f) (TextWriter kd) s = Some (Ret tt, s') ->
  utf8_valid c = true.
Proof.
  induction fuel as [|fuel IH]; intros f s s' Hne Hc Hcont Hn;
    [discriminate|].
  cbn [copy_loop]. unfold bind at 1, gets at 1.
  unfold bind at 1, read.
  destruct (fits_ssize_t (chunk_size (st_self s))); [|discriminate].
  unfold bind at 1, gets at 1. rewrite Hcont.
  destruct (text_read c (chunk_size (st_self s)) f) as [[[res f']|e]|] eqn:E;
    [| discriminate | discriminate].
  unfold lift, bind, ret. cbn [fst snd truthy].
  destruct (text_read_consumed _ _ _ _ _ Hn Hc E) as [Hc' Hv].
  destruct res as [|u res]; [intros _; now apply Hv|].
  cbn [is_nil negb write write_bytes].
  unfold write_bytes, bar_update, bar_set_description, set_bar, emit, modify,
    gets, bind, no_attribute, raise. cbn.
  destruct (_bar (st_self s)) as [bar|]; [|discriminate]. cbn.
  apply IH; auto.
  cbn. rewrite content_of_append_to_ne by exact Hne. exact Hcont.
Qed.

Lemma try_except_ext {A} (body body' : M A) class handler s s' :
  body s = body' s' ->
  try_except body class handler s = try_except body' class handler s'.
Proof. intros H. unfold try_except. now rewrite H. Qed.

Lemma close_bar_total s : exists s', close_bar s = Some (Ret tt, s').
Proof.
  unfold close_bar, set_bar, emit, modify, bind, gets, ret.
  destruct (_bar (st_self s)) as [bar|]; [|eauto].
  destruct (tqdm_bool bar); eauto.
Qed.

(** From the call of [copy_file] to the loop: the prompt lets the copy go
    on, the bar is opened, the probe is made and both files are opened. *)
Lemma copy_file_reaches_loop fuel s s0 src dest ks kd fs1 :
  proceeds dest s s0 ->
  open_for_read (st_fs s) src = Ret ks ->
  open_for_write (st_fs s) dest = Ret (kd, fs1) ->
  let c := content_of (st_fs s) ks in
  let b := decoding_fails c in
  exists s3,
    copy_file fuel src dest s
    = try_except
        (copy_loop fuel
           (if b then BufferedReader ks 0 else TextReader ks text_open)
           (if b then BufferedWriter kd else TextWriter kd) ;;
         close_bar ;;
         logger_info (success_copying src dest))
        is_Exception
        (fun e => close_bar ;; logger_error (error_copying src dest e))
        s3
    /\ st_fs s3 = fs1
    /\ chunk_size (st_self s3) = chunk_size (st_self s).
Proof.
  intros Hp Hr Hw c b.
  rewrite (copy_file_proceeds _ _ _ _ _ Hp).
  pose proof (proceeds_fs _ _ _ Hp) as Hfs0.
  pose proof (proceeds_self _ _ _ Hp) as Hself0.
  destruct (open_for_read_inv _ _ _ Hr) as (w & Hstat).
  set (s1 := set_self (with_curr_path src (st_self s0)) s0).
  set (s2 := with_new_bar (Z.of_nat (length c)) src s1).
  set (s3 := set_fs fs1 s2).
  assert (Hfs2 : st_fs s2 = st_fs s) by exact Hfs0.
  assert (Hinit : init_bar s1 = Some (Ret tt, s2)).
  { apply init_bar_run; [reflexivity|].
    unfold getsize. cbn [st_fs s1 set_self]. now rewrite Hfs0, Hstat. }
  assert (Hbin : is_binary src s2 = Some (Ret b, s2)).
  { rewrite (is_binary_run s2 src ks) by (now rewrite Hfs2).
    now rewrite Hfs2. }
  assert (Hor : open_read src b s2
                = Some (Ret (if b then BufferedReader ks 0
                             else TextReader ks text_open), s2)).
  { unfold open_read, bind, gets, lift, ret. now rewrite Hfs2, Hr. }
  assert (How : open_write dest b s2
                = Some (Ret (if b then BufferedWriter kd
                             else TextWriter kd), s3)).
  { unfold open_write, bind, gets, lift, ret, modify.
    now rewrite Hfs2, Hw. }
  exists s3. split; [|split; [reflexivity|cbn; now rewrite Hself0]].
  unfold copy_file_body.
  rewrite (bind_run _ _ s0 tt s1) by reflexivity.
  rewrite (bind_run _ _ s1 tt s2 Hinit).
  rewrite (bind_run _ _ s2 _ s2 Hbin).
  apply try_except_ext.
  rewrite (bind_run _ _ s2 _ s2 Hor).
  rewrite (bind_run _ _ s2 _ s3 How). reflexivity.
Qed.

(** A copy that ends with the success message was made in binary mode or
    from a source that is well-formed UTF-8. *)
Lemma copy_file_completes_mode fuel s s0 src dest ks kd fs1 s' :
  proceeds dest s s0 ->
  open_for_read (st_fs s) src = Ret ks ->
  open_for_write (st_fs s) dest = Ret (kd, fs1) ->
  ks <> kd ->
  (0 < chunk_size (st_self s))%Z ->
  copy_file fuel src dest s = Some (Ret tt, s') ->
  last (st_trace s') = Some (Log INFO (success_copying src dest)) ->
  decoding_fails (content_of (st_fs s) ks) = true
  \/ utf8_valid (content_of (st_fs s) ks) = true.
Proof.
  intros Hp Hr Hw Hne Hn Hrun Hlast.
  destruct (decoding_fails (content_of (st_fs s) ks)) eqn:Hb; [now left|].
  right.
  destruct (copy_file_reaches_loop fuel s s0 src dest ks kd fs1 Hp Hr Hw)
    as (s3 & Heq & Hfs3 & Hn3).
  cbv zeta in Heq. rewrite Hb in Heq. rewrite Heq in Hrun. clear Heq.
  unfold try_except, bind at 1 in Hrun.
  destruct (copy_loop fuel (TextReader ks text_open) (TextWriter kd) s3)
    as [[[[]|e] s4]|] eqn:El.
  - apply (copy_loop_text_completes ks kd _ fuel text_open s3 s4 Hne).
    + apply consumed_text_open.
    + rewrite Hfs3. destruct (open_for_write_inv _ _ _ _ Hw) as (r & ->).
      unfold content_of. now rewrite lookup_insert_ne by auto.
    + now rewrite Hn3.
    + exact El.
  - destruct (is_Exception e); [|discriminate].
    unfold bind, logger_error, emit, modify in Hrun.
    destruct (close_bar_total s4) as (s5 & Hcl). rewrite Hcl in Hrun.
    injection Hrun as <-. cbn [st_trace add_event] in Hlast.
    rewrite last_snoc in Hlast. discriminate.
  - discriminate.
Qed.

(** ** The bytes of the destination *)

Lemma universal_newlines_no_CR (s : list char) :
  ~ In CR s -> universal_newlines s = s.
Proof.
  induction s as [|c s IH]; intros Hn; [reflexivity|].
  rewrite universal_newlines_other by (intros ->; apply Hn; now left).
  rewrite IH; [reflexivity|]. intros H. apply Hn. now right.
Qed.

Lemma CR_in_concat (s : list char) : In CR s -> In x0d (concat s).
Proof.
  induction s as [|c s IH]; simpl; [auto|].
  intros [->|H]; apply in_or_app; [left; now left|right; auto].
Qed.

(** C2 at a text with a carriage return: [copy_file] reports the copy of
    [src.txt] as done, and the destination has a line feed where the
    source has the carriage return; the binary path writes the bytes it
    read.  Two more inputs end the same way: with a chunk size of zero
    the first read is empty and the destination stays empty, and a file
    copied onto itself is emptied by the opening for writing. *)
Theorem copy_file_content_counterexample :
  (exists s',
      copy_file 10 "src.txt" "dst.txt" (init_state with_cr [] 4096)
      = Some (Ret tt, s')
      /\ last (st_trace s')
         = Some (Log INFO (success_copying "src.txt" "dst.txt"))
      /\ content_of (st_fs s') "src.txt" = [x61; x0d; x62]
      /\ content_of (st_fs s') "dst.txt" = [x61; x0a; x62])
  /\
  (exists s',
      copy_file 10 "src.bin" "out.bin" (init_state two_files [] 0)
      = Some (Ret tt, s')
      /\ last (st_trace s')
         = Some (Log INFO (success_copying "src.bin" "out.bin"))
      /\ content_of (st_fs s') "src.bin" = [xff; x00; x01; xfe]
      /\ content_of (st_fs s') "out.bin" = [])
  /\
  (exists s',
      copy_file 10 "src.bin" "src.bin" (init_state two_files ["o"] 4096)
      = Some (Ret tt, s')
      /\ last (st_trace s')
         = Some (Log INFO (success_copying "src.bin" "src.bin"))
      /\ content_of two_files "src.bin" = [xff; x00; x01; xfe]
      /\ content_of (st_fs s') "src.bin" = []).
Proof.
  repeat split; eexists;
    (split; [vm_compute; reflexivity|]);
    repeat split; vm_compute; reflexivity.
Qed.

(** ** The chunks of a copy *)

(** The scenario of the ten digits: with chunks of 4 there are three
    writes, of 4, 4 and 2 bytes, and the bar ends at 10. *)
Example copy_file_ten_digits :
  exists s',
    copy_file 11 "src.txt" "dst.txt" (init_state digits [] 4)
    = Some (Ret tt, s')
    /\ st_trace s' =
       [BarOpen 10 "src.txt";
        FileWrite "dst.txt" (bytes_of "0123");
        BarUpdate 4; BarDescribe "src.txt";
        FileWrite "dst.txt" (bytes_of "4567");
        BarUpdate 4; BarDescribe "src.txt";
        FileWrite "dst.txt" (bytes_of "89");
        BarUpdate 2; BarDescribe "src.txt";
        BarClose;
        Log INFO (success_copying "src.txt" "dst.txt")]
    /\ progress 0 (st_trace s') = 10%Z
    /\ content_of (st_fs s') "dst.txt" = bytes_of "0123456789".
Proof.
  eexists. split; [vm_compute; reflexivity|].
  repeat split; vm_compute; reflexivity.
Qed.

(** C7 at a text with characters of two bytes.  The chunk size is a
    number of bytes and the bar counts bytes: its total is the size of the
    file.  With a chunk size of 4 the eight bytes of [src.txt], four
    characters, go out in one write of 8 bytes, and the bar, whose total
    is 8, is moved by 4 and ends there; in binary mode the same loop
    writes at most 4 bytes at a time and moves the bar by the bytes
    written. *)
Theorem copy_file_chunks_counterexample :
  exists s',
    copy_file 9 "src.txt" "dst.txt" (init_state accents [] 4)
    = Some (Ret tt, s')
    /\ st_trace s' =
       [BarOpen 8 "src.txt";
        FileWrite "dst.txt" (concat (repeat [xc3; xa9] 4));
        BarUpdate 4; BarDescribe "src.txt";
        BarClose;
        Log INFO (success_copying "src.txt" "dst.txt")]
    /\ (4 < length (concat (repeat [xc3; xa9] 4)))%nat
    /\ progress 0 (st_trace s') = 4%Z.
Proof.
  eexists. split; [vm_compute; reflexivity|].
  split; [vm_compute; reflexivity|].
  split; [vm_compute; lia|vm_compute; reflexivity].
Qed.

(** ** Every copy comes to an end, and asks when the destination is there *)

Lemma utf8_scan_count bs : forall cur cs p,
  utf8_scan cur bs = Some (cs, p) ->
  (length cs + length p <= length cur + length bs)%nat.
Proof.
  induction bs as [|b bs IH]; intros cur cs p; cbn [utf8_scan].
  - intros [= <- <-]. cbn. lia.
  - destruct (classify (cur ++ [b])).
    + destruct (utf8_scan [] bs) as [[cs' p']|] eqn:E; [|discriminate].
      intros [= <- <-]. specialize (IH _ _ _ E). cbn in *. lia.
    + intros H. specialize (IH _ _ _ H). rewrite length_app in IH.
      cbn in *. lia.
    + discriminate.
Qed.

Lemma utf8_decode_count pending input final cs p :
  utf8_decode pending input final = Some (cs, p) ->
  (length cs + length p <= length pending + length input)%nat
  /\ (final = true -> p = []).
Proof.
  unfold utf8_decode.
  destruct (utf8_scan [] (pending ++ input)) as [[cs' p']|] eqn:E;
    [|discriminate].
  apply utf8_scan_count in E. rewrite length_app in E. cbn in E.
  destruct final; cbn [andb].
  - destruct (bool_decide_reflect (p' = [])) as [->|]; cbn [negb];
      [|discriminate].
    intros [= <- <-]. split; [cbn in *; lia|reflexivity].
  - intros [= <- <-]. split; [lia|discriminate].
Qed.

Lemma length_removelast {A} (l : list A) :
  l <> [] -> S (length (removelast l)) = length l.
Proof.
  intros H. destruct (exists_last H) as (l' & a & ->).
  rewrite removelast_last, length_app. cbn. lia.
Qed.

Lemma newline_decode_count cr x final :
  (length (fst (newline_decode cr x final))
   + (if snd (newline_decode cr x final) then 1 else 0)
   <= length x + (if cr then 1 else 0))%nat
  /\ (final = true -> snd (newline_decode cr x final) = false).
Proof.
  destruct final.
  - rewrite newline_decode_final. cbn [fst snd]. split; [|reflexivity].
    pose proof (universal_newlines_length (if cr then CR :: x else x)).
    destruct cr; cbn in *; lia.
  - rewrite newline_decode_more. split; [|discriminate].
    set (y := if cr && negb (is_nil x) then CR :: x else x).
    assert (Hy : (length y + (if cr && is_nil x then 1 else 0)
                  <= length x + (if cr then 1 else 0))%nat).
    { unfold y. destruct cr, x; cbn; lia. }
    cbv zeta. destruct (ends_with_CR y) eqn:E; cbn [fst snd].
    + pose proof (universal_newlines_length (removelast y)).
      assert (y <> []) by (intros ->; discriminate E).
      pose proof (length_removelast y H0). 
      destruct (cr && is_nil x); lia.
    + pose proof (universal_newlines_length y).
      destruct (cr && is_nil x); lia.
Qed.

Lemma read_chunk_count data f more f' :
  read_chunk data f = Ret (more, f') ->
  (text_left_to_read data f' + length (t_decoded f)
   <= text_left_to_read data f)%nat.
Proof.
  unfold read_chunk, text_left_to_read.
  set (input := take TEXT_CHUNK_SIZE (drop (t_pos f) data)).
  assert (Hin : (length input <= length data - t_pos f)%nat).
  { unfold input. rewrite length_take, length_drop. lia. }
  destruct (utf8_decode (t_pending f) input (is_nil input))
    as [[cs p]|] eqn:E; [|discriminate].
  apply utf8_decode_count in E as [E _].
  pose proof (newline_decode_count (t_pendingcr f) cs (is_nil input))
    as [N _].
  destruct (newline_decode (t_pendingcr f) cs (is_nil input)) as [out cr].
  intros [= <- <-]. cbn [t_decoded t_pos t_pending t_pendingcr fst snd] in *.
  lia.
Qed.

Lemma read_loop_count fuel : forall data size result f res f',
  read_loop fuel data size result f = Some (Ret (res, f')) ->
  (length res + text_left_to_read data f'
   <= length result + text_left_to_read data f)%nat.
Proof.
  induction fuel as [|fuel IH]; intros data size result f res f';
    cbn [read_loop].
  - destruct (size <=? length result)%nat; [|discriminate].
    intros [= <- <-]. lia.
  - destruct (size <=? length result)%nat; [intros [= <- <-]; lia|].
    destruct (read_chunk data f) as [[more f1]|e] eqn:E; [|discriminate].
    apply read_chunk_count in E.
    set (k := (size - length result)%nat).
    assert (Hsplit : (length (result ++ take k (t_decoded f1))
                      + text_left_to_read data
                          (set_decoded f1 (drop k (t_decoded f1)))
                      = length result + text_left_to_read data f1)%nat).
    { unfold text_left_to_read, set_decoded.
      cbn [t_decoded t_pos t_pending t_pendingcr].
      rewrite length_app.
      pose proof (take_drop k (t_decoded f1)) as Htd.
      apply (f_equal length) in Htd. rewrite length_app in Htd. lia. }
    destruct more.
    + intros H. apply IH in H. lia.
    + intros [= <- <-]. lia.
Qed.

Lemma text_read_count data size f res f' :
  text_read data size f = Some (Ret (res, f')) ->
  (length res + text_left_to_read data f' <= text_left_to_read data f)%nat.
Proof.
  unfold text_read. destruct (size <? 0)%Z.
  - destruct (utf8_decode (t_pending f) (drop (t_pos f) data) true)
      as [[cs p]|] eqn:E; [|discriminate].
    apply utf8_decode_count in E as [E Hp]. specialize (Hp eq_refl).
    pose proof (newline_decode_count (t_pendingcr f) cs true) as [N Hcr].
    specialize (Hcr eq_refl).
    destruct (newline_decode (t_pendingcr f) cs true) as [out cr].
    cbn [fst snd] in *. subst cr p.
    intros [= <- <-]. unfold text_left_to_read.
    cbn [t_decoded t_pos t_pending t_pendingcr length].
    rewrite length_app. rewrite length_drop in *. lia.
  - intros H. apply read_loop_count in H.
    revert H. unfold text_left_to_read, set_decoded.
    cbn [t_decoded t_pos t_pending t_pendingcr].
    pose proof (take_drop (Z.to_nat size) (t_decoded f)) as Htd.
    apply (f_equal length) in Htd. rewrite length_app in Htd. lia.
Qed.

Lemma ends_in_bind {A B} (m : M A) (k : A -> M B) s Q :
  ends_in m s (fun (r : res A) s' =>
    match r with
    | Ret a => ends_in (k a) s' Q
    | Raise e => Q (Raise e) s'
    end) ->
  ends_in (bind m k) s Q.
Proof.
  intros (r & s' & E & H). unfold ends_in, bind. rewrite E.
  destruct r as [a|e]; [exact H|eauto].
Qed.

Lemma ends_in_try_except {A} (body : M A) (class : exn -> bool) handler s Q :
  ends_in body s (fun (r : res A) s' =>
    match r with
    | Ret a => Q (Ret a) s'
    | Raise e => if class e then ends_in (handler e) s' Q
                 else Q (Raise e) s'
    end) ->
  ends_in (try_except body class handler) s Q.
Proof.
  intros (r & s' & E & H). unfold ends_in, try_except. rewrite E.
  destruct r as [a|e]; [eauto|].
  destruct (class e); [exact H|eauto].
Qed.

Lemma ends_in_weaken {A} (m : M A) s (P Q : res A -> state -> Prop) :
  ends_in m s P -> (forall r s', P r s' -> Q r s') -> ends_in m s Q.
Proof. intros (r & s' & E & H) W. exists r, s'. auto. Qed.

Lemma conflict_loop_ends fuel : forall dest s,
  (length (st_stdin s) <= fuel)%nat ->
  ends_in (conflict_loop fuel dest) s (same_files s).
Proof.
  induction fuel as [|fuel IH]; intros dest s Hf; unfold ends_in;
    (destruct (st_stdin s) as [|l rest] eqn:Hin;
     [rewrite (conflict_loop_eof _ _ _ Hin); eexists _, _;
      split; reflexivity|]);
    [simpl in Hf; lia|].
  rewrite (conflict_loop_round _ dest s l rest Hin). cbv zeta.
  destruct (String.eqb (lower l) "s"); [eexists _, _; split; reflexivity|].
  destruct (String.eqb (lower l) "e"); [eexists _, _; split; reflexivity|].
  destruct (String.eqb (lower l) "o"); [eexists _, _; split; reflexivity|].
  apply (IH dest (set_stdin rest
              (add_event (Input "> ")
                 (add_event (Print (duplicate_file_found dest)) s)))).
  simpl in *. lia.
Qed.

Lemma init_bar_ends s : ends_in init_bar s (same_files s).
Proof.
  unfold ends_in, init_bar, os_path_getsize, tqdm_new, set_bar, emit, modify,
    bind, gets, lift, ret, raise, same_files.
  destruct (_curr_path (st_self s)); [|eexists _, _; split; reflexivity].
  destruct (getsize (st_fs s) s0); eexists _, _; split; reflexivity.
Qed.

Lemma close_bar_ends s : ends_in close_bar s (same_files s).
Proof.
  unfold ends_in, close_bar, set_bar, emit, modify, bind, gets, ret,
    same_files.
  destruct (_bar (st_self s)) as [b|]; [|eexists _, _; split; reflexivity].
  destruct (tqdm_bool b); eexists _, _; split; reflexivity.
Qed.

Lemma bar_update_ends k s : ends_in (bar_update k) s (same_files s).
Proof.
  unfold ends_in, bar_update, no_attribute, set_bar, emit, modify, bind, gets,
    raise, same_files.
  destruct (_bar (st_self s)); eexists _, _; split; reflexivity.
Qed.

Lemma bar_set_description_ends d s :
  ends_in (bar_set_description d) s (same_files s).
Proof.
  unfold ends_in, bar_set_description, no_attribute, set_bar, emit, modify,
    bind, gets, raise, same_files.
  destruct (_bar (st_self s)); eexists _, _; split; reflexivity.
Qed.

(** A [read] ends and leaves the state as it is; what it returns is taken
    from what was left of the file. *)
Lemma read_ends rd n s :
  ends_in (read rd n) s (fun r s' =>
    s' = s /\
    match r with
    | Ret (buf, rd') =>
        reader_name rd' = reader_name rd
        /\ ((if truthy buf then 1 else 0)
            + left_to_read (content_of (st_fs s) (reader_name rd)) rd'
            <= left_to_read (content_of (st_fs s) (reader_name rd)) rd)%nat
    | Raise _ => True
    end).
Proof.
  unfold ends_in, read.
  destruct (fits_ssize_t n); [|eexists _, _; split; [reflexivity|auto]].
  unfold bind, gets, lift, ret.
  destruct rd as [k f|k pos]; cbn [reader_name].
  - destruct (text_read_total (content_of (st_fs s) k) n f) as (r & E & _).
    rewrite E. destruct r as [[res f']|e];
      eexists _, _; (split; [reflexivity|]); (split; [reflexivity|]);
      [|exact I].
    split; [reflexivity|]. apply text_read_count in E.
    cbn [left_to_read truthy]. destruct res; cbn in *; lia.
  - unfold bytes_read. destruct (n <? -1)%Z;
      eexists _, _; (split; [reflexivity|]); (split; [reflexivity|]);
      [exact I|].
    split; [reflexivity|]. cbn [left_to_read truthy fst snd].
    set (c := content_of (st_fs s) k).
    assert (H : forall got : list byte,
               (length got <= length c - pos)%nat ->
               ((if negb (is_nil got) then 1 else 0)
                + (length c - (pos + length got)) <= length c - pos)%nat).
    { intros [|b got]; cbn; lia. }
    apply H. destruct (n =? -1)%Z.
    + rewrite length_drop. lia.
    + rewrite length_take, length_drop. lia.
Qed.

Lemma write_ends wr buf s :
  ends_in (write wr buf) s (fun _ s' =>
    forall k, k <> writer_name wr ->
      content_of (st_fs s') k = content_of (st_fs s) k).
Proof.
  unfold ends_in, write, write_bytes, emit, modify, bind, gets, raise.
  destruct wr as [k|k], buf as [t|bs]; eexists _, _;
    (split; [reflexivity|]); cbn [writer_name st_fs add_event set_fs];
    intros k' Hk; auto using content_of_append_to_ne.
Qed.

(** The loop of the copy ends when its fuel is more than what is left of
    the source, which the writes do not reach: the two files differ, or
    nothing is left. *)
Lemma copy_loop_ends fuel : forall rd wr s,
  reader_name rd <> writer_name wr
  \/ left_to_read (content_of (st_fs s) (reader_name rd)) rd = 0%nat ->
  (left_to_read (content_of (st_fs s) (reader_name rd)) rd < fuel)%nat ->
  ends_in (copy_loop fuel rd wr) s (fun _ _ => True).
Proof.
  induction fuel as [|fuel IH]; intros rd wr s Hn Hf; [lia|].
  cbn [copy_loop]. apply ends_in_bind.
  eexists _, _. split; [reflexivity|]. apply ends_in_bind.
  eapply ends_in_weaken; [apply read_ends|].
  intros [[buf rd']|e] s1 [-> H]; [|exact I].
  destruct H as [Hname Hleft].
  destruct (truthy buf) eqn:Hb; [|eexists _, _; split; [reflexivity|exact I]].
  destruct Hn as [Hn|Hz]; [|lia].
  apply ends_in_bind. eapply ends_in_weaken; [apply write_ends|].
  intros [[]|e] s2 Hw; [|exact I]. specialize (Hw _ Hn).
  apply ends_in_bind. eapply ends_in_weaken; [apply bar_update_ends|].
  intros [[]|e] s3 H3; [|exact I].
  apply ends_in_bind.
  eapply ends_in_weaken; [apply bar_set_description_ends|].
  intros [[]|e] s4 H4; [|exact I].
  unfold same_files in *.
  apply IH; rewrite Hname, H4, H3, Hw.
  - left. exact Hn.
  - cbn [st_self] in *. lia.
Qed.

Lemma open_read_ends path binary s :
  ends_in (open_read path binary) s (fun r s' =>
    s' = s /\
    match r with
    | Ret rd =>
        open_for_read (st_fs s) path = Ret (reader_name rd)
        /\ forall c, left_to_read c rd = length c
    | Raise _ => True
    end).
Proof.
  unfold ends_in, open_read, bind, gets, lift, ret.
  destruct (open_for_read (st_fs s) path) as [k|e];
    eexists _, _; (split; [reflexivity|]); (split; [reflexivity|]);
    [|exact I].
  destruct binary; cbn; split; auto; intros c; lia.
Qed.

Lemma open_write_ends path binary s :
  ends_in (open_write path binary) s (fun r s' =>
    match r with
    | Ret wr =>
        forall k,
          (k <> writer_name wr
           /\ content_of (st_fs s') k = content_of (st_fs s) k)
          \/ content_of (st_fs s') k = []
    | Raise _ => True
    end).
Proof.
  unfold ends_in, open_write, bind, gets, lift, ret, modify.
  destruct (open_for_write (st_fs s) path) as [[kd fs1]|e] eqn:E;
    eexists _, _; (split; [reflexivity|]); [|exact I].
  intros k. cbn [fst snd st_fs set_fs].
  assert (Hwr : writer_name (if binary then BufferedWriter kd
                             else TextWriter kd) = kd)
    by (destruct binary; reflexivity).
  rewrite Hwr. clear Hwr.
  unfold open_for_write in E.
  destruct (follow (st_fs s) MAXSYMLINKS path) as [k0|]; [|discriminate].
  assert (Hins : forall r w,
    (k <> k0 /\ content_of (<[k0 := File r w []]> (st_fs s)) k
                = content_of (st_fs s) k)
    \/ content_of (<[k0 := File r w []]> (st_fs s)) k = []).
  { intros r w. unfold content_of. destruct (decide (k = k0)) as [->|Hk].
    - right. now rewrite lookup_insert_eq.
    - left. split; [exact Hk|]. now rewrite lookup_insert_ne by congruence. }
  destruct (st_fs s !! k0) as [[r [] c| |t]|].
  - injection E as <- <-. apply Hins.
  - discriminate.
  - discriminate.
  - discriminate.
  - destruct (parent_is_dir (st_fs s) k0); [|discriminate].
    injection E as <- <-. apply Hins.
Qed.

Lemma is_binary_ends path s : ends_in (is_binary path) s (same_files s).
Proof.
  unfold is_binary. apply ends_in_try_except. apply ends_in_bind.
  eapply ends_in_weaken; [apply open_read_ends|].
  intros [rd|e] s1 [-> H].
  - apply ends_in_bind. eapply ends_in_weaken; [apply read_ends|].
    intros [[buf rd']|e] s1 [-> _].
    + eexists _, _. split; reflexivity.
    + destruct (is_UnicodeDecodeError e);
        [eexists _, _; split; reflexivity|reflexivity].
  - destruct (is_UnicodeDecodeError e);
      [eexists _, _; split; reflexivity|reflexivity].
Qed.

(** [copy_file] ends whatever the files and the answers are, once the fuel
    of its loop is more than the size of the source. *)
Lemma copy_file_ends fuel src dest s :
  (source_size (st_fs s) src < fuel)%nat ->
  ends_in (copy_file fuel src dest) s (fun _ _ => True).
Proof.
  intros Hf. unfold copy_file. apply ends_in_bind.
  eexists _, _. split; [reflexivity|]. apply ends_in_bind.
  assert (Hprompt : ends_in
            (if exists_ (st_fs s) dest
             then lines <- gets st_stdin ;; conflict_loop (length lines) dest
             else ret Break) s (same_files s)).
  { destruct (exists_ (st_fs s) dest).
    - apply ends_in_bind. eexists _, _. split; [reflexivity|].
      apply conflict_loop_ends. lia.
    - eexists _, _. split; reflexivity. }
  eapply ends_in_weaken; [exact Hprompt|]. clear Hprompt.
  intros [[|]|e] s1 H1; [|eexists _, _; split; [reflexivity|exact I]|exact I].
  apply ends_in_bind. eexists _, _. split; [reflexivity|].
  apply ends_in_bind. eapply ends_in_weaken; [apply init_bar_ends|].
  intros [[]|e] s2 H2; [|exact I].
  apply ends_in_bind. eapply ends_in_weaken; [apply is_binary_ends|].
  intros [b|e] s3 H3; [|exact I].
  assert (Hfs : st_fs s3 = st_fs s).
  { unfold same_files in *. rewrite H3, H2. cbn [st_fs set_self]. exact H1. }
  clear H1 H2 H3.
  assert (Hhandler : forall e s',
    ends_in (close_bar ;; logger_error (error_copying src dest e)) s'
      (fun _ _ => True)).
  { intros e s'. apply ends_in_bind.
    eapply ends_in_weaken; [apply close_bar_ends|].
    intros [[]|e'] s'' _; [|exact I].
    eexists _, _. split; [reflexivity|exact I]. }
  assert (Hexc : forall e s',
    if is_Exception e
    then ends_in (close_bar ;; logger_error (error_copying src dest e)) s'
           (fun _ _ => True)
    else True).
  { intros e s'. destruct (is_Exception e); [apply Hhandler|exact I]. }
  apply ends_in_try_except. apply ends_in_bind.
  eapply ends_in_weaken; [apply open_read_ends|].
  intros [rd|e] s4 [-> H]; [|apply Hexc].
  destruct H as [Hopen Hleft].
  apply ends_in_bind. eapply ends_in_weaken; [apply open_write_ends|].
  intros [wr|e] s5 H5; [|apply Hexc].
  apply ends_in_bind.
  assert (Hsize : (length (content_of (st_fs s3) (reader_name rd)) < fuel)%nat).
  { unfold source_size in Hf. rewrite <- Hfs, Hopen in Hf. exact Hf. }
  assert (Hloop : ends_in (copy_loop fuel rd wr) s5 (fun _ _ => True)).
  { destruct (H5 (reader_name rd)) as [[Hn Hc]|Hc].
    - apply copy_loop_ends; [left; exact Hn|].
      rewrite Hc, Hleft. exact Hsize.
    - assert (Hz : left_to_read (content_of (st_fs s5) (reader_name rd)) rd
                   = 0%nat).
      { now rewrite Hc, Hleft. }
      apply copy_loop_ends; [right; exact Hz|lia]. }
  eapply ends_in_weaken; [exact Hloop|].
  intros [[]|e] s6 _; [|apply Hexc].
  apply ends_in_bind. eapply ends_in_weaken; [apply close_bar_ends|].
  intros [[]|e] s7 _; [|apply Hexc].
  eexists _, _. split; [reflexivity|exact I].
Qed.

(** What [os.path.exists] finds has a name. *)
Lemma exists_named fs p : exists_ fs p = true -> fs !! p <> None.
Proof.
  unfold exists_, stat. intros H Hp.
  assert (Hf : follow fs MAXSYMLINKS p = Some p)
    by (unfold MAXSYMLINKS; cbn [follow]; now rewrite Hp).
  rewrite Hf, Hp in H. discriminate.
Qed.

(** C4, as the code has it.  [copy_file] asks exactly when
    [os.path.exists] finds the destination: whenever a call returns, and a
    call does return, with a result and a state, once the fuel of its loop
    is more than the size of the source.  [link_file] always returns and
    never asks; on a destination that [os.path.exists] finds, [os.symlink]
    fails, the failure is what is logged, and no file changes. *)
Theorem prompt_iff_destination_exists :
  (forall fuel s src dest r s',
      copy_file fuel src dest s = Some (r, s') ->
      exists evs,
        st_trace s' = st_trace s ++ evs
        /\ existsb is_prompt evs = exists_ (st_fs s) dest)
  /\
  (forall fuel s src dest,
      (source_size (st_fs s) src < fuel)%nat ->
      exists r s' evs,
        copy_file fuel src dest s = Some (r, s')
        /\ st_trace s' = st_trace s ++ evs
        /\ existsb is_prompt evs = exists_ (st_fs s) dest)
  /\
  (forall s src dest,
      exists s' evs,
        link_file src dest s = Some (Ret tt, s')
        /\ st_trace s' = st_trace s ++ evs
        /\ existsb is_prompt evs = false
        /\ (exists_ (st_fs s) dest = true ->
            evs = [Log ERROR (failed_to_link src dest)]
            /\ st_fs s' = st_fs s)).
Proof.
  split; [|split].
  - intros fuel s src dest r s'. apply copy_file_prompt_trace.
  - intros fuel s src dest Hf.
    destruct (copy_file_ends fuel src dest s Hf) as (r & s' & E & _).
    destruct (copy_file_prompt_trace _ _ _ _ _ _ E) as (evs & T & P).
    exists r, s', evs. auto.
  - intros s src dest. rewrite link_file_run.
    destruct (symlink (st_fs s) src dest) as [fs'|e] eqn:E.
    + eexists _, [_]. split; [reflexivity|]. split; [reflexivity|].
      split; [reflexivity|]. intros Hex. apply exists_named in Hex.
      unfold symlink in E. destruct (st_fs s !! dest); [discriminate|].
      now destruct Hex.
    + eexists _, [_]. split; [reflexivity|]. split; [reflexivity|].
      split; [reflexivity|]. intros _. split; reflexivity.
Qed.

Lemma prompt_iff_destination_exists_witness :
  (source_size (st_fs (init_state two_files ["o"] 4096)) "src.bin" < 10)%nat
  /\ exists r s' evs,
       copy_file 10 "src.bin" "dest.bin" (init_state two_files ["o"] 4096)
       = Some (r, s')
       /\ st_trace s' = [] ++ evs
       /\ existsb is_prompt evs = true.
Proof.
  assert (H : (source_size (st_fs (init_state two_files ["o"] 4096))
                 "src.bin" < 10)%nat) by (vm_compute; lia).
  split; [exact H|].
  exact (proj1 (proj2 prompt_iff_destination_exists) 10
           (init_state two_files ["o"] 4096) "src.bin" "dest.bin" H).
Defined.

(** C4 fails as stated for [link_file]: the destination is there, and the
    call fails and logs without a question. *)
Lemma link_file_prompt_counterexample :
  let s := init_state
             (<["dest/c" := File true true (bytes_of "old")]> tree_A)
             ["o"] 4096 in
  exists_ (st_fs s) "dest/c" = true /\
  exists s',
    link_file "A/c" "dest/c" s = Some (Ret tt, s')
    /\ st_trace s' = [Log ERROR (failed_to_link "A/c" "dest/c")]
    /\ existsb is_prompt (st_trace s') = false
    /\ st_stdin s' = ["o"].
Proof.
  split; [vm_compute; reflexivity|]. eexists.
  split; [vm_compute; reflexivity|]. repeat split.
Qed.

(** ** How the file system changes *)

Lemma bind_inv {A B} (m : M A) (k : A -> M B) s r s' :
  bind m k s = Some (r, s') ->
  (exists a s1, m s = Some (Ret a, s1) /\ k a s1 = Some (r, s'))
  \/ (exists e, m s = Some (Raise e, s') /\ r = Raise e).
Proof.
  unfold bind. destruct (m s) as [[[a|e] s1]|]; intros H.
  - left. eauto.
  - right. injection H as <- <-. eauto.
  - discriminate.
Qed.

Lemma try_except_inv {A} (body : M A) class handler s r s' :
  try_except body class handler s = Some (r, s') ->
  body s = Some (r, s')
  \/ (exists e s1, body s = Some (Raise e, s1) /\ class e = true
                   /\ handler e s1 = Some (r, s')).
Proof.
  unfold try_except. destruct (body s) as [[[a|e] s1]|]; intros H; auto.
  destruct (class e) eqn:C; auto. right. eauto.
Qed.

(** A relation between file systems that every step of the program keeps
    holds between the file system before and after each of its functions.
    [R] is the relation and [W] the files that may be written to. *)
Section Changes.
Variable R : filesystem -> filesystem -> Prop.
Variable W : string -> Prop.
Hypothesis R_refl : forall fs, R fs fs.
Hypothesis R_trans : forall a b c, R a b -> R b c -> R a c.
Hypothesis R_append : forall fs k bs, W k -> R fs (append_to fs k bs).
Hypothesis R_open :
  forall fs p k fs', open_for_write fs p = Ret (k, fs') -> R fs fs'.
Hypothesis R_symlink :
  forall fs src dst fs', symlink fs src dst = Ret fs' -> R fs fs'.
Hypothesis R_mkdir : forall fs p fs', mkdir fs p = Ret fs' -> R fs fs'.

Lemma changes_ret {A} (a : A) : changes_by R (ret a).
Proof. intros s r s' [= <- <-]. apply R_refl. Qed.

Lemma changes_raise {A} (e : exn) : changes_by R (@raise A e).
Proof. intros s r s' [= <- <-]. apply R_refl. Qed.

Lemma changes_out_of_fuel {A} : changes_by R (@out_of_fuel A).
Proof. intros s r s' [=]. Qed.

Lemma changes_gets {A} (f : state -> A) : changes_by R (gets f).
Proof. intros s r s' [= <- <-]. apply R_refl. Qed.

Lemma changes_lift {A} (x : res A) : changes_by R (lift x).
Proof. intros s r s' [= <- <-]. apply R_refl. Qed.

Lemma changes_modify (f : state -> state) :
  (forall s, R (st_fs s) (st_fs (f s))) -> changes_by R (modify f).
Proof. intros H s r s' [= <- <-]. apply H. Qed.

Lemma changes_emit (e : event) : changes_by R (emit e).
Proof. apply changes_modify; intros ?; apply R_refl. Qed.

Lemma changes_bind {A B} (m : M A) (k : A -> M B) :
  changes_by R m -> (forall a, changes_by R (k a)) -> changes_by R (bind m k).
Proof.
  intros Hm Hk s r s' H.
  destruct (bind_inv _ _ _ _ _ H) as [(a & s1 & H1 & H2)|(e & H1 & _)].
  - eapply R_trans; [exact (Hm _ _ _ H1)|exact (Hk _ _ _ _ H2)].
  - exact (Hm _ _ _ H1).
Qed.

Lemma changes_try_except {A} (body : M A) class handler :
  changes_by R body -> (forall e, changes_by R (handler e)) ->
  changes_by R (try_except body class handler).
Proof.
  intros Hb Hh s r s' H.
  destruct (try_except_inv _ _ _ _ _ _ H) as [H1|(e & s1 & H1 & _ & H2)].
  - exact (Hb _ _ _ H1).
  - eapply R_trans; [exact (Hb _ _ _ H1)|exact (Hh _ _ _ _ H2)].
Qed.

Lemma changes_for_each {A} (items : list A) (body : A -> M unit) :
  (forall item, changes_by R (body item)) ->
  changes_by R (for_each items body).
Proof.
  intros Hb. induction items as [|x l IH]; simpl.
  - apply changes_ret.
  - apply changes_bind; auto.
Qed.

Ltac changes_step :=
  first
    [ apply changes_ret | apply changes_raise | apply changes_out_of_fuel
    | apply changes_gets | apply changes_lift | apply changes_emit
    | apply changes_bind; [|intros ?]
    | apply changes_try_except; [|intros ?] ].

Lemma changes_set_bar b : changes_by R (set_bar b).
Proof. apply changes_modify; intros ?; apply R_refl. Qed.

Lemma changes_read f size : changes_by R (read f size).
Proof.
  unfold read. destruct (fits_ssize_t size); [|apply changes_raise].
  changes_step; [changes_step|].
  destruct f.
  - destruct (text_read _ _ _); repeat changes_step.
  - repeat changes_step.
Qed.

Lemma changes_write_bytes k bs : W k -> changes_by R (write_bytes k bs).
Proof.
  intros Hk s r s' H. unfold write_bytes, bind, gets, modify, emit in H.
  injection H as <- <-. cbn. apply R_append, Hk.
Qed.

Lemma changes_write f b :
  W (match f with TextWriter k | BufferedWriter k => k end) ->
  changes_by R (write f b).
Proof.
  intros Hk. destruct f, b; cbn [write];
    first [apply changes_write_bytes; exact Hk | apply changes_raise].
Qed.

Lemma changes_bar_update k : changes_by R (bar_update k).
Proof.
  unfold bar_update. changes_step; [changes_step|].
  destruct (_bar a); [|apply changes_raise].
  changes_step; [apply changes_set_bar|changes_step].
Qed.

Lemma changes_bar_set_description d : changes_by R (bar_set_description d).
Proof.
  unfold bar_set_description. changes_step; [changes_step|].
  destruct (_bar a); [|apply changes_raise].
  changes_step; [apply changes_set_bar|changes_step].
Qed.

Lemma changes_close_bar : changes_by R close_bar.
Proof.
  unfold close_bar. changes_step; [changes_step|].
  destruct (_bar a) as [bar|]; [|changes_step].
  destruct (tqdm_bool bar); [|changes_step].
  changes_step; [changes_step|apply changes_set_bar].
Qed.

Lemma changes_init_bar : changes_by R init_bar.
Proof.
  unfold init_bar. changes_step; [changes_step|].
  destruct (_curr_path a); [|changes_step].
  unfold os_path_getsize, tqdm_new.
  repeat changes_step. apply changes_set_bar.
Qed.

Lemma changes_open_read p b : changes_by R (open_read p b).
Proof. unfold open_read. repeat changes_step. Qed.

Lemma changes_is_binary p : changes_by R (is_binary p).
Proof.
  unfold is_binary. changes_step; [|changes_step].
  changes_step; [apply changes_open_read|].
  changes_step; [apply changes_read|changes_step].
Qed.

Lemma changes_conflict_loop fuel : forall dest,
  changes_by R (conflict_loop fuel dest).
Proof.
  induction fuel as [|fuel IH]; intros dest; cbn [conflict_loop];
    unfold print, input, sys_exit.
  - changes_step; [changes_step|]. changes_step.
    { changes_step; [changes_step|]. changes_step; [changes_step|].
      destruct a1; [changes_step|].
      changes_step; [|changes_step].
      apply changes_modify; intros ?; apply R_refl. }
    repeat match goal with |- context [if ?b then _ else _] => destruct b end;
      changes_step.
  - changes_step; [changes_step|]. changes_step.
    { changes_step; [changes_step|]. changes_step; [changes_step|].
      destruct a1; [changes_step|].
      changes_step; [|changes_step].
      apply changes_modify; intros ?; apply R_refl. }
    repeat match goal with |- context [if ?b then _ else _] => destruct b end;
      first [changes_step | apply IH].
Qed.

Lemma changes_copy_loop fuel : forall src_file target_file,
  W (match target_file with TextWriter k | BufferedWriter k => k end) ->
  changes_by R (copy_loop fuel src_file target_file).
Proof.
  induction fuel as [|fuel IH]; intros src_file target_file Hk;
    cbn [copy_loop]; [changes_step|].
  changes_step; [changes_step|].
  changes_step; [apply changes_read|].
  destruct a0 as [buffer rd]. destruct (truthy buffer); [|changes_step].
  changes_step; [apply changes_write, Hk|].
  changes_step; [apply changes_bar_update|].
  changes_step; [apply changes_bar_set_description|].
  apply IH, Hk.
Qed.

Lemma changes_open_write p b : changes_by R (open_write p b).
Proof.
  intros s r s' H. unfold open_write, bind, gets, lift, modify, ret in H.
  destruct (open_for_write (st_fs s) p) as [[k fs']|e] eqn:E.
  - injection H as <- <-. cbn. eapply R_open, E.
  - injection H as <- <-. apply R_refl.
Qed.

Lemma changes_os_symlink src dst : changes_by R (os_symlink src dst).
Proof.
  intros s r s' H. unfold os_symlink, bind, gets, lift, modify in H.
  destruct (symlink (st_fs s) src dst) as [fs'|e] eqn:E.
  - injection H as <- <-. cbn. eapply R_symlink, E.
  - injection H as <- <-. apply R_refl.
Qed.

Lemma changes_os_mkdir p : changes_by R (os_mkdir p).
Proof.
  intros s r s' H. unfold os_mkdir, bind, gets, lift, modify in H.
  destruct (mkdir (st_fs s) p) as [fs'|e] eqn:E.
  - injection H as <- <-. cbn. eapply R_mkdir, E.
  - injection H as <- <-. apply R_refl.
Qed.

Lemma changes_link_file src dest : changes_by R (link_file src dest).
Proof.
  unfold link_file, logger_error.
  changes_step; [|changes_step].
  changes_step; [apply changes_os_symlink|changes_step].
Qed.

Hypothesis W_all : forall k, W k.

Lemma changes_copy_file fuel src dest :
  changes_by R (copy_file fuel src dest).
Proof.
  unfold copy_file, os_path_exists, logger_info, logger_error.
  changes_step; [changes_step|].
  changes_step.
  { destruct a; [|changes_step].
    changes_step; [changes_step|apply changes_conflict_loop]. }
  destruct a0; [|changes_step].
  changes_step; [apply changes_modify; intros ?; apply R_refl|].
  changes_step; [apply changes_init_bar|].
  changes_step; [apply changes_is_binary|].
  changes_step.
  - changes_step; [apply changes_open_read|].
    changes_step; [apply changes_open_write|].
    changes_step; [apply changes_copy_loop, W_all|].
    changes_step; [apply changes_close_bar|changes_step].
  - changes_step; [apply changes_close_bar|changes_step].
Qed.

Lemma changes_makedirs fuel : forall name, changes_by R (makedirs fuel name).
Proof.
  assert (Hmk : forall name,
    changes_by R
      (try_except (os_mkdir name) is_OSError
         (fun e => d <- os_path_isdir name ;;
                   if d : bool then ret tt else raise e))).
  { intros name. changes_step; [apply changes_os_mkdir|].
    unfold os_path_isdir. changes_step; [changes_step|].
    destruct a; changes_step. }
  induction fuel as [|fuel IH]; intros name; cbn [makedirs];
    unfold os_path_exists.
  - destruct (_ && _); [|apply Hmk].
    changes_step; [changes_step|]. destruct a; [apply Hmk|changes_step].
  - destruct (_ && _); [|apply Hmk].
    changes_step; [changes_step|]. destruct a; [apply Hmk|].
    changes_step.
    + changes_step; [apply IH|changes_step].
    + destruct (String.eqb _ "."); [changes_step|apply Hmk].
Qed.

Lemma changes_into_directory src dest :
  changes_by R (into_directory src dest).
Proof. unfold into_directory, os_path_isdir. repeat changes_step. Qed.

Lemma changes_run depth : forall fuel src dest,
  changes_by R (run depth fuel src dest).
Proof.
  induction depth as [|depth IH]; intros fuel src dest; cbn [run];
    [changes_step|].
  unfold os_path_islink, os_path_isfile, os_scandir, os_makedirs.
  changes_step; [changes_step|]. destruct a.
  { changes_step; [apply changes_into_directory|apply changes_link_file]. }
  changes_step; [changes_step|]. destruct a.
  { changes_step; [apply changes_into_directory|apply changes_copy_file]. }
  changes_step; [repeat changes_step|].
  apply changes_for_each. intros item.
  destruct (is_symlink item); [apply changes_link_file|].
  changes_step; [changes_step|]. destruct a0; [apply changes_copy_file|].
  changes_step; [changes_step|]. destruct a0; [|changes_step].
  changes_step; [apply changes_makedirs|apply IH].
Qed.

Lemma changes_main depth fuel args : changes_by R (main depth fuel args).
Proof.
  unfold main, logger_info, os_path_isdir.
  changes_step.
  { destruct (String.eqb _ ""); [|changes_step].
    changes_step; [changes_step|]. destruct a; [changes_step|].
    apply changes_os_mkdir. }
  changes_step; [changes_step|].
  changes_step; [apply changes_modify; intros ?; apply R_refl|].
  changes_step; [|changes_step].
  changes_step; [apply changes_run|changes_step].
Qed.

End Changes.

(** ** Nothing is removed *)

Lemma kept_refl fs : kept fs fs.
Proof. intros k [r w c| |t] H; eauto. Qed.

Lemma kept_trans a b c : kept a b -> kept b c -> kept a c.
Proof.
  intros Hab Hbc k nd H. specialize (Hab k nd H).
  destruct nd as [r w d| |t].
  - destruct Hab as [d' Hd']. exact (Hbc k _ Hd').
  - exact (Hbc k _ Hab).
  - exact (Hbc k _ Hab).
Qed.

Lemma kept_insert_new fs k nd : fs !! k = None -> kept fs (<[k := nd]> fs).
Proof.
  intros Hk k0 nd0 H0.
  assert (k <> k0) by congruence.
  rewrite lookup_insert_ne by assumption.
  exact (kept_refl fs k0 nd0 H0).
Qed.

Lemma kept_insert_file fs k r w c c' :
  fs !! k = Some (File r w c) -> kept fs (<[k := File r w c']> fs).
Proof.
  intros Hk k0 nd0 H0. destruct (decide (k = k0)) as [<-|Hne].
  - rewrite lookup_insert_eq. rewrite Hk in H0. injection H0 as <-. eauto.
  - rewrite lookup_insert_ne by assumption. exact (kept_refl fs k0 nd0 H0).
Qed.

Lemma kept_append fs k bs : kept fs (append_to fs k bs).
Proof.
  unfold append_to. destruct (fs !! k) as [[r w c| |t]|] eqn:E;
    try apply kept_refl.
  eapply kept_insert_file, E.
Qed.

Lemma kept_open fs p k fs' : open_for_write fs p = Ret (k, fs') -> kept fs fs'.
Proof.
  unfold open_for_write. destruct (follow fs MAXSYMLINKS p) as [k0|]; [|easy].
  destruct (fs !! k0) as [[r [] c| |t]|] eqn:E; try easy.
  - intros [= <- <-]. eapply kept_insert_file, E.
  - destruct (parent_is_dir fs k0); [|easy].
    intros [= <- <-]. apply kept_insert_new, E.
Qed.

Lemma kept_symlink fs src dst fs' : symlink fs src dst = Ret fs' -> kept fs fs'.
Proof.
  unfold symlink. destruct (fs !! dst) eqn:E; [easy|].
  destruct (parent_is_dir fs dst); [|easy].
  intros [= <-]. apply kept_insert_new, E.
Qed.

Lemma kept_mkdir fs p fs' : mkdir fs p = Ret fs' -> kept fs fs'.
Proof.
  unfold mkdir. destruct (fs !! p) eqn:E; [easy|].
  destruct (String.eqb p ""); [easy|].
  destruct (parent_is_dir fs p); [|easy].
  intros [= <-]. apply kept_insert_new, E.
Qed.

Lemma kept_follow fs fs' : kept fs fs' ->
  forall hops p k nd,
    follow fs hops p = Some k -> fs !! k = Some nd ->
    follow fs' hops p = Some k.
Proof.
  intros HK. induction hops as [|h IH]; intros p k nd; cbn [follow].
  - destruct (fs !! p) as [[r w c| |t]|] eqn:E; try easy.
    + intros [= <-] _. destruct (HK _ _ E) as [c' ->]. reflexivity.
    + intros [= <-] _. rewrite (HK _ _ E). reflexivity.
    + intros [= <-]. congruence.
  - destruct (fs !! p) as [[r w c| |t]|] eqn:E.
    + intros [= <-] _. destruct (HK _ _ E) as [c' ->]. reflexivity.
    + intros [= <-] _. rewrite (HK _ _ E). reflexivity.
    + rewrite (HK _ _ E). apply IH.
    + intros [= <-]. congruence.
Qed.

Lemma kept_isdir fs fs' p :
  kept fs fs' -> isdir fs p = true -> isdir fs' p = true.
Proof.
  intros HK. unfold isdir, stat.
  destruct (follow fs MAXSYMLINKS p) as [k|] eqn:F; [|easy].
  destruct (fs !! k) as [[r w c| |t]|] eqn:E; try easy.
  intros _. rewrite (kept_follow _ _ HK _ _ _ _ F E), (HK _ _ E). reflexivity.
Qed.

Lemma kept_link_file src dest : changes_by kept (link_file src dest).
Proof.
  exact (changes_link_file kept kept_refl kept_trans kept_symlink src dest).
Qed.

Lemma kept_copy_file fuel src dest :
  changes_by kept (copy_file fuel src dest).
Proof.
  exact (changes_copy_file kept (fun _ => True) kept_refl kept_trans
           (fun fs k bs _ => kept_append fs k bs) kept_open (fun _ => I)
           fuel src dest).
Qed.

Lemma kept_makedirs fuel name : changes_by kept (makedirs fuel name).
Proof.
  exact (changes_makedirs kept kept_refl kept_trans kept_mkdir fuel name).
Qed.

Lemma kept_run depth fuel src dest : changes_by kept (run depth fuel src dest).
Proof.
  exact (changes_run kept (fun _ => True) kept_refl kept_trans
           (fun fs k bs _ => kept_append fs k bs) kept_open kept_symlink
           kept_mkdir (fun _ => I) depth fuel src dest).
Qed.

Lemma kept_main depth fuel args : changes_by kept (main depth fuel args).
Proof.
  exact (changes_main kept (fun _ => True) kept_refl kept_trans
           (fun fs k bs _ => kept_append fs k bs) kept_open kept_symlink
           kept_mkdir (fun _ => I) depth fuel args).
Qed.

(** X1. Nothing the program does removes a path or changes what kind of
    thing it names: after [link_file], [copy_file], [run] or [main],
    however the call ends, every directory and every link of the file
    system is as it was, and every regular file is a regular file with
    the permission bits it had. *)
Theorem nothing_is_removed :
  (forall src dest s r s',
      link_file src dest s = Some (r, s') -> kept (st_fs s) (st_fs s'))
  /\ (forall fuel src dest s r s',
         copy_file fuel src dest s = Some (r, s') ->
         kept (st_fs s) (st_fs s'))
  /\ (forall depth fuel src dest s r s',
         run depth fuel src dest s = Some (r, s') ->
         kept (st_fs s) (st_fs s'))
  /\ (forall depth fuel args s r s',
         main depth fuel args s = Some (r, s') ->
         kept (st_fs s) (st_fs s')).
Proof.
  repeat split; intros.
  - eapply kept_link_file; eassumption.
  - eapply kept_copy_file; eassumption.
  - eapply kept_run; eassumption.
  - eapply kept_main; eassumption.
Qed.

Lemma nothing_is_removed_witness :
  exists r s',
    main 2 10 (arguments "A" "out") (init_state tree_A [] 4096) = Some (r, s')
    /\ st_fs s' !! "A/c" = Some (Symlink "/tmp/target")
    /\ st_fs s' !! "A/B" = Some Dir.
Proof.
  destruct (main 2 10 (arguments "A" "out") (init_state tree_A [] 4096))
    as [[r s']|] eqn:E; [|vm_compute in E; discriminate E].
  destruct nothing_is_removed as (_ & _ & _ & H).
  exists r, s'. split; [reflexivity|]. split.
  - exact (H _ _ _ _ _ _ E "A/c" (Symlink "/tmp/target") eq_refl).
  - exact (H _ _ _ _ _ _ E "A/B" Dir eq_refl).
Defined.

(** ** What a copy touches *)

Lemma eq_fs_trans (a b c : filesystem) : a = b -> b = c -> a = c.
Proof. congruence. Qed.

Lemma only_at_refl K fs : only_at K fs fs.
Proof. intros k _. reflexivity. Qed.

Lemma only_at_trans K a b c : only_at K a b -> only_at K b c -> only_at K a c.
Proof. intros Hab Hbc k Hk. rewrite (Hbc k Hk). exact (Hab k Hk). Qed.

Lemma only_at_append K fs k bs : K k -> only_at K fs (append_to fs k bs).
Proof.
  intros Hk k0 Hk0. unfold append_to.
  destruct (fs !! k) as [[r w c| |t]|]; try reflexivity.
  apply lookup_insert_ne. intros ->. exact (Hk0 Hk).
Qed.

Lemma open_for_write_follow fs p k fs1 :
  open_for_write fs p = Ret (k, fs1) ->
  follow fs MAXSYMLINKS p = Some k /\ only_at (fun k' => k' = k) fs fs1.
Proof.
  unfold open_for_write. destruct (follow fs MAXSYMLINKS p) as [k0|]; [|easy].
  destruct (fs !! k0) as [[r [] c| |t]|] eqn:E; try easy.
  - intros [= <- <-]. split; [reflexivity|].
    intros k' Hk'. apply lookup_insert_ne. congruence.
  - destruct (parent_is_dir fs k0); [|easy].
    intros [= <- <-]. split; [reflexivity|].
    intros k' Hk'. apply lookup_insert_ne. congruence.
Qed.

Lemma copy_file_try_frame fuel src dest b s r s' :
  copy_file_try fuel src dest b s = Some (r, s') ->
  only_at (fun k => follow (st_fs s) MAXSYMLINKS dest = Some k)
    (st_fs s) (st_fs s').
Proof.
  set (K := fun k => follow (st_fs s) MAXSYMLINKS dest = Some k).
  assert (Hbody : forall r1 s1,
    (src_file <- open_read src b ;;
     target_file <- open_write dest b ;;
     copy_loop fuel src_file target_file ;;
     close_bar ;;
     logger_info (success_copying src dest)) s = Some (r1, s1) ->
    only_at K (st_fs s) (st_fs s1)).
  { intros r1 s1 H.
    destruct (bind_inv _ _ _ _ _ H) as [(rd & sa & H1 & H2)|(e & H1 & _)].
    2:{ rewrite <- (changes_open_read eq (@eq_refl _) eq_fs_trans _ _ _ _ _ H1).
        apply only_at_refl. }
    assert (Ea : st_fs s = st_fs sa)
      by exact (changes_open_read eq (@eq_refl _) eq_fs_trans _ _ _ _ _ H1).
    clear H H1.
    destruct (bind_inv _ _ _ _ _ H2) as [(wr & sb & H3 & H4)|(e & H3 & _)].
    2:{ unfold open_write, bind, gets, lift in H3.
        destruct (open_for_write (st_fs sa) dest) as [[k fs1]|e0] eqn:E;
          cbn in H3; [discriminate H3|].
        injection H3 as _ <-. rewrite <- Ea. apply only_at_refl. }
    unfold open_write, bind, gets, lift, modify, ret in H3.
    destruct (open_for_write (st_fs sa) dest) as [[kd fs1]|e0] eqn:E;
      cbn in H3; [|discriminate].
    injection H3 as <- <-.
    rewrite <- Ea in E. destruct (open_for_write_follow _ _ _ _ E) as [F O].
    assert (Hmono : forall fs fs', only_at (fun k' => k' = kd) fs fs' ->
                                   only_at K fs fs').
    { intros fs fs' HO k Hk. apply HO. intros ->. exact (Hk F). }
    eapply only_at_trans; [apply Hmono, O|].
    apply Hmono.
    change fs1 with (st_fs (set_fs fs1 sa)).
    revert H4.
    generalize (set_fs fs1 sa). intros sb H4.
    refine (changes_bind _ (only_at_trans _) _ _ _ _ _ _ _ H4).
    - apply (changes_copy_loop _ (fun k' => k' = kd) (only_at_refl _)
               (only_at_trans _) (only_at_append _)).
      destruct b; reflexivity.
    - intros _.
      apply (changes_bind _ (only_at_trans _)).
      + apply (changes_close_bar _ (only_at_refl _) (only_at_trans _)).
      + intros _. apply (changes_emit _ (only_at_refl _)). }
  intros H. unfold copy_file_try in H.
  destruct (try_except_inv _ _ _ _ _ _ H) as [H1|(e & s1 & H1 & _ & H2)].
  - exact (Hbody _ _ H1).
  - eapply only_at_trans; [exact (Hbody _ _ H1)|].
    refine (changes_bind _ (only_at_trans _) _ _ _ _ _ _ _ H2).
    + apply (changes_close_bar _ (only_at_refl _) (only_at_trans _)).
    + intros _. apply (changes_emit _ (only_at_refl _)).
Qed.

(** However [copy_file] ends, it changes no key of the file system but
    the one the destination leads to. *)
Lemma copy_file_frame fuel src dest s r s' k :
  copy_file fuel src dest s = Some (r, s') ->
  follow (st_fs s) MAXSYMLINKS dest <> Some k ->
  st_fs s' !! k = st_fs s !! k.
Proof.
  rewrite copy_file_unfold. intros H Hk.
  destruct (bind_inv _ _ _ _ _ H) as [(found & s1 & H1 & H2)|(e & H1 & _)];
    [|discriminate H1].
  injection H1 as <- <-. clear H.
  destruct (bind_inv _ _ _ _ _ H2) as [(how & s2 & H3 & H4)|(e & H3 & _)].
  2:{ f_equal. symmetry.
      destruct (exists_ (st_fs s) dest); [|discriminate H3].
      destruct (bind_inv _ _ _ _ _ H3) as [(l & sa & H5 & H6)|(e' & H5 & _)];
        [|discriminate H5].
      injection H5 as <- <-.
      exact (changes_conflict_loop eq (@eq_refl _) eq_fs_trans _ _ _ _ _ H6). }
  assert (E2 : st_fs s = st_fs s2).
  { destruct (exists_ (st_fs s) dest).
    - destruct (bind_inv _ _ _ _ _ H3) as [(l & sa & H5 & H6)|(e' & H5 & _)];
        [|discriminate H5].
      injection H5 as <- <-.
      exact (changes_conflict_loop eq (@eq_refl _) eq_fs_trans _ _ _ _ _ H6).
    - injection H3 as <- <-. reflexivity. }
  clear H2 H3. destruct how.
  2:{ injection H4 as <- <-. congruence. }
  unfold copy_file_body in H4.
  destruct (bind_inv _ _ _ _ _ H4) as [(u & s3 & H5 & H6)|(e & H5 & _)];
    [|discriminate H5].
  injection H5 as <- <-. clear H4.
  destruct (bind_inv _ _ _ _ _ H6) as [(u & s4 & H7 & H8)|(e & H7 & _)].
  2:{ rewrite <- (changes_init_bar eq (@eq_refl _) eq_fs_trans _ _ _ H7).
      cbn. congruence. }
  assert (E4 : st_fs s = st_fs s4).
  { rewrite <- (changes_init_bar eq (@eq_refl _) eq_fs_trans _ _ _ H7).
    exact E2. }
  clear H6 H7.
  destruct (bind_inv _ _ _ _ _ H8) as [(b & s5 & H9 & H10)|(e & H9 & _)].
  2:{ rewrite <- (changes_is_binary eq (@eq_refl _) eq_fs_trans _ _ _ _ H9).
      congruence. }
  assert (E5 : st_fs s = st_fs s5).
  { rewrite <- (changes_is_binary eq (@eq_refl _) eq_fs_trans _ _ _ _ H9).
    exact E4. }
  rewrite E5. apply (copy_file_try_frame _ _ _ _ _ _ _ H10).
  rewrite <- E5. exact Hk.
Qed.

Lemma follow_not_link (fs : filesystem) p :
  islink fs p = false -> follow fs MAXSYMLINKS p = Some p.
Proof.
  unfold islink, MAXSYMLINKS. cbn [follow].
  destruct (fs !! p) as [[r w c| |t]|];
    [reflexivity..|discriminate|reflexivity].
Qed.

(** X2. A destination written plainly that is not a link: however
    [copy_file] ends, with the success message, a logged error, an
    exception or at the prompt, no file under another plain path has
    changed. *)
Theorem copy_file_touches_destination_only fuel src dest s r s' k :
  copy_file fuel src dest s = Some (r, s') ->
  plain (st_fs s) dest = true ->
  islink (st_fs s) dest = false ->
  plain (st_fs s) k = true ->
  k <> dest ->
  st_fs s' !! k = st_fs s !! k.
Proof.
  intros H _ Hl _ Hk. apply (copy_file_frame _ _ _ _ _ _ _ H).
  rewrite (follow_not_link _ _ Hl). congruence.
Qed.

Lemma copy_file_touches_destination_only_witness :
  exists r s',
    copy_file 10 "src.bin" "dest.bin" (init_state two_files ["o"] 4096)
    = Some (r, s')
    /\ st_fs s' !! "src.bin" = Some (File true true [xff; x00; x01; xfe]).
Proof.
  destruct (copy_file 10 "src.bin" "dest.bin"
              (init_state two_files ["o"] 4096))
    as [[r s']|] eqn:E; [|vm_compute in E; discriminate E].
  exists r, s'. split; [reflexivity|].
  rewrite (copy_file_touches_destination_only _ _ _ _ _ _ "src.bin" E).
  - reflexivity.
  - reflexivity.
  - reflexivity.
  - reflexivity.
  - discriminate.
Defined.

(** ** Failures before and inside the [try], for every source *)

(** From the call of [copy_file] to its [try]: the prompt lets the copy go
    on, the bar is opened with the size of the source and the probe is
    made. *)
Lemma copy_file_reaches_try fuel s s0 src dest ks :
  proceeds dest s s0 ->
  open_for_read (st_fs s) src = Ret ks ->
  let c := content_of (st_fs s) ks in
  copy_file fuel src dest s
  = copy_file_try fuel src dest (decoding_fails c)
      (with_new_bar (Z.of_nat (length c)) src
         (set_self (with_curr_path src (st_self s0)) s0)).
Proof.
  intros Hp Hr c.
  rewrite (copy_file_proceeds _ _ _ _ _ Hp).
  pose proof (proceeds_fs _ _ _ Hp) as Hfs0.
  destruct (open_for_read_inv _ _ _ Hr) as (w & Hstat).
  set (s1 := set_self (with_curr_path src (st_self s0)) s0).
  set (s2 := with_new_bar (Z.of_nat (length c)) src s1).
  assert (Hfs2 : st_fs s2 = st_fs s) by exact Hfs0.
  assert (Hinit : init_bar s1 = Some (Ret tt, s2)).
  { apply init_bar_run; [reflexivity|].
    unfold getsize. cbn [st_fs s1 set_self]. now rewrite Hfs0, Hstat. }
  assert (Hbin : is_binary src s2 = Some (Ret (decoding_fails c), s2)).
  { rewrite (is_binary_run s2 src ks) by (now rewrite Hfs2).
    now rewrite Hfs2. }
  unfold copy_file_body.
  rewrite (bind_run _ _ s0 tt s1) by reflexivity.
  rewrite (bind_run _ _ s1 tt s2 Hinit).
  rewrite (bind_run _ _ s2 _ s2 Hbin). reflexivity.
Qed.

(** X3. Once the prompt lets the copy go on and the source can be opened
    for reading, no failure leaves [copy_file]: every call that ends
    returns without an exception, with the bar put away and, as the last
    record of the log, the success message or the error message of this
    copy. *)
Theorem copy_file_contains_failures fuel s s0 src dest ks r s' :
  proceeds dest s s0 ->
  open_for_read (st_fs s) src = Ret ks ->
  copy_file fuel src dest s = Some (r, s') ->
  r = Ret tt
  /\ bar_put_away s'
  /\ (last (st_trace s') = Some (Log INFO (success_copying src dest))
      \/ exists e, last (st_trace s')
                   = Some (Log ERROR (error_copying src dest e))).
Proof.
  intros Hp Hr. rewrite (copy_file_reaches_try fuel s s0 src dest ks Hp Hr).
  apply copy_file_try_contained.
Qed.

Lemma copy_file_contains_failures_witness :
  exists s',
    copy_file 10 "A/a.txt" "nodir/x.txt" (init_state tree_A [] 4096)
    = Some (Ret tt, s')
    /\ bar_put_away s'.
Proof.
  destruct (copy_file 10 "A/a.txt" "nodir/x.txt" (init_state tree_A [] 4096))
    as [[r s']|] eqn:E; [|vm_compute in E; discriminate E].
  destruct (copy_file_contains_failures 10 (init_state tree_A [] 4096)
              (init_state tree_A [] 4096) "A/a.txt" "nodir/x.txt" "A/a.txt"
              r s')
    as (-> & Hb & _).
  - apply proceeds_free. vm_compute. reflexivity.
  - vm_compute. reflexivity.
  - exact E.
  - exists s'. split; [reflexivity|exact Hb].
Defined.





(** X6. The destination is there and the input ends before an answer the
    loop acts on: [copy_file] asks once per line and once more, and
    [EOFError] leaves it; nothing is copied and no bar is opened. *)
Theorem copy_file_input_ends fuel s src dest :
  exists_ (st_fs s) dest = true ->
  Forall (fun l => recognised l = false) (st_stdin s) ->
  copy_file fuel src dest s
  = Some (Raise EOFError, prompted (S (length (st_stdin s))) dest [] s).
Proof.
  intros Hex Hjunk. unfold copy_file.
  rewrite (bind_run _ _ s true s)
    by (unfold os_path_exists, gets; now rewrite Hex).
  apply bind_raise.
  rewrite (bind_run _ _ s (st_stdin s) s) by reflexivity.
  replace (length (st_stdin s)) with (length (st_stdin s) + 0)%nat at 1 by lia.
  rewrite (conflict_loop_junk (st_stdin s) 0 dest s [] Hjunk)
    by now rewrite app_nil_r.
  rewrite conflict_loop_eof by reflexivity.
  unfold prompted, add_event. cbn [st_fs st_stdin st_trace st_self].
  rewrite <- prompt_rounds_snoc. unfold prompt_round.
  rewrite <- !app_assoc. reflexivity.
Qed.

Lemma copy_file_input_ends_witness :
  copy_file 10 "src.bin" "dest.bin" (init_state two_files ["x"; "yes"] 4096)
  = Some (Raise EOFError,
          prompted 3 "dest.bin" [] (init_state two_files ["x"; "yes"] 4096)).
Proof.
  apply (copy_file_input_ends 10 (init_state two_files ["x"; "yes"] 4096)).
  - vm_compute. reflexivity.
  - repeat constructor.
Defined.

(** The copy when the first [read] returns nothing. *)
Lemma copy_file_nothing_read fuel s s0 src dest ks kd fs1 :
  proceeds dest s s0 ->
  open_for_read (st_fs s) src = Ret ks ->
  open_for_write (st_fs s) dest = Ret (kd, fs1) ->
  let c := content_of (st_fs s) ks in
  let z := Z.of_nat (length c) in
  (forall s3, st_fs s3 = fs1 ->
     exists buf rd,
       read (if decoding_fails c then BufferedReader ks 0
             else TextReader ks text_open) (chunk_size (st_self s)) s3
       = Some (Ret (buf, rd), s3)
       /\ truthy buf = false) ->
  exists s',
    copy_file (S fuel) src dest s = Some (Ret tt, s')
    /\ st_fs s' = fs1
    /\ content_of (st_fs s') kd = []
    /\ st_trace s' =
       st_trace s0
       ++ BarOpen z (basename src)
          :: (if (0 <? z)%Z then [BarClose] else [])
          ++ [Log INFO (success_copying src dest)]
    /\ ((0 <? z)%Z = false -> exists bar, _bar (st_self s') = Some bar).
Proof.
  intros Hp Hr Hw c z Hread.
  rewrite (copy_file_reaches_try (S fuel) s s0 src dest ks Hp Hr).
  pose proof (proceeds_fs _ _ _ Hp) as Hfs0.
  pose proof (proceeds_self _ _ _ Hp) as Hself0.
  fold c. fold z.
  set (b := decoding_fails c) in *.
  set (s1 := set_self (with_curr_path src (st_self s0)) s0).
  set (s2 := with_new_bar z src s1).
  set (s3 := set_fs fs1 s2).
  assert (Hfs2 : st_fs s2 = st_fs s) by exact Hfs0.
  assert (Hor : open_read src b s2
                = Some (Ret (if b then BufferedReader ks 0
                             else TextReader ks text_open), s2)).
  { unfold open_read, bind, gets, lift, ret. now rewrite Hfs2, Hr. }
  assert (How : open_write dest b s2
                = Some (Ret (if b then BufferedWriter kd
                             else TextWriter kd), s3)).
  { unfold open_write, bind, gets, lift, ret, modify.
    now rewrite Hfs2, Hw. }
  destruct (Hread s3 eq_refl) as (buf & rd & Hrd & Hbuf).
  assert (Hloop : copy_loop (S fuel)
                    (if b then BufferedReader ks 0 else TextReader ks text_open)
                    (if b then BufferedWriter kd else TextWriter kd) s3
                  = Some (Ret tt, s3)).
  { cbn [copy_loop].
    rewrite (bind_run _ _ s3 (st_self s3) s3) by reflexivity.
    assert (Hcs : chunk_size (st_self s3) = chunk_size (st_self s))
      by (cbn; now rewrite Hself0).
    rewrite Hcs, (bind_run _ _ s3 _ s3 Hrd). now rewrite Hbuf. }
  unfold copy_file_try.
  erewrite try_except_ret.
  2:{ rewrite (bind_run _ _ s2 _ s2 Hor), (bind_run _ _ s2 _ s3 How).
      rewrite (bind_run _ _ s3 tt s3 Hloop).
      rewrite (bind_run _ _ s3 tt _ (close_bar_run s3 _ eq_refl)).
      reflexivity. }
  eexists. split; [reflexivity|].
  destruct (open_for_write_inv _ _ _ _ Hw) as (r & Hfs1).
  unfold with_closed_bar, tqdm_bool. cbn [bar_total].
  destruct (0 <? z)%Z; cbn.
  - split; [reflexivity|]. split.
    { unfold content_of. now rewrite Hfs1, lookup_insert_eq. }
    split; [|discriminate]. rewrite <- !app_assoc. reflexivity.
  - split; [reflexivity|]. split.
    { unfold content_of. now rewrite Hfs1, lookup_insert_eq. }
    split; [|eauto]. rewrite <- !app_assoc. reflexivity.
Qed.

(** X7. An empty source that can be opened, a destination that can be
    opened for writing, once the prompt lets the copy go on, and a chunk
    size from -2^63 to 2^20, which fits the index type of the host and
    asks for no buffer the host may refuse: the destination is made or
    emptied, [write] is never called, the success message is logged, and
    the bar, opened with a total of zero, is never closed and stays in
    [_bar].  One round of fuel is enough. *)
Theorem copy_file_empty_source fuel s s0 src dest ks kd fs1 :
  proceeds dest s s0 ->
  open_for_read (st_fs s) src = Ret ks ->
  content_of (st_fs s) ks = [] ->
  open_for_write (st_fs s) dest = Ret (kd, fs1) ->
  (- 2 ^ 63 <= chunk_size (st_self s) <= 2 ^ 20)%Z ->
  exists s' bar,
    copy_file (S fuel) src dest s = Some (Ret tt, s')
    /\ st_fs s' = fs1
    /\ content_of (st_fs s') kd = []
    /\ st_trace s' =
       st_trace s0
       ++ [BarOpen 0 (basename src); Log INFO (success_copying src dest)]
    /\ _bar (st_self s') = Some bar.
Proof.
  intros Hp Hr Hc Hw Hsize.
  assert (Hfits : fits_ssize_t (chunk_size (st_self s)) = true)
    by (apply fits_ssize_t_true; lia).
  destruct (copy_file_nothing_read fuel s s0 src dest ks kd fs1 Hp Hr Hw)
    as (s' & Hrun & Hfs & Hkd & Htr & Hbar).
  - intros s3 Hfs3. rewrite Hc.
    replace (decoding_fails []) with false by (symmetry; now vm_compute).
    assert (Hc3 : content_of (st_fs s3) ks = []).
    { rewrite Hfs3. destruct (open_for_write_inv _ _ _ _ Hw) as (r & ->).
      unfold content_of in *. destruct (decide (kd = ks)) as [->|Hne].
      - now rewrite lookup_insert_eq.
      - now rewrite lookup_insert_ne. }
    unfold read. rewrite Hfits.
    rewrite (bind_run _ _ s3 (st_fs s3) s3) by reflexivity.
    rewrite Hc3.
    destruct (text_read_sound [] (chunk_size (st_self s)) text_open)
      as (f' & -> & _); [apply sound_text_open; reflexivity|].
    rewrite (rest_text_open [] []) by reflexivity.
    exists (Str []), (TextReader ks f'). split; [|reflexivity].
    unfold take_z. destruct (_ <? 0)%Z; cbn; try rewrite take_nil;
      reflexivity.
  - rewrite Hc in *. cbn in Htr, Hbar.
    destruct (Hbar eq_refl) as (bar & Hb).
    exists s', bar. auto.
Qed.

Lemma copy_file_empty_source_witness :
  exists s' bar,
    copy_file 1 "empty.txt" "out.txt" (init_state with_empty [] 4096)
    = Some (Ret tt, s')
    /\ content_of (st_fs s') "out.txt" = []
    /\ _bar (st_self s') = Some bar.
Proof.
  destruct (copy_file_empty_source 0
              (init_state with_empty [] 4096) (init_state with_empty [] 4096)
              "empty.txt" "out.txt" "empty.txt" "out.txt"
              (<["out.txt" := File true true []]> with_empty))
    as (s' & bar & H & _ & Hc & _ & Hb).
  - apply proceeds_free. vm_compute. reflexivity.
  - vm_compute. reflexivity.
  - vm_compute. reflexivity.
  - vm_compute. reflexivity.
  - cbn. lia.
  - exists s', bar. auto.
Defined.



Lemma open_for_read_file fs p r w c :
  fs !! p = Some (File r w c) ->
  stat fs p = Ret (p, File r w c).
Proof.
  intros H. unfold stat, MAXSYMLINKS. cbn [follow]. now rewrite !H.
Qed.

Lemma open_for_write_not_link fs p k fs1 :
  islink fs p = false ->
  open_for_write fs p = Ret (k, fs1) -> k = p.
Proof.
  intros Hl. unfold open_for_write. rewrite (follow_not_link _ _ Hl).
  destruct (fs !! p) as [[r [] c| |t]|]; try discriminate.
  - now intros [= <- _].
  - destruct (parent_is_dir fs p); [|discriminate]. now intros [= <- _].
Qed.

(** X9. A source and a destination written plainly and naming two files,
    the destination not being a link, with a chunk size above zero: a
    readable source that the probe takes for text and that is not
    well-formed UTF-8 is never reported as copied.  Every call of
    [copy_file] that ends returns without an exception and has logged the
    error message as its last record. *)
Theorem copy_file_ill_formed_text fuel s s0 src dest w c kd fs1 r s' :
  proceeds dest s s0 ->
  plain (st_fs s) src = true ->
  plain (st_fs s) dest = true ->
  st_fs s !! src = Some (File true w c) ->
  islink (st_fs s) dest = false ->
  src <> dest ->
  open_for_write (st_fs s) dest = Ret (kd, fs1) ->
  (0 < chunk_size (st_self s))%Z ->
  decoding_fails c = false ->
  utf8_valid c = false ->
  copy_file fuel src dest s = Some (r, s') ->
  r = Ret tt
  /\ exists e,
       last (st_trace s') = Some (Log ERROR (error_copying src dest e)).
Proof.
  intros Hp _ _ Hsrc Hl Hne Hw Hn Hb Hv Hrun.
  assert (Hr : open_for_read (st_fs s) src = Ret src).
  { unfold open_for_read. now rewrite (open_for_read_file _ _ _ _ _ Hsrc). }
  assert (Hc : content_of (st_fs s) src = c).
  { unfold content_of. now rewrite Hsrc. }
  assert (kd = dest) as -> by exact (open_for_write_not_link _ _ _ _ Hl Hw).
  pose proof Hrun as Hrun'.
  rewrite (copy_file_reaches_try fuel s s0 src dest src Hp Hr) in Hrun'.
  apply copy_file_try_contained in Hrun'.
  destruct Hrun' as (-> & _ & [Hok|Herr]); [|auto].
  destruct (copy_file_completes_mode fuel s s0 src dest src dest fs1 s'
              Hp Hr Hw Hne Hn Hrun Hok); congruence.
Qed.

Lemma copy_file_ill_formed_text_witness :
  exists s' e,
    copy_file 20 "t.txt" "out.txt" (init_state cut_short [] 4096)
    = Some (Ret tt, s')
    /\ last (st_trace s')
       = Some (Log ERROR (error_copying "t.txt" "out.txt" e)).
Proof.
  destruct (copy_file 20 "t.txt" "out.txt" (init_state cut_short [] 4096))
    as [[r s']|] eqn:E; [|vm_compute in E; discriminate E].
  destruct (copy_file_ill_formed_text 20
              (init_state cut_short [] 4096) (init_state cut_short [] 4096)
              "t.txt" "out.txt" true sixteen_then_half "out.txt"
              (<["out.txt" := File true true []]> cut_short) r s')
    as (-> & e & He).
  - apply proceeds_free. vm_compute. reflexivity.
  - reflexivity.
  - reflexivity.
  - reflexivity.
  - reflexivity.
  - discriminate.
  - vm_compute. reflexivity.
  - reflexivity.
  - vm_compute. reflexivity.
  - vm_compute. reflexivity.
  - exact E.
  - exists s', e. auto.
Defined.

(** X22. A copy that goes through.  The source and the destination are
    written plainly and are two paths, the source is a readable regular
    file, the destination is no link and can be opened for writing, the
    prompt lets the copy go on, the chunk size is between 1 and 2^20, the
    fuel is above the size of the source, and the source is binary for
    the probe or well-formed UTF-8.  Then [copy_file] returns with the
    success message as its last record and the source as it was.  In
    binary mode the destination has the bytes of the source.  In text
    mode it has the UTF-8 bytes of the text of the source with every line
    end turned into a line feed; these are the bytes of the source when
    it has no carriage return. *)
Theorem copy_file_copies_the_bytes fuel s s0 src dest w c kd fs1 :
  proceeds dest s s0 ->
  plain (st_fs s) src = true ->
  plain (st_fs s) dest = true ->
  st_fs s !! src = Some (File true w c) ->
  islink (st_fs s) dest = false ->
  src <> dest ->
  open_for_write (st_fs s) dest = Ret (kd, fs1) ->
  modest (chunk_size (st_self s)) ->
  (length c < fuel)%nat ->
  decoding_fails c = true \/ utf8_valid c = true ->
  exists s',
    copy_file fuel src dest s = Some (Ret tt, s')
    /\ last (st_trace s') = Some (Log INFO (success_copying src dest))
    /\ st_fs s' !! src = Some (File true w c)
    /\ (decoding_fails c = true -> content_of (st_fs s') dest = c)
    /\ (decoding_fails c = false ->
        exists text,
          decode_utf8 c = Some text
          /\ content_of (st_fs s') dest
             = encode_utf8 (universal_newlines text)
          /\ (~ In x0d c -> content_of (st_fs s') dest = c)).
Proof.
  intros Hp _ _ Hsrc Hl Hne Hw Hcs Hf Hmode.
  assert (Hr : open_for_read (st_fs s) src = Ret src).
  { unfold open_for_read. now rewrite (open_for_read_file _ _ _ _ _ Hsrc). }
  assert (Hc : content_of (st_fs s) src = c).
  { unfold content_of. now rewrite Hsrc. }
  assert (kd = dest) as -> by exact (open_for_write_not_link _ _ _ _ Hl Hw).
  destruct (copy_file_run fuel s s0 src dest src dest fs1)
    as (s' & evs & Hrun & Ht & Hother & Hcontent);
    [exact Hp|exact Hr|exact Hw|exact Hne|unfold modest in Hcs; lia
    |now rewrite Hc|now rewrite Hc|].
  rewrite Hc in Hcontent, Ht.
  exists s'. split; [exact Hrun|]. split.
  { rewrite Ht. rewrite app_comm_cons, !app_assoc. apply last_snoc. }
  split; [now rewrite (Hother src Hne)|]. split.
  - intros Hb. rewrite Hb in Hcontent. apply Hcontent.
  - intros Hb. rewrite Hb in Hcontent.
    destruct Hcontent as (text & Htext & _ & Hkd).
    exists text. split; [exact Htext|]. split; [exact Hkd|].
    intros Hcr. rewrite Hkd.
    pose proof (decode_encode _ _ Htext) as He.
    rewrite universal_newlines_no_CR; [exact He|].
    intros H%CR_in_concat. apply Hcr. unfold encode_utf8 in He.
    now rewrite He in H.
Qed.

Lemma copy_file_copies_the_bytes_witness :
  exists s',
    copy_file 10 "src.bin" "dest.bin" (init_state two_files ["x"; "O"] 4096)
    = Some (Ret tt, s')
    /\ content_of (st_fs s') "dest.bin" = [xff; x00; x01; xfe].
Proof.
  destruct (copy_file_copies_the_bytes 10
              (init_state two_files ["x"; "O"] 4096)
              (prompted 2 "dest.bin" [] (init_state two_files ["x"; "O"] 4096))
              "src.bin" "dest.bin" true [xff; x00; x01; xfe] "dest.bin"
              (<["dest.bin" := File true true []]> two_files))
    as (s' & H & _ & _ & Hb & _).
  - apply (proceeds_overwrite "dest.bin" _ ["x"] "O" []).
    + vm_compute. reflexivity.
    + reflexivity.
    + repeat constructor.
    + reflexivity.
  - reflexivity.
  - reflexivity.
  - reflexivity.
  - reflexivity.
  - discriminate.
  - vm_compute. reflexivity.
  - unfold modest. cbn. lia.
  - cbn. lia.
  - left. vm_compute. reflexivity.
  - exists s'. split; [exact H|]. apply Hb. vm_compute. reflexivity.
Defined.

(** X23. The rounds of a copy that goes through, under the conditions of
    X22: a source and a destination written plainly that are two paths,
    the source a readable regular file, the destination no link and one
    that can be opened for writing, the prompt letting the copy go on, a
    chunk size [n] between 1 and 2^20, fuel above the size of the source,
    and a source that is binary for the probe or well-formed UTF-8.
    After the events of the prompt the trace is the opening of the bar
    with the size of the file in bytes, the rounds, the closing of the bar
    when the file is not empty, and the success message.  Each round
    writes one chunk, not empty and of at most [n] units, and moves the
    bar by the number of units of the chunk; the chunks make up the file.
    The units are bytes in binary mode and characters of the translated
    text in text mode, and the bar ends at the number of units. *)
Theorem copy_file_writes_in_chunks fuel s s0 src dest w c kd fs1 :
  proceeds dest s s0 ->
  plain (st_fs s) src = true ->
  plain (st_fs s) dest = true ->
  st_fs s !! src = Some (File true w c) ->
  islink (st_fs s) dest = false ->
  src <> dest ->
  open_for_write (st_fs s) dest = Ret (kd, fs1) ->
  modest (chunk_size (st_self s)) ->
  (length c < fuel)%nat ->
  decoding_fails c = true \/ utf8_valid c = true ->
  let n := Z.to_nat (chunk_size (st_self s)) in
  exists s' evs,
    copy_file fuel src dest s = Some (Ret tt, s')
    /\ st_trace s' =
       st_trace s0
       ++ BarOpen (Z.of_nat (length c)) (basename src)
          :: evs
          ++ (if (0 <? Z.of_nat (length c))%Z then [BarClose] else [])
          ++ [Log INFO (success_copying src dest)]
    /\ if decoding_fails c
       then rounds (fun l => l) n dest (basename src) c evs
            /\ progress 0 evs = Z.of_nat (length c)
       else exists text,
              decode_utf8 c = Some text
              /\ rounds text_bytes n dest (basename src)
                   (universal_newlines text) evs
              /\ progress 0 evs
                 = Z.of_nat (length (universal_newlines text)).
Proof.
  intros Hp _ _ Hsrc Hl Hne Hw Hcs Hf Hmode n.
  assert (Hr : open_for_read (st_fs s) src = Ret src).
  { unfold open_for_read. now rewrite (open_for_read_file _ _ _ _ _ Hsrc). }
  assert (Hc : content_of (st_fs s) src = c).
  { unfold content_of. now rewrite Hsrc. }
  assert (kd = dest) as -> by exact (open_for_write_not_link _ _ _ _ Hl Hw).
  destruct (copy_file_run fuel s s0 src dest src dest fs1)
    as (s' & evs & Hrun & Ht & _ & Hcontent);
    [exact Hp|exact Hr|exact Hw|exact Hne|unfold modest in Hcs; lia
    |now rewrite Hc|now rewrite Hc|].
  rewrite Hc in Hcontent, Ht. fold n in Hcontent.
  exists s', evs. split; [exact Hrun|]. split; [exact Ht|].
  destruct (decoding_fails c).
  - destruct Hcontent as [Hrounds _]. split; [exact Hrounds|].
    now rewrite (rounds_progress _ _ _ _ _ _ Hrounds).
  - destruct Hcontent as (text & Htext & Hrounds & _).
    exists text. split; [exact Htext|]. split; [exact Hrounds|].
    now rewrite (rounds_progress _ _ _ _ _ _ Hrounds).
Qed.

Lemma copy_file_writes_in_chunks_witness :
  exists s' evs,
    copy_file 11 "src.txt" "dst.txt" (init_state digits [] 4)
    = Some (Ret tt, s')
    /\ st_trace s' =
       BarOpen 10 "src.txt"
       :: evs ++ [BarClose; Log INFO (success_copying "src.txt" "dst.txt")]
    /\ progress 0 evs = 10%Z.
Proof.
  destruct (copy_file_writes_in_chunks 11
              (init_state digits [] 4) (init_state digits [] 4)
              "src.txt" "dst.txt" true (bytes_of "0123456789") "dst.txt"
              (<["dst.txt" := File true true []]> digits))
    as (s' & evs & H & Ht & Hr).
  - apply proceeds_free. vm_compute. reflexivity.
  - reflexivity.
  - reflexivity.
  - reflexivity.
  - reflexivity.
  - discriminate.
  - vm_compute. reflexivity.
  - unfold modest. cbn. lia.
  - cbn. lia.
  - right. vm_compute. reflexivity.
  - exists s', evs. split; [exact H|]. split; [exact Ht|].
    change (decoding_fails (bytes_of "0123456789")) with false in Hr.
    destruct Hr as (text & Htext & _ & Hp).
    vm_compute in Htext. injection Htext as <-. exact Hp.
Defined.

(** ** The probe, the link and the bar, for every state *)

(** X10. [is_binary] takes only the decoding error: when the file cannot
    be opened, the [OSError] of [open] leaves it and the state is as it
    was. *)
Theorem is_binary_lets_os_errors_through s path e :
  open_for_read (st_fs s) path = Raise e ->
  is_binary path s = Some (Raise e, s)
  /\ is_OSError e = true
  /\ is_UnicodeDecodeError e = false.
Proof.
  intros Ho.
  assert (He : is_OSError e = true /\ is_UnicodeDecodeError e = false).
  { revert Ho. unfold open_for_read, stat.
    destruct (follow (st_fs s) MAXSYMLINKS path) as [k|];
      [|intros [= <-]; auto].
    destruct (st_fs s !! k) as [[[] w c| |t]|]; intros [= <-]; auto. }
  split; [exact (is_binary_open_fails _ _ _ Ho)|exact He].
Qed.

Lemma is_binary_lets_os_errors_through_witness :
  is_binary "secret.txt" (init_state locked [] 4096)
  = Some (Raise (OSError EACCES "secret.txt"), init_state locked [] 4096)
  /\ is_OSError (OSError EACCES "secret.txt") = true
  /\ is_UnicodeDecodeError (OSError EACCES "secret.txt") = false.
Proof.
  apply (is_binary_lets_os_errors_through (init_state locked [] 4096)).
  vm_compute. reflexivity.
Defined.



(** X12. [close_bar] always returns, leaves no bar or one whose total is
    zero, and calling it again changes nothing more. *)
Theorem close_bar_twice s :
  (close_bar ;; close_bar) s = close_bar s
  /\ exists s', close_bar s = Some (Ret tt, s') /\ bar_put_away s'.
Proof.
  unfold close_bar, set_bar, emit, modify, bind, gets, ret, bar_put_away.
  destruct (_bar (st_self s)) as [bar|] eqn:Hb.
  - destruct (tqdm_bool bar) eqn:Ht; cbn; rewrite ?Hb, ?Ht.
    + split; [reflexivity|]. eexists. split; [reflexivity|]. exact I.
    + split; [reflexivity|]. eexists. split; [reflexivity|].
      now rewrite Hb.
  - cbn. rewrite Hb. split; [reflexivity|]. eexists.
    split; [reflexivity|]. now rewrite Hb.
Qed.

(** ** Path names *)

Lemma last_slash_basename p : last_slash (basename p) = None.
Proof.
  unfold basename. destruct (last_slash p) as [t|] eqn:E; [|exact E].
  revert t E. induction p as [|c p IH]; intros t; cbn; [discriminate|].
  destruct (last_slash p) as [t'|] eqn:E'.
  - intros [= <-]. apply IH. reflexivity.
  - destruct (Ascii.eqb c "/"); [|discriminate]. intros [= <-]. exact E'.
Qed.

Lemma last_slash_app a b :
  last_slash (a +:+ b) =
  match last_slash b with
  | Some t => Some t
  | None =>
      match last_slash a with
      | Some t => Some (t +:+ b)
      | None => None
      end
  end.
Proof.
  induction a as [|c a IH].
  - change ("" +:+ b) with b. cbn. destruct (last_slash b); reflexivity.
  - change (String c a +:+ b) with (String c (a +:+ b)). cbn [last_slash].
    rewrite IH. destruct (last_slash b); [reflexivity|].
    destruct (last_slash a); [reflexivity|].
    destruct (Ascii.eqb c "/"); reflexivity.
Qed.

Lemma ends_with_slash_last a :
  ends_with_slash a = true -> last_slash a = Some "".
Proof.
  induction a as [|c a IH]; cbn; [discriminate|].
  destruct a as [|c' a'].
  - intros ->. reflexivity.
  - intros H. rewrite (IH H). reflexivity.
Qed.

(** The last component of a path made by [os.path.join] from a name with
    no ["/"] is that name. *)
Lemma basename_join dest e :
  last_slash e = None -> basename (os_path_join dest e) = e.
Proof.
  intros He. unfold os_path_join.
  destruct (starts_with_slash e) eqn:Hs.
  { destruct e as [|c e]; [discriminate|]. cbn in Hs, He. rewrite Hs in He.
    destruct (last_slash e); discriminate. }
  unfold basename.
  destruct (String.eqb_spec dest "") as [->|Hd]; cbn [orb].
  { change ("" +:+ e) with e. now rewrite He. }
  destruct (ends_with_slash dest) eqn:Hl.
  - rewrite last_slash_app, He, (ends_with_slash_last _ Hl). reflexivity.
  - rewrite last_slash_app.
    change ("/" +:+ e) with (String "/" e). cbn [last_slash]. rewrite He.
    reflexivity.
Qed.

Lemma last_slash_shorter p t :
  last_slash p = Some t -> (String.length t < String.length p)%nat.
Proof.
  revert t. induction p as [|c p IH]; intros t; cbn; [discriminate|].
  destruct (last_slash p) as [t'|].
  - intros [= <-]. specialize (IH _ eq_refl). lia.
  - destruct (Ascii.eqb c "/"); [|discriminate]. intros [= <-]. lia.
Qed.

Lemma length_substring_0 n : forall s,
  (String.length (substring 0 n s) <= n)%nat.
Proof.
  induction n as [|n IH]; intros [|c s]; cbn; try lia.
  specialize (IH s). lia.
Qed.

Lemma length_rstrip_slash p :
  (String.length (rstrip_slash p) <= String.length p)%nat.
Proof.
  induction p as [|c p IH]; cbn; [lia|].
  destruct (_ && _); cbn; lia.
Qed.

Lemma os_path_split_shorter p :
  (String.length (fst (os_path_split p)) <= String.length p)%nat
  /\ (snd (os_path_split p) <> "" ->
      (String.length (fst (os_path_split p)) < String.length p)%nat).
Proof.
  unfold os_path_split. cbn [fst snd].
  set (t := basename p).
  assert (Ht : (String.length t <= String.length p)%nat).
  { unfold t, basename. destruct (last_slash p) as [t'|] eqn:E; [|lia].
    apply last_slash_shorter in E. lia. }
  pose proof (length_substring_0 (String.length p - String.length t) p) as Hh.
  pose proof (length_rstrip_slash
                (substring 0 (String.length p - String.length t) p)) as Hr.
  assert (Hl : t <> "" -> (0 < String.length t)%nat).
  { destruct t; [congruence|cbn; lia]. }
  split; [|intros Hne; specialize (Hl Hne)]; destruct (_ && _); lia.
Qed.

(** ** [os.makedirs] *)

Lemma mkdir_name_total name s :
  exists r s',
    try_except (os_mkdir name) is_OSError
      (fun e => d <- os_path_isdir name ;;
                if d : bool then ret tt else raise e) s
    = Some (r, s').
Proof.
  unfold try_except, os_mkdir, os_path_isdir, bind, gets, lift, modify.
  destruct (mkdir (st_fs s) name) as [fs'|e]; [eauto|].
  destruct (is_OSError e); [|eauto].
  destruct (isdir (st_fs s) name); eauto.
Qed.

(** The fuel [os_makedirs] gives is enough. *)
Lemma makedirs_total fuel : forall name s,
  (String.length name <= fuel)%nat ->
  exists r s', makedirs fuel name s = Some (r, s').
Proof.
  induction fuel as [|fuel IH]; intros name s Hlen; cbn [makedirs];
    set (ht := if String.eqb (snd (os_path_split name)) ""
               then os_path_split (fst (os_path_split name))
               else os_path_split name);
    assert (Hshort : negb (String.eqb (fst ht) "")
                     && negb (String.eqb (snd ht) "") = true ->
                     (String.length (fst ht) < String.length name)%nat).
  1,3: intros H; apply andb_true_iff in H as [_ H];
    apply negb_true_iff in H; apply String.eqb_neq in H;
    pose proof (os_path_split_shorter name) as [H1 H2];
    unfold ht in *;
    destruct (String.eqb_spec (snd (os_path_split name)) "") as [E|E];
    [pose proof (os_path_split_shorter (fst (os_path_split name)))
       as [_ H3]; specialize (H3 H); lia
    |specialize (H2 E); lia].
  - destruct (_ && _); [|apply mkdir_name_total].
    unfold bind at 1, os_path_exists, gets.
    destruct (exists_ (st_fs s) (fst ht)); [apply mkdir_name_total|].
    specialize (Hshort eq_refl). lia.
  - destruct (_ && _); [|apply mkdir_name_total].
    unfold bind at 1, os_path_exists, gets.
    destruct (exists_ (st_fs s) (fst ht)); [apply mkdir_name_total|].
    specialize (Hshort eq_refl).
    destruct (IH (fst ht) s ltac:(lia)) as (r & s1 & H1).
    unfold bind, try_except. rewrite H1.
    destruct r as [[]|e].
    + destruct (String.eqb (snd ht) "."); [eauto|apply mkdir_name_total].
    + destruct (is_FileExistsError e); [|eauto]. unfold ret.
      destruct (String.eqb (snd ht) "."); [eauto|apply mkdir_name_total].
Qed.

Lemma isdir_insert_Dir (fs : filesystem) name :
  isdir (<[name := Dir]> fs) name = true.
Proof.
  unfold isdir, stat, MAXSYMLINKS. cbn [follow].
  now rewrite !lookup_insert_eq.
Qed.

Lemma mkdir_name_post name s s' :
  try_except (os_mkdir name) is_OSError
    (fun e => d <- os_path_isdir name ;;
              if d : bool then ret tt else raise e) s
  = Some (Ret tt, s') ->
  isdir (st_fs s') name = true.
Proof.
  unfold try_except, os_mkdir, os_path_isdir, bind, gets, lift, modify.
  unfold mkdir.
  destruct (st_fs s !! name) eqn:E; cbn.
  - destruct (isdir (st_fs s) name) eqn:D; [|discriminate].
    intros [= <-]. exact D.
  - destruct (String.eqb name "").
    { cbn. destruct (isdir (st_fs s) name) eqn:D; [|discriminate].
      intros [= <-]. exact D. }
    destruct (parent_is_dir (st_fs s) name); cbn.
    + intros [= <-]. apply isdir_insert_Dir.
    + destruct (isdir (st_fs s) name) eqn:D; [|discriminate].
      intros [= <-]. exact D.
Qed.

(** After [os.makedirs] the path is a directory, unless its last component
    is ["."]. *)
Lemma makedirs_post fuel name s s' :
  snd (os_path_split name) <> "" ->
  snd (os_path_split name) <> "." ->
  makedirs fuel name s = Some (Ret tt, s') ->
  isdir (st_fs s') name = true.
Proof.
  intros Hne Hdot.
  apply String.eqb_neq in Hne. apply String.eqb_neq in Hdot.
  destruct fuel as [|fuel]; cbn [makedirs]; rewrite Hne.
  - destruct (_ && _); [|apply mkdir_name_post].
    unfold bind at 1, os_path_exists, gets.
    destruct (exists_ _ _); [apply mkdir_name_post|discriminate].
  - destruct (_ && _); [|apply mkdir_name_post].
    unfold bind at 1, os_path_exists, gets.
    destruct (exists_ _ _); [apply mkdir_name_post|].
    rewrite Hdot. intros H.
    destruct (bind_inv _ _ _ _ _ H) as [(u & s1 & _ & H2)|(e & _ & [=])].
    exact (mkdir_name_post _ _ _ H2).
Qed.

(** ** The walk of [run] *)

Lemma follow_end fs : forall hops p k t,
  follow fs hops p = Some k -> fs !! k <> Some (Symlink t).
Proof.
  induction hops as [|h IH]; intros p k t; cbn [follow];
    destruct (fs !! p) as [[r w c| |t']|] eqn:E;
    try (intros [= <-]; congruence); try discriminate.
  apply IH.
Qed.

(** [run] scans a path that is neither a link nor a regular file: the only
    error [os.scandir] has for it is the one of [os.stat]. *)
Lemma scandir_raises fs p e :
  isfile fs p = false ->
  scandir fs p = Raise e -> stat fs p = Raise e.
Proof.
  unfold isfile, scandir, stat.
  destruct (follow fs MAXSYMLINKS p) as [k|] eqn:F;
    [|intros _ [= <-]; reflexivity].
  destruct (fs !! k) as [[r w c| |t]|] eqn:E; intros Hf H;
    try discriminate; try (injection H as <-; reflexivity).
  destruct (follow_end _ _ _ _ t F E).
Qed.

Lemma scandir_entry fs p items item :
  scandir fs p = Ret items ->
  In item items ->
  listed (entry_name item) = true
  /\ last_slash (entry_name item) = None
  /\ entry_path item = os_path_join p (entry_name item)
  /\ exists k, fs !! k = Some (entry_node item)
               /\ entry_name item = basename k.
Proof.
  unfold scandir.
  destruct (stat fs p) as [[k [r w c| |t]]|e]; try discriminate.
  intros [= <-] Hin.
  apply list_elem_of_In, list_elem_of_omap in Hin as ([k' nd] & Hk & He).
  unfold entry_of in He. cbn [fst snd] in He.
  destruct (bool_decide _ && listed _) eqn:C; [|discriminate].
  injection He as <-. cbn.
  apply andb_true_iff in C as [_ C].
  split; [exact C|]. split; [apply last_slash_basename|].
  split; [reflexivity|].
  exists k'. split; [|reflexivity].
  now apply elem_of_map_to_list in Hk.
Qed.

Lemma for_each_inv {A} (body : A -> M unit) items : forall s s' item,
  for_each items body s = Some (Ret tt, s') ->
  In item items ->
  exists s1 s2 rest,
    body item s1 = Some (Ret tt, s2)
    /\ for_each rest body s2 = Some (Ret tt, s').
Proof.
  induction items as [|x l IH]; intros s s' item H Hin; [destruct Hin|].
  cbn [for_each] in H.
  destruct (bind_inv _ _ _ _ _ H) as [([] & s1 & H1 & H2)|(e & _ & [=])].
  destruct Hin as [->|Hin]; [eauto|].
  exact (IH _ _ _ H2 Hin).
Qed.

Lemma run_directory depth fuel src dest s items :
  islink (st_fs s) src = false ->
  isfile (st_fs s) src = false ->
  scandir (st_fs s) src = Ret items ->
  run (S depth) fuel src dest s
  = for_each items
      (fun item =>
         let src := entry_path item in
         let target := os_path_join dest (entry_name item) in
         if is_symlink item then link_file src target
         else
           f <- gets (fun s => is_file (st_fs s) item) ;;
           if f : bool then copy_file fuel src target
           else
             d <- gets (fun s => is_dir (st_fs s) item) ;;
             if d : bool then
               os_makedirs target ;;
               run depth fuel src target
             else ret tt) s.
Proof.
  intros Hl Hf Hs. cbn [run].
  unfold os_path_islink, os_path_isfile, os_scandir.
  unfold bind at 1, gets at 1. rewrite Hl.
  unfold bind at 1, gets at 1. rewrite Hf.
  unfold bind at 1. unfold bind at 1, gets at 1, lift. rewrite Hs.
  reflexivity.
Qed.

(** X13. When [run] on a directory returns, every entry of the source that
    is a directory has a directory of its name under the destination. *)
Theorem run_makes_the_directories depth fuel src dest s s' items item :
  islink (st_fs s) src = false ->
  isfile (st_fs s) src = false ->
  scandir (st_fs s) src = Ret items ->
  run depth fuel src dest s = Some (Ret tt, s') ->
  In item items ->
  entry_node item = Dir ->
  isdir (st_fs s') (os_path_join dest (entry_name item)) = true.
Proof.
  intros Hl Hf Hs Hrun Hin Hd.
  destruct depth as [|depth]; [discriminate Hrun|].
  rewrite (run_directory _ _ _ _ _ _ Hl Hf Hs) in Hrun.
  destruct (scandir_entry _ _ _ _ Hs Hin) as (Hlist & Hbase & _).
  destruct (for_each_inv _ _ _ _ _ Hrun Hin) as (s1 & s2 & rest & Hb & Hrest).
  cbv zeta in Hb. unfold is_symlink, is_file, is_dir in Hb.
  rewrite Hd in Hb. unfold bind at 1, gets at 1 in Hb.
  unfold bind at 1, gets at 1 in Hb.
  destruct (bind_inv _ _ _ _ _ Hb) as [([] & sa & H1 & H2)|(e & _ & [=])].
  assert (Ha : isdir (st_fs sa) (os_path_join dest (entry_name item)) = true).
  { apply (makedirs_post _ _ _ _) with (3 := H1);
      unfold os_path_split; cbn [snd];
      rewrite (basename_join _ _ Hbase);
      intros E; rewrite E in Hlist; discriminate Hlist. }
  eapply kept_isdir;
    [|eapply kept_isdir; [exact (kept_run _ _ _ _ _ _ _ H2)|exact Ha]].
  refine (changes_for_each kept kept_refl kept_trans rest _ _ _ _ _ Hrest).
  intros it.
  destruct (is_symlink it); [apply kept_link_file|].
  apply (changes_bind kept kept_trans); [apply (changes_gets kept kept_refl)|].
  intros [|]; [apply kept_copy_file|].
  apply (changes_bind kept kept_trans); [apply (changes_gets kept kept_refl)|].
  intros [|]; [|apply (changes_ret kept kept_refl)].
  apply (changes_bind kept kept_trans); [apply kept_makedirs|].
  intros _. apply kept_run.
Qed.

Lemma run_makes_the_directories_witness :
  exists s',
    run 2 10 "A" "dest" (init_state tree_A [] 4096) = Some (Ret tt, s')
    /\ isdir (st_fs s') "dest/B" = true.
Proof.
  destruct (run 2 10 "A" "dest" (init_state tree_A [] 4096))
    as [[[[]|e] s']|] eqn:E; try (vm_compute in E; discriminate E).
  exists s'. split; [reflexivity|].
  refine (run_makes_the_directories 2 10 "A" "dest"
            (init_state tree_A [] 4096) s' _
            {| entry_name := "B"; entry_path := "A/B"; entry_node := Dir |}
            _ _ _ E _ _).
  - vm_compute. reflexivity.
  - vm_compute. reflexivity.
  - vm_compute. reflexivity.
  - vm_compute. auto.
  - reflexivity.
Defined.

(** [run] on a path that is neither a link nor a regular file and that
    [os.scandir] refuses. *)
Lemma run_scandir_fails depth fuel src dest s e :
  islink (st_fs s) src = false ->
  isfile (st_fs s) src = false ->
  scandir (st_fs s) src = Raise e ->
  run (S depth) fuel src dest s = Some (Raise e, s).
Proof.
  intros Hl Hf Hs.
  cbn [run]. unfold os_path_islink, os_path_isfile, os_scandir.
  unfold bind at 1, gets at 1. rewrite Hl.
  unfold bind at 1, gets at 1. rewrite Hf.
  unfold bind at 1. unfold bind at 1, gets at 1, lift. rewrite Hs.
  reflexivity.
Qed.

Lemma nothing_there (fs : filesystem) src :
  fs !! src = None ->
  islink fs src = false /\ isfile fs src = false
  /\ scandir fs src = Raise (OSError ENOENT src).
Proof.
  intros H.
  assert (Hl : islink fs src = false) by (unfold islink; now rewrite H).
  assert (Hs : stat fs src = Raise (OSError ENOENT src)).
  { unfold stat. now rewrite (follow_not_link _ _ Hl), H. }
  unfold isfile, scandir. now rewrite Hs.
Qed.

(** X14. A source written plainly that names nothing: the
    [FileNotFoundError] of [os.scandir] leaves [run], and nothing else
    has happened. *)
Theorem run_missing_source depth fuel src dest s :
  plain (st_fs s) src = true ->
  st_fs s !! src = None ->
  run (S depth) fuel src dest s = Some (Raise (OSError ENOENT src), s).
Proof.
  intros _ H. destruct (nothing_there _ _ H) as (Hl & Hf & Hs).
  exact (run_scandir_fails depth fuel src dest s _ Hl Hf Hs).
Qed.

Lemma run_missing_source_witness :
  run 1 10 "gone" "dest" (init_state tree_A [] 4096)
  = Some (Raise (OSError ENOENT "gone"), init_state tree_A [] 4096).
Proof.
  apply (run_missing_source 0 10 "gone" "dest" (init_state tree_A [] 4096)).
  - reflexivity.
  - reflexivity.
Defined.

(** X15. A source that is a directory with no entry: [run] returns and
    nothing has happened; the destination is not made, nothing is
    logged. *)
Theorem run_empty_directory depth fuel src dest s :
  st_fs s !! src = Some Dir ->
  scandir (st_fs s) src = Ret [] ->
  run (S depth) fuel src dest s = Some (Ret tt, s).
Proof.
  intros H Hs.
  assert (Hl : islink (st_fs s) src = false) by (unfold islink; now rewrite H).
  assert (Hf : isfile (st_fs s) src = false).
  { unfold isfile, stat. now rewrite (follow_not_link _ _ Hl), H. }
  rewrite (run_directory _ _ _ _ _ _ Hl Hf Hs). reflexivity.
Qed.

Lemma run_empty_directory_witness :
  run 1 10 "A/B" "dest" (init_state tree_A [] 4096)
  = Some (Ret tt, init_state tree_A [] 4096).
Proof.
  apply (run_empty_directory 0 10 "A/B" "dest" (init_state tree_A [] 4096)).
  - reflexivity.
  - vm_compute. reflexivity.
Defined.



(** ** The entry point *)

(** [main] from the call of [run] on, when its first statement made no
    directory or made one. *)
Lemma main_run depth fuel args s fs1 :
  (if String.eqb (snd (os_path_splitext (basename (args_destination args))))
        ""
   then if isdir (st_fs s) (args_destination args) then Ret (st_fs s)
        else mkdir (st_fs s) (args_destination args)
   else Ret (st_fs s)) = Ret fs1 ->
  main depth fuel args s
  = (try_except
       (run depth fuel (args_source args) (args_destination args))
       is_KeyboardInterrupt
       (fun _ => logger_info "Keyboard interrupt received") ;;
     logger_info "File copy operation finished")
      (started args (set_fs fs1 s)).
Proof.
  intros H. unfold main.
  assert (Hfirst :
    (if String.eqb
          (snd (os_path_splitext (basename (args_destination args)))) ""
     then
       d <- os_path_isdir (args_destination args) ;;
       if d : bool then ret tt else os_mkdir (args_destination args)
     else ret tt) s = Some (Ret tt, set_fs fs1 s)).
  { destruct (String.eqb _ "").
    - unfold os_path_isdir. unfold bind at 1, gets at 1.
      destruct (isdir (st_fs s) (args_destination args)).
      + injection H as <-. destruct s; reflexivity.
      + unfold os_mkdir, bind, gets, lift, modify. now rewrite H.
    - injection H as <-. destruct s; reflexivity. }
  rewrite (bind_run _ _ s tt _ Hfirst).
  unfold logger_info at 1.
  rewrite (bind_run _ _ _ tt _ eq_refl).
  rewrite (bind_run _ _ _ tt _ eq_refl).
  reflexivity.
Qed.

(** X17. The destination has no extension, is no directory and
    [os.mkdir] fails for it, as it does when the destination is a file
    that is there: the error leaves [main] before anything is logged or
    copied, and the exit status is 1. *)
Theorem main_cannot_make_the_destination depth fuel args s e :
  snd (os_path_splitext (basename (args_destination args))) = "" ->
  isdir (st_fs s) (args_destination args) = false ->
  mkdir (st_fs s) (args_destination args) = Raise e ->
  main depth fuel args s = Some (Raise e, s)
  /\ exit_status (@Raise unit e) = 1%Z.
Proof.
  intros Hext Hd Hm. split.
  - unfold main. apply bind_raise. rewrite Hext. cbn [String.eqb].
    unfold os_path_isdir. unfold bind at 1, gets at 1. rewrite Hd.
    unfold os_mkdir, bind, gets, lift. now rewrite Hm.
  - revert Hm. unfold mkdir.
    destruct (st_fs s !! args_destination args); [intros [= <-]; reflexivity|].
    destruct (String.eqb _ ""); [intros [= <-]; reflexivity|].
    destruct (parent_is_dir _ _); [discriminate|intros [= <-]; reflexivity].
Qed.

Lemma main_cannot_make_the_destination_witness :
  main 2 10 (arguments "A/a.txt" "notes") (init_state with_notes [] 4096)
  = Some (Raise (OSError EEXIST "notes"), init_state with_notes [] 4096)
  /\ exit_status (@Raise unit (OSError EEXIST "notes")) = 1%Z.
Proof.
  apply (main_cannot_make_the_destination 2 10 (arguments "A/a.txt" "notes")
           (init_state with_notes [] 4096)).
  - reflexivity.
  - vm_compute. reflexivity.
  - vm_compute. reflexivity.
Defined.

(** X18. A source written plainly that names nothing, with a destination
    that [os.mkdir] makes: [main] makes the directory, logs the start of
    the copy, and the [FileNotFoundError] of [run] leaves it; the end of
    the copy is not logged and the new directory stays. *)
Theorem main_missing_source depth fuel args s fs1 :
  snd (os_path_splitext (basename (args_destination args))) = "" ->
  isdir (st_fs s) (args_destination args) = false ->
  mkdir (st_fs s) (args_destination args) = Ret fs1 ->
  plain fs1 (args_source args) = true ->
  fs1 !! args_source args = None ->
  exists s',
    main (S depth) fuel args s
    = Some (Raise (OSError ENOENT (args_source args)), s')
    /\ st_fs s' = fs1
    /\ isdir (st_fs s') (args_destination args) = true
    /\ st_trace s' =
       st_trace s
       ++ [Log INFO
             (starting_file_copy (args_source args) (args_destination args))].
Proof.
  intros Hext Hd Hm _ Hsrc.
  rewrite (main_run (S depth) fuel args s fs1)
    by (now rewrite Hext, Hd).
  eexists. split.
  - apply bind_raise. unfold try_except.
    destruct (nothing_there _ _ Hsrc) as (Hl & Hf & Hs).
    rewrite (run_scandir_fails depth fuel (args_source args)
               (args_destination args) (started args (set_fs fs1 s)) _
               Hl Hf Hs).
    reflexivity.
  - cbn. split; [reflexivity|]. split; [|reflexivity].
    revert Hm. unfold mkdir.
    destruct (st_fs s !! args_destination args); [discriminate|].
    destruct (String.eqb _ ""); [discriminate|].
    destruct (parent_is_dir _ _); [|discriminate].
    intros [= <-]. apply isdir_insert_Dir.
Qed.

Lemma main_missing_source_witness :
  exists s',
    main 1 10 (arguments "gone" "out") (init_state tree_A [] 4096)
    = Some (Raise (OSError ENOENT "gone"), s')
    /\ st_fs s' !! "out" = Some Dir.
Proof.
  destruct (main_missing_source 0 10 (arguments "gone" "out")
              (init_state tree_A [] 4096) (<["out" := Dir]> tree_A))
    as (s' & H & Hfs & _).
  - reflexivity.
  - vm_compute. reflexivity.
  - vm_compute. reflexivity.
  - reflexivity.
  - vm_compute. reflexivity.
  - exists s'. split; [exact H|]. rewrite Hfs. reflexivity.
Defined.




Lemma set_fs_same s : set_fs (st_fs s) s = s.
Proof. destruct s; reflexivity. Qed.

(** [run] on a regular file is [copy_file], into the destination when
    that is a directory. *)
Lemma run_file depth fuel src dest s r w c :
  st_fs s !! src = Some (File r w c) ->
  run (S depth) fuel src dest s
  = copy_file fuel src
      (if isdir (st_fs s) dest then os_path_join dest (basename src)
       else dest) s.
Proof.
  intros H.
  assert (Hl : islink (st_fs s) src = false) by (unfold islink; now rewrite H).
  assert (Hf : isfile (st_fs s) src = true).
  { unfold isfile, stat. now rewrite (follow_not_link _ _ Hl), H. }
  cbn [run]. unfold os_path_islink, os_path_isfile, into_directory.
  unfold os_path_isdir.
  unfold bind at 1, gets at 1. rewrite Hl.
  unfold bind at 1, gets at 1. rewrite Hf.
  unfold bind at 1. unfold bind at 1, gets at 1, ret. reflexivity.
Qed.

(** [main] when its first statement has no directory to make. *)
Lemma main_run_at_once depth fuel args s :
  (snd (os_path_splitext (basename (args_destination args))) = "" ->
   isdir (st_fs s) (args_destination args) = true) ->
  main depth fuel args s
  = (try_except
       (run depth fuel (args_source args) (args_destination args))
       is_KeyboardInterrupt
       (fun _ => logger_info "Keyboard interrupt received") ;;
     logger_info "File copy operation finished")
      (started args s).
Proof.
  intros H. rewrite (main_run depth fuel args s (st_fs s)).
  - now rewrite set_fs_same.
  - destruct (String.eqb_spec
                (snd (os_path_splitext (basename (args_destination args))))
                ""); [|reflexivity].
    now rewrite H.
Qed.

(** X20. A regular file copied into a directory that is there, the
    source and the path inside the directory being written plainly: when
    the source is readable and is binary for the probe or well-formed
    UTF-8, nothing is at the path inside the directory and [open] makes
    the file, the chunk size is between 1 and 2^20 and the fuel is above
    the size of the source, [main] returns; the log starts with the start
    of the copy and ends with the success message of [copy_file] for the
    path inside the directory and the end of the copy; no other path has
    changed; and the new file holds the bytes of the source in binary
    mode and the text of the source with its line ends translated in
    text mode. *)
Theorem main_copies_a_file_into_a_directory depth fuel args s w c fs1 :
  let src := args_source args in
  let dest := args_destination args in
  let target := os_path_join dest (basename src) in
  isdir (st_fs s) dest = true ->
  plain (st_fs s) src = true ->
  plain (st_fs s) target = true ->
  st_fs s !! src = Some (File true w c) ->
  st_fs s !! target = None ->
  open_for_write (st_fs s) target = Ret (target, fs1) ->
  modest (args_chunk_size args) ->
  (length c < fuel)%nat ->
  decoding_fails c = true \/ utf8_valid c = true ->
  exists s' evs,
    main (S depth) fuel args s = Some (Ret tt, s')
    /\ st_trace s' =
       st_trace s
       ++ Log INFO (starting_file_copy src dest)
          :: evs
          ++ [Log INFO (success_copying src target);
              Log INFO "File copy operation finished"]
    /\ (forall k, plain (st_fs s) k = true -> k <> target ->
        st_fs s' !! k = st_fs s !! k)
    /\ if decoding_fails c
       then content_of (st_fs s') target = c
       else exists text,
              decode_utf8 c = Some text
              /\ content_of (st_fs s') target
                 = encode_utf8 (universal_newlines text).
Proof.
  intros src dest target Hd _ _ Hsrc Htarget Hw Hcs Hfuel Hmode.
  rewrite main_run_at_once by (intros _; exact Hd).
  set (s2 := started args s).
  assert (Hr : open_for_read (st_fs s2) src = Ret src).
  { unfold open_for_read. cbn [st_fs s2 started set_self add_event].
    now rewrite (open_for_read_file _ _ _ _ _ Hsrc). }
  assert (Hc : content_of (st_fs s2) src = c).
  { unfold content_of. cbn. now rewrite Hsrc. }
  assert (Hne : src <> target) by congruence.
  assert (Hex : exists_ (st_fs s) target = false).
  { unfold exists_, stat, MAXSYMLINKS. cbn [follow]. now rewrite !Htarget. }
  destruct (copy_file_run fuel s2 s2 src target src target fs1) as
    (s3 & evs & Hrun & Htr & Hframe & Hcont).
  { apply proceeds_free. exact Hex. }
  { exact Hr. }
  { exact Hw. }
  { exact Hne. }
  { unfold modest in Hcs. cbn. lia. }
  { now rewrite Hc. }
  { now rewrite Hc. }
  rewrite Hc in Htr, Hcont.
  assert (Hrun2 : run (S depth) fuel src dest s2 = Some (Ret tt, s3)).
  { rewrite (run_file depth fuel src dest s2 true w c Hsrc).
    change (st_fs s2) with (st_fs s). rewrite Hd. exact Hrun. }
  rewrite (bind_run _ _ s2 tt s3 (try_except_ret _ _ _ _ _ _ Hrun2)).
  exists (add_event (Log INFO "File copy operation finished") s3),
    (BarOpen (Z.of_nat (length c)) (basename src)
     :: evs ++ (if (0 <? Z.of_nat (length c))%Z then [BarClose] else [])).
  split; [reflexivity|].
  split; [|split; [intros k _; exact (Hframe k)|]].
  - cbn [st_trace add_event]. rewrite Htr.
    cbn [st_trace s2 started set_self add_event].
    rewrite <- !app_assoc. cbn [app]. rewrite <- !app_assoc. reflexivity.
  - destruct (decoding_fails c).
    + exact (proj2 Hcont).
    + destruct Hcont as (text & Ht & _ & Hk). eauto.
Qed.

Lemma main_copies_a_file_into_a_directory_witness :
  exists s',
    main 1 10 (arguments "A/a.txt" "dest") (init_state tree_A [] 4096)
    = Some (Ret tt, s')
    /\ content_of (st_fs s') "dest/a.txt" = bytes_of "hello".
Proof.
  destruct (main_copies_a_file_into_a_directory 0 10
              (arguments "A/a.txt" "dest") (init_state tree_A [] 4096)
              true (bytes_of "hello")
              (<["dest/a.txt" := File true true []]> tree_A))
    as (s' & evs & H & _ & _ & Hc).
  - vm_compute. reflexivity.
  - reflexivity.
  - reflexivity.
  - reflexivity.
  - reflexivity.
  - vm_compute. reflexivity.
  - unfold modest. cbn. lia.
  - vm_compute. lia.
  - right. vm_compute. reflexivity.
  - exists s'. split; [exact H|].
    destruct Hc as (text & Ht & Hc).
    vm_compute in Ht. injection Ht as <-.
    etransitivity; [exact Hc|]. vm_compute. reflexivity.
Defined.

(** X21. The source is a regular file, its destination is there and the
    answer at the prompt is ["e"]: [SystemExit(1)] leaves [copy_file],
    [run] and [main], whose handler is for [KeyboardInterrupt] only; the
    exit status is 1, nothing is copied and the end of the copy is not
    logged. *)
Theorem main_exit_at_the_prompt depth fuel args s rd w c junk r rest :
  let src := args_source args in
  let dest := args_destination args in
  let target :=
    if isdir (st_fs s) dest then os_path_join dest (basename src) else dest in
  (snd (os_path_splitext (basename dest)) = "" ->
   isdir (st_fs s) dest = true) ->
  st_fs s !! src = Some (File rd w c) ->
  exists_ (st_fs s) target = true ->
  st_stdin s = junk ++ r :: rest ->
  Forall (fun l => recognised l = false) junk ->
  lower r = "e" ->
  main (S depth) fuel args s
  = Some (Raise (SystemExit 1),
          prompted (S (length junk)) target rest (started args s))
  /\ exit_status (@Raise unit (SystemExit 1)) = 1%Z.
Proof.
  intros src dest target Hfirst Hsrc Hex Hin Hj Hr.
  split; [|reflexivity].
  rewrite main_run_at_once by exact Hfirst.
  set (s2 := started args s).
  apply bind_raise. unfold try_except. fold src dest.
  rewrite (run_file depth fuel src dest s2 rd w c Hsrc).
  change (st_fs s2) with (st_fs s). fold target.
  assert (Hcopy : copy_file fuel src target s2
                  = Some (Raise (SystemExit 1),
                          prompted (S (length junk)) target rest s2)).
  { unfold copy_file, bind, os_path_exists, gets.
    change (st_fs s2) with (st_fs s). rewrite Hex.
    rewrite (conflict_loop_answer target s2 junk r rest Hj); auto.
    - unfold answer. rewrite Hr. reflexivity.
    - unfold recognised. rewrite Hr. reflexivity. }
  rewrite Hcopy. reflexivity.
Qed.

Lemma main_exit_at_the_prompt_witness :
  exists s',
    main 1 10 (arguments "src.bin" "dest.bin")
      (init_state two_files ["x"; "E"] 4096)
    = Some (Raise (SystemExit 1), s')
    /\ st_fs s' = two_files.
Proof.
  destruct (main_exit_at_the_prompt 0 10 (arguments "src.bin" "dest.bin")
              (init_state two_files ["x"; "E"] 4096)
              true true [xff; x00; x01; xfe] ["x"] "E" [])
    as [H _].
  - discriminate.
  - reflexivity.
  - vm_compute. reflexivity.
  - reflexivity.
  - repeat constructor.
  - reflexivity.
  - eexists. split; [exact H|reflexivity].
Defined.
